(* ===== verification/_CoqProject ===== *)
-Q . S2P
Prelude.v
Crc32.v
CrcPoly.v
PyFs.v
FirmwareHeader.v
FindRev.v
Sha256.v
Py3Lib.v
CpCfg.v
