(* ===== verification/Prelude.v ===== *)
(** * A verification development of the bertos-meson build scripts

    The repository ships three small Python scripts that the meson build
    of BeRTOS applications runs:

    - [src/create-firmware-header.py] (Python 2), the firmware image
      packager: it reads a raw firmware file, folds a caller-supplied tag
      and then every line of the payload into a CRC32 with
      [binascii.crc32], and writes [<size:u32le><crc:u32le><payload>],
      first with an ASCII placeholder header ["0000" "0000"] that it
      overwrites after a [seek(0)] once the payload is written;
    - [src/bertos/cpcfg.py] (Python 3), the configuration stager: it
      copies [app/hw/*.h] and [app/cfg/*.h] into [hw/] and [cfg/] next to
      an output header, hashes their text with SHA-256 and rewrites the
      output header with the sentinel line [/* cfg+hw SHA256=<hex> */]
      only when the sentinel changed;
    - [src/findrev.py] (Python 2), the version extractor: it scans a C
      header line by line for an [#if (ARCH & ARCH_<board>)] guard of the
      requested board and prints the [FIRMWARE_VERSION] defined after it.

    The scripts share no state; they interact only through the host
    filesystem and standard output, which the development models once
    (file [PyFs.v]) and threads through each script.

    ** Files, in dependency order

    - [Prelude.v] (this file): the notation scope [py_scope], bytes, the
      Python exception values, the state-and-exception monad [PyM] in
      which every script is written, [py_for] for Python [for] loops,
      list indexing with [IndexError], and the line splitting of
      [file.readlines()] with its round trip; the predicate
      [eventually] (every execution of a step relation reaches a
      condition) in which liveness is stated; the hint databases [py]
      (resolution) and [pyrw] (rewriting) and the tactic [py_simpl].
    - [Crc32.v]: the CRC-32 of [binascii.crc32] (library code, modelled
      from the spec and from CPython 2.7's [binascii.c]): the bitwise
      reference, the 256-entry table [crc_32_tab], the table-driven
      update, the signed result of Python 2, and the interface
      [Crc32Lib] that the packager relies on (the masked checksum of a
      concatenation is the checksum of the second part seeded by the
      first).  Theorems: the table is the bitwise reference, the
      table-driven update equals the bitwise one, results are 32-bit,
      the [& 0xffffffff] mask turns the signed result into the unsigned
      one, the standard check value, and the byte step is a bijection of
      the register (the top bytes of the table are pairwise distinct),
      so a single changed byte always changes the checksum.
    - [CrcPoly.v]: the mathematical definition of CRC-32 that the spec
      names: polynomials over GF(2) as bit vectors in [Z], the IEEE
      802.3 generator [G], multiples of [G] ([gmul]), remainders
      ([is_rem]) and long division ([pmod]), bit reversal and the
      message polynomial.  Theorems: long division computes the
      remainder, remainders are unique, and the CRC register of
      [Crc32] is the bit-reversed remainder, so [binascii.crc32]
      refines the polynomial definition; [x] is invertible modulo [G],
      hence every burst of at most 32 bits changes the checksum.
    - [PyFs.v]: the filesystem (files as bytes, directories, paths that
      refuse to open), [os.path.dirname], [open] in the modes the
      scripts use ([rb], [wb], [r+], [w+]), file positions, [write]
      (overwrite at the position, extend with zero bytes past the end),
      [seek], [read], [truncate], [readlines], [print]; lemmas on the
      effects of each operation; the integer formatting of [str] and
      ["%08x"]; and a small Hoare logic of frames ([keeps], [frame],
      one rule per statement, the tactic [frame_step]) that bounds the
      files a program may change.
    - [FirmwareHeader.v]: [create-firmware-header.py], statement by
      statement, in a Section over any [Crc32Lib] implementation, and its
      instance at [binascii_crc32].
    - [FindRev.v]: [findrev.py] as a per-line step function on a record
      of its loop variables, the [str] methods it calls, a two-state
      specification [scan] that the script refines, and the loop as a
      transition system [loop_step] on (variables, lines left, world).
    - [Sha256.v]: SHA-256 as [hashlib.sha256] computes it (library code,
      modelled from FIPS 180-4 on 32-bit words in [Z]) and the interface
      [Sha256Lib] the stager relies on (a digest is 64 lower-case hex
      digits), with its instance, the padding theorem and the standard
      test vectors.
    - [Py3Lib.v]: the Python 3 library calls of the stager, each from
      the CPython code it runs: [os.path.join] and [basename],
      [glob.glob] on [d/*.h], [os.mkdir], [shutil.copy2] with its
      [SameFileError] check, and text-mode [read()] (strict UTF-8, the
      newline translation of [newline=None]); lemmas on their effects
      and on texts (CRLF and LF files read the same).
    - [CpCfg.v]: [cpcfg.py], statement by statement, in a Section over
      any [hexdigest] meeting [Sha256Lib] and any directory order
      [listdir] (the order of [os.scandir] is the filesystem's), with
      the stages of a run ([after_mkdir], [after_hw], [after_cfg],
      [message]) and the world [final_world] it leaves.

    ** What the theorems show

    - Packager ([FirmwareHeader.v]): on a readable input under 4 GiB and
      a creatable output the image is exactly [size, CRC of tag ++
      payload, payload] and parses back; the CRC folded line by line
      equals the CRC of the whole payload; re-runs are idempotent; every
      error path (usage, the argv off-by-one, missing input, unwritable
      output, payload of 4 GiB or more) and the filesystem it leaves;
      on every input it writes no file but [sys.argv[2]] (a frame
      property, proved with the frame rules of [PyFs]); two runs whose
      tag-then-payload bytes differ only within 4 consecutive bytes
      write different checksums (the spec's tag sensitivity, and
      detection of any burst of up to 32 corrupted payload bits).
    - CRC-32 ([Crc32.v], [CrcPoly.v]): the table-driven CRC equals the
      bitwise one on every input, and the masked result is the
      complemented, bit-reversed remainder of [init * x^(8n) + M(x) *
      x^32] modulo the IEEE 802.3 generator (a refinement of the
      polynomial definition); 32-bit bounds; the signed/unsigned mask;
      check value, obtained both from the table and from long division.
    - findrev ([FindRev.v]): the script refines [scan]; its only error;
      the unused [official] flag; a board argument with an
      upper-case letter never matches, since the guard names are
      lower-cased and the argument is not; on every input it changes no file; and liveness: once the
      requested block is open and a [FIRMWARE_VERSION] define lies
      ahead, the loop inevitably prints that version and closes the
      block.
    - Stager ([CpCfg.v]): a run under [stage_ok] ends in [final_world]
      and [outname] reads back as the sentinel of the headers' texts; a
      second run on that world prints "No need" and changes nothing; the
      copies are made on every run, whether or not the sentinel changed;
      the digest
      ignores line endings but depends on the directory order; the
      errors of a same-directory layout, of a header that is not UTF-8,
      of a missing build directory and of missing arguments; on every
      input it only adds [hw] and [cfg] beside [outname] and writes no
      file but [outname], [hw], [cfg] and the entries [hw/n] and
      [cfg/n] for slash-free names [n] (a frame property); when a plain
      file stands where [hw] or [cfg] should be created, the
      [FileExistsError] is swallowed and the next [copy2] overwrites
      that file.
    - Libraries: the SHA-256 message padding is that of FIPS 180-4
      (0x80, the least run of zero bytes, the 64-bit big-endian bit
      length) and is cut into 64-byte blocks without loss, and the model
      meets the FIPS test vectors ([Sha256.v]); the strict UTF-8
      check accepts exactly the encodings of scalar values, and
      [os.path.split] undoes [os.path.join] ([Py3Lib.v]); the digit
      loop of [str] and ["%08x"] terminates within its fuel ([PyFs.v]).

    ** Bounds and fuel

    Every loop of the scripts runs over a finite list (the lines of a
    file, the entries of a glob) and is a structural [py_for].  Fuel is
    used in four library models only: [PyFs.digits] ([log2 n + 1]
    rounds, one digit each; [digits_terminates] proves the fuel
    enough), the block splitting of [Sha256] (fuel =
    length of the padded message; [blocks_concat] proves that no byte
    is lost) and its word splitting (16 rounds for the 16 words of a
    64-byte block).  Long division in [CrcPoly] takes one round per
    coefficient above [x^31]: [pmod] uses [log2 a] rounds, and
    [pmod_fuel] shows that any fuel past the degree gives the same
    remainder.  Machine integers are kept in [Z] with the
    wrap-around written out ([MASK32], [w32]).

    ** Not modelled

    The filesystem compares paths literally (no normalisation, no
    symbolic links); writes are visible at once (buffering does not
    change the final contents, since every script closes its files or
    exits); file metadata ([copystat]), disk-full and other mid-write I/O
    errors are not modelled; file handles are not a resource, so
    [cpcfg.py]'s [_f.close] (never called) only appears as a finding.
    The locale encoding of Python 3 text files is UTF-8. *)

From stdpp Require Import base list strings gmap.
From Stdlib Require Import ZArith Lia.

Declare Scope py_scope.
Delimit Scope py_scope with py.

Create HintDb py discriminated.
Create Rewrite HintDb pyrw.

(** ** Bytes *)

Abbreviation bytes := (list Byte.byte).

#[export] Instance byte_eq_dec : EqDecision Byte.byte := Byte.byte_eq_dec.

Definition byte_val (b : Byte.byte) : Z := Z.of_N (Byte.to_N b).

Lemma byte_val_range b : (0 <= byte_val b < 256)%Z.
Proof.
  unfold byte_val. pose proof (Byte.to_N_bounded b). lia.
Qed.

Definition byte_of_Z (z : Z) : Byte.byte :=
  match Byte.of_N (Z.to_N (z mod 256)%Z) with Some b => b | None => Byte.x00 end.

Lemma byte_val_of_Z z : byte_val (byte_of_Z z) = (z mod 256)%Z.
Proof.
  unfold byte_val, byte_of_Z.
  assert (Hr : (0 <= z mod 256 < 256)%Z) by (apply Z.mod_pos_bound; lia).
  destruct (Byte.of_N (Z.to_N (z mod 256))) eqn:E.
  - apply Byte.to_of_N in E. rewrite E. apply Z2N.id. lia.
  - apply Byte.of_N_None_iff in E. lia.
Qed.

Lemma byte_of_Z_val b : byte_of_Z (byte_val b) = b.
Proof.
  unfold byte_of_Z. pose proof (byte_val_range b).
  rewrite Z.mod_small by lia. unfold byte_val. rewrite N2Z.id.
  by rewrite Byte.of_to_N.
Qed.

(** A Python 2 [str] is a byte string: [sys.argv] entries and literals. *)
Definition bytes_of_string (s : string) : bytes :=
  map Ascii.byte_of_ascii (String.list_ascii_of_string s).

(** ** Python exceptions *)

Inductive errno := ENOENT | EEXIST | EISDIR | ENOTDIR | EACCES.

(** [OSError e p] stands for Python 2's [IOError] and Python 3's
    [OSError] family ([FileNotFoundError] is [OSError ENOENT],
    [FileExistsError] is [OSError EEXIST]). *)
Inductive exn :=
  | OSError (e : errno) (path : string)
  | IndexError
  | StructError
  | SameFileError (src dst : string)
  | UnicodeDecodeError (path : string)
  | SystemExit (code : Z).

#[export] Instance errno_eq_dec : EqDecision errno.
Proof. solve_decision. Defined.
#[export] Instance exn_eq_dec : EqDecision exn.
Proof. solve_decision. Defined.

(** The exit status of the interpreter for an uncaught exception. *)
Definition exit_status (r : exn + unit) : Z :=
  match r with
  | inr _ => 0
  | inl (SystemExit c) => c
  | inl _ => 1
  end.

(** ** The state-and-exception monad *)

Definition PyM (S A : Type) : Type := S -> (exn + A) * S.

Definition ret {S A} (a : A) : PyM S A := fun s => (inr a, s).

Definition bind {S A B} (m : PyM S A) (k : A -> PyM S B) : PyM S B :=
  fun s => match m s with
           | (inl e, s') => (inl e, s')
           | (inr a, s') => k a s'
           end.

Definition raise {S A} (e : exn) : PyM S A := fun s => (inl e, s).

Definition get_st {S} : PyM S S := fun s => (inr s, s).

Definition modify_st {S} (f : S -> S) : PyM S unit := fun s => (inr tt, f s).

(** [try: m except E: h]: [handler e] is [Some h] when an [except]
    clause catches [e]; other exceptions propagate. *)
Definition try_except {S A} (m : PyM S A) (handler : exn -> option (PyM S A)) : PyM S A :=
  fun s => match m s with
           | (inl e, s') => match handler e with Some h => h s' | None => (inl e, s') end
           | r => r
           end.

Notation "x <- m ;; k" := (bind m (fun x => k))
  (at level 100, m at next level, right associativity) : py_scope.
Notation "m ;; k" := (bind m (fun _ => k))
  (at level 100, right associativity) : py_scope.

Local Open Scope py_scope.

(** [for x in l: body] with the loop variables threaded as [a]. *)
Fixpoint py_for {S A B} (body : A -> B -> PyM S A) (l : list B) (a : A) : PyM S A :=
  match l with
  | [] => ret a
  | x :: r => a' <- body a x ;; py_for body r a'
  end.

(** [l[i]] on a Python list. *)
Definition py_index {S A} (l : list A) (i : nat) : PyM S A :=
  match l !! i with Some x => ret x | None => raise IndexError end.

Section MonadLaws.
Context {S : Type}.

Lemma bind_ret_l {A B} (a : A) (k : A -> PyM S B) s :
  bind (ret a) k s = k a s.
Proof. reflexivity. Qed.

Lemma bind_raise {A B} e (k : A -> PyM S B) s :
  bind (raise e) k s = (inl e, s).
Proof. reflexivity. Qed.

Lemma bind_assoc {A B C} (m : PyM S A) (k : A -> PyM S B) (h : B -> PyM S C) s :
  bind (bind m k) h s = bind m (fun a => bind (k a) h) s.
Proof. unfold bind. destruct (m s) as [[e|a] s']; reflexivity. Qed.

Lemma bind_inr {A B} (m : PyM S A) (k : A -> PyM S B) s a s' :
  m s = (inr a, s') -> bind m k s = k a s'.
Proof. unfold bind. intros ->. reflexivity. Qed.

Lemma bind_inl {A B} (m : PyM S A) (k : A -> PyM S B) s e s' :
  m s = (inl e, s') -> bind m k s = (inl e, s').
Proof. unfold bind. intros ->. reflexivity. Qed.

Lemma try_except_inr {A} (m : PyM S A) handler s a s' :
  m s = (inr a, s') -> try_except m handler s = (inr a, s').
Proof. unfold try_except. by intros ->. Qed.

Lemma try_except_caught {A} (m : PyM S A) handler h s e s' :
  m s = (inl e, s') -> handler e = Some h -> try_except m handler s = h s'.
Proof. unfold try_except. by intros -> ->. Qed.

(** A loop whose body always succeeds runs as a left fold. *)
Lemma py_for_pure {A B} (f : A -> B -> A) (l : list B) a s :
  @py_for S A B (fun a x => ret (f a x)) l a s = (inr (fold_left f l a), s).
Proof. revert a. induction l as [|x l IH]; intros a; simpl; [done|apply IH]. Qed.
End MonadLaws.

#[export] Hint Rewrite @bind_ret_l @bind_raise @bind_assoc : pyrw.

(** Run the first statement of a symbolic program with the lemma [H]
    that gives its outcome; the side conditions of [H] stay as goals. *)
Ltac py_step H := erewrite bind_inr; [cbv beta|eapply H].

(** Unfold the monad plumbing of a concrete run. *)
Ltac py_simpl :=
  repeat (autorewrite with pyrw; cbn [py_for ret raise get_st modify_st fst snd]).

(** ** Lines: [file.readlines()] and [for l in f]

    Both split a file after every newline and keep it; a last line
    without a newline is kept as it is; an empty file has no line. *)

Section Lines.
Context {A : Type} `{EqDecision A} (nl : A).

Fixpoint split_lines (l : list A) : list (list A) :=
  match l with
  | [] => []
  | x :: r =>
      if decide (x = nl) then [x] :: split_lines r
      else match split_lines r with
           | [] => [[x]]
           | l1 :: ls => (x :: l1) :: ls
           end
  end.

(** A line ends at its first newline, or at the end of the file. *)
Definition terminated (l : list A) : Prop := exists body, l = body ++ [nl] /\ nl ∉ body.
Definition unterminated (l : list A) : Prop := l <> [] /\ nl ∉ l.

Fixpoint lines_wf (ls : list (list A)) : Prop :=
  match ls with
  | [] => True
  | [l] => terminated l \/ unterminated l
  | l :: ls => terminated l /\ lines_wf ls
  end.

Lemma concat_split_lines l : concat (split_lines l) = l.
Proof.
  induction l as [|x r IH]; simpl; [done|].
  case_decide; simpl; [by rewrite IH|].
  destruct (split_lines r) as [|l1 ls]; simpl in *; [by rewrite <- IH|].
  by rewrite IH.
Qed.

Lemma split_lines_no_nl body :
  nl ∉ body -> body <> [] -> split_lines body = [body].
Proof.
  induction body as [|x r IH]; intros Hn Hne; [done|]. simpl.
  rewrite decide_False by (intros ->; apply Hn; left).
  destruct r as [|y r]; [done|].
  rewrite IH by (set_solver || done). done.
Qed.

Lemma split_lines_terminated body rest :
  nl ∉ body -> split_lines (body ++ nl :: rest) = (body ++ [nl]) :: split_lines rest.
Proof.
  induction body as [|x r IH]; intros Hn; simpl.
  - by rewrite decide_True.
  - rewrite decide_False by (intros ->; apply Hn; left).
    rewrite IH by set_solver. done.
Qed.

(** The splitting is the only well-formed one: joining well-formed
    lines and splitting again gives them back. *)
Lemma split_lines_concat ls : lines_wf ls -> split_lines (concat ls) = ls.
Proof.
  induction ls as [|l ls IH]; [done|]. intros Hwf.
  assert (Ht : terminated l -> lines_wf ls -> split_lines (concat (l :: ls)) = l :: ls).
  { intros [body [-> Hn]] Hw. simpl. rewrite <- app_assoc. simpl.
    rewrite split_lines_terminated by done. by rewrite IH. }
  destruct ls as [|l' ls].
  - destruct Hwf as [Hwf|[Hne Hn]]; [by apply Ht|].
    simpl. rewrite app_nil_r. by apply split_lines_no_nl.
  - destruct Hwf. by apply Ht.
Qed.

Lemma split_lines_wf l : lines_wf (split_lines l).
Proof.
  induction l as [|x r IH]; simpl; [done|].
  case_decide as Hx.
  - subst. destruct (split_lines r); [left; exists []; set_solver|].
    split; [exists []; set_solver|done].
  - destruct (split_lines r) as [|l1 ls] eqn:E; [right; split; set_solver|].
    destruct ls as [|l2 ls].
    + destruct IH as [[b [-> Hb]]|[Hne Hn]].
      * left. exists (x :: b). split; [done|set_solver].
      * right. split; [done|set_solver].
    + destruct IH as [[b [-> Hb]] Hw]. split; [|done].
      exists (x :: b). split; [done|set_solver].
Qed.
End Lines.

#[export] Hint Rewrite @concat_split_lines : pyrw.

Lemma split_lines_concat_witness :
  split_lines 10 (concat [[1; 10]; [2; 3; 10]; [4]]) = [[1; 10]; [2; 3; 10]; [4]].
Proof.
  apply split_lines_concat. simpl. split; [|split]; [exists [1] | exists [2; 3] | right];
    split; try reflexivity; set_solver.
Defined.

(** [lstrip]-style scanning: drop the leading elements that satisfy [f]. *)
Fixpoint drop_while {A} (f : A -> bool) (l : list A) : list A :=
  match l with
  | [] => []
  | x :: r => if f x then drop_while f r else l
  end.

(** ** 32-bit words *)

Local Open Scope Z_scope.

Definition MASK32 : Z := 0xffffffff.

Lemma land_mask32 z : Z.land z MASK32 = z mod 2 ^ 32.
Proof. apply (Z.land_ones z 32). lia. Qed.

Lemma land_mask32_range z : 0 <= Z.land z MASK32 < 2 ^ 32.
Proof. rewrite land_mask32. apply Z.mod_pos_bound. lia. Qed.

Lemma land_mask32_small z : 0 <= z < 2 ^ 32 -> Z.land z MASK32 = z.
Proof. intros. rewrite land_mask32. by apply Z.mod_small. Qed.

#[export] Hint Resolve land_mask32_range : py.

(** Bit-level facts shared by the CRC and the little-endian encoders. *)

Lemma testbit_small_high x n m :
  0 <= x < 2 ^ n -> 0 <= n <= m -> Z.testbit x m = false.
Proof.
  intros Hx Hm. rewrite <- (Z.mod_small x (2 ^ n)) by lia.
  by apply Z.mod_pow2_bits_high.
Qed.

Lemma lt_pow2_of_bits x n :
  0 <= n -> 0 <= x -> (forall m, n <= m -> Z.testbit x m = false) -> x < 2 ^ n.
Proof.
  intros Hn Hx Hb.
  assert (E : x = x mod 2 ^ n).
  { apply Z.bits_inj'. intros m Hm. destruct (Z.lt_ge_cases m n).
    - by rewrite Z.mod_pow2_bits_low.
    - rewrite Z.mod_pow2_bits_high by lia. by apply Hb. }
  rewrite E. apply Z.mod_pos_bound. lia.
Qed.

Lemma lxor_range a b n :
  0 <= n -> 0 <= a < 2 ^ n -> 0 <= b < 2 ^ n -> 0 <= Z.lxor a b < 2 ^ n.
Proof.
  intros Hn Ha Hb. assert (0 <= Z.lxor a b) by (apply Z.lxor_nonneg; lia).
  split; [done|]. apply lt_pow2_of_bits; [done..|]. intros m Hm.
  rewrite Z.lxor_spec, (testbit_small_high a n), (testbit_small_high b n) by lia.
  done.
Qed.

#[export] Hint Resolve lxor_range : py.

(** Close a goal [a = b] on integers bit by bit, once the bits of the
    operands have been rewritten to booleans. *)
Ltac bits_by_cases :=
  repeat match goal with
         | |- context [Z.testbit ?a ?b] =>
             lazymatch a with
             | Z.lxor _ _ => fail
             | Z.shiftr _ _ => fail
             | _ => destruct (Z.testbit a b)
             end
         end; reflexivity.

(** Xor by a fixed word is an involution, hence injective. *)
Lemma lxor_cancel_l a x y : Z.lxor a x = Z.lxor a y -> x = y.
Proof.
  intros E. rewrite <- (Z.lxor_0_l x), <- (Z.lxor_0_l y), <- (Z.lxor_nilpotent a),
    !Z.lxor_assoc. by rewrite E.
Qed.

Lemma lxor_cancel_r a x y : Z.lxor x a = Z.lxor y a -> x = y.
Proof. rewrite (Z.lxor_comm x), (Z.lxor_comm y). apply lxor_cancel_l. Qed.

(** A word is its low byte and the rest. *)
Lemma low_high_ext x y : Z.shiftr x 8 = Z.shiftr y 8 -> Z.land x 0xff = Z.land y 0xff -> x = y.
Proof.
  intros Eh El. apply Z.bits_inj'. intros i Hi. change 0xff with (Z.ones 8) in El.
  destruct (Z.lt_ge_cases i 8).
  - apply (f_equal (fun z => Z.testbit z i)) in El.
    by rewrite !Z.land_spec, Z.ones_spec_low, !andb_true_r in El by lia.
  - apply (f_equal (fun z => Z.testbit z (i - 8))) in Eh.
    rewrite !Z.shiftr_spec in Eh by lia. by replace (i - 8 + 8) with i in Eh by lia.
Qed.

(** ** Transition systems

    [eventually step P c]: every execution of [step] from [c] reaches a
    configuration satisfying [P] ("P is inevitable"): either [P c] holds
    now, or [c] can move and every successor inevitably reaches [P].  A
    configuration that cannot move and does not satisfy [P] is a
    counterexample, so this is liveness and not only partial
    correctness. *)
Inductive eventually {C} (step : C -> C -> Prop) (P : C -> Prop) : C -> Prop :=
  | ev_now c : P c -> eventually step P c
  | ev_later c :
      (exists c', step c c') -> (forall c', step c c' -> eventually step P c') ->
      eventually step P c.

(** A configuration with exactly one successor reaches [P] when that
    successor does. *)
Lemma eventually_det {C} (step : C -> C -> Prop) (P : C -> Prop) c c' :
  (forall c'', step c c'' <-> c'' = c') -> eventually step P c' -> eventually step P c.
Proof.
  intros Hs Hev. apply ev_later; [exists c'; by apply Hs|]. intros c'' ->%Hs. done.
Qed.
