(* ===== verification/Crc32.v ===== *)
(** * CRC-32 as computed by [binascii.crc32]

    The packager calls [binascii.crc32(data, crc) & 0xffffffff]
    ([src/create-firmware-header.py], lines 20 and 22).  [binascii] is
    CPython's library, not code of this repository: it is modelled here
    from the spec (IEEE 802.3 CRC-32, the one of zlib) and from the
    Python 2.7 C source it runs, which

    - parses the seed with the [I] format, i.e. modulo 2^32;
    - complements it, runs the table-driven loop
      [crc = crc_32_tab[(crc ^ byte) & 0xff] ^ (crc >> 8)];
    - complements the result and returns it as a signed 32-bit [int]
      (Python 2.6 and later), which is why the script masks it.

    [crc_bit] is the bitwise reference (one shift of the reflected
    polynomial [0xEDB88320]); [crc_32_tab] is the 256-entry table written
    out as the C source has it.  The theorems show that the table is the
    reference, that the table-driven byte step equals eight bitwise steps
    on every 32-bit state, that results stay in 32 bits, that the mask
    turns the signed result into the unsigned checksum, and that the
    masked checksum composes over concatenation: the law [Crc32Lib] that
    the packager is proved against.  Last, the byte step is injective in
    the register and in the byte, so two messages that differ in one
    byte have different checksums. *)

From stdpp Require Import base list strings.
From Stdlib Require Import ZArith Lia.
From S2P Require Import Prelude.

Local Open Scope Z_scope.

(** What the packager needs of [binascii.crc32]: folding [a] and then
    [b] into a masked checksum is folding [a ++ b]. *)
Class Crc32Lib (crc32 : bytes -> Z -> Z) : Prop := {
  crc32_masked_app a b v :
    Z.land (crc32 b (Z.land (crc32 a v) MASK32)) MASK32 =
    Z.land (crc32 (a ++ b) v) MASK32
}.

Module Crc32.

Definition POLY : Z := 0xEDB88320.

(** One bit of the reflected CRC-32 register. *)
Definition crc_bit (c : Z) : Z :=
  if Z.testbit c 0 then Z.lxor (Z.shiftr c 1) POLY else Z.shiftr c 1.

(** The reference byte step: xor the byte in, shift eight times. *)
Definition crc_byte_ref (c : Z) (b : Byte.byte) : Z :=
  Nat.iter 8 crc_bit (Z.lxor c (byte_val b)).

(** [crc_32_tab] of [Modules/binascii.c]. *)
Definition crc_32_tab : list Z := [
    0x00000000; 0x77073096; 0xee0e612c; 0x990951ba;
    0x076dc419; 0x706af48f; 0xe963a535; 0x9e6495a3;
    0x0edb8832; 0x79dcb8a4; 0xe0d5e91e; 0x97d2d988;
    0x09b64c2b; 0x7eb17cbd; 0xe7b82d07; 0x90bf1d91;
    0x1db71064; 0x6ab020f2; 0xf3b97148; 0x84be41de;
    0x1adad47d; 0x6ddde4eb; 0xf4d4b551; 0x83d385c7;
    0x136c9856; 0x646ba8c0; 0xfd62f97a; 0x8a65c9ec;
    0x14015c4f; 0x63066cd9; 0xfa0f3d63; 0x8d080df5;
    0x3b6e20c8; 0x4c69105e; 0xd56041e4; 0xa2677172;
    0x3c03e4d1; 0x4b04d447; 0xd20d85fd; 0xa50ab56b;
    0x35b5a8fa; 0x42b2986c; 0xdbbbc9d6; 0xacbcf940;
    0x32d86ce3; 0x45df5c75; 0xdcd60dcf; 0xabd13d59;
    0x26d930ac; 0x51de003a; 0xc8d75180; 0xbfd06116;
    0x21b4f4b5; 0x56b3c423; 0xcfba9599; 0xb8bda50f;
    0x2802b89e; 0x5f058808; 0xc60cd9b2; 0xb10be924;
    0x2f6f7c87; 0x58684c11; 0xc1611dab; 0xb6662d3d;
    0x76dc4190; 0x01db7106; 0x98d220bc; 0xefd5102a;
    0x71b18589; 0x06b6b51f; 0x9fbfe4a5; 0xe8b8d433;
    0x7807c9a2; 0x0f00f934; 0x9609a88e; 0xe10e9818;
    0x7f6a0dbb; 0x086d3d2d; 0x91646c97; 0xe6635c01;
    0x6b6b51f4; 0x1c6c6162; 0x856530d8; 0xf262004e;
    0x6c0695ed; 0x1b01a57b; 0x8208f4c1; 0xf50fc457;
    0x65b0d9c6; 0x12b7e950; 0x8bbeb8ea; 0xfcb9887c;
    0x62dd1ddf; 0x15da2d49; 0x8cd37cf3; 0xfbd44c65;
    0x4db26158; 0x3ab551ce; 0xa3bc0074; 0xd4bb30e2;
    0x4adfa541; 0x3dd895d7; 0xa4d1c46d; 0xd3d6f4fb;
    0x4369e96a; 0x346ed9fc; 0xad678846; 0xda60b8d0;
    0x44042d73; 0x33031de5; 0xaa0a4c5f; 0xdd0d7cc9;
    0x5005713c; 0x270241aa; 0xbe0b1010; 0xc90c2086;
    0x5768b525; 0x206f85b3; 0xb966d409; 0xce61e49f;
    0x5edef90e; 0x29d9c998; 0xb0d09822; 0xc7d7a8b4;
    0x59b33d17; 0x2eb40d81; 0xb7bd5c3b; 0xc0ba6cad;
    0xedb88320; 0x9abfb3b6; 0x03b6e20c; 0x74b1d29a;
    0xead54739; 0x9dd277af; 0x04db2615; 0x73dc1683;
    0xe3630b12; 0x94643b84; 0x0d6d6a3e; 0x7a6a5aa8;
    0xe40ecf0b; 0x9309ff9d; 0x0a00ae27; 0x7d079eb1;
    0xf00f9344; 0x8708a3d2; 0x1e01f268; 0x6906c2fe;
    0xf762575d; 0x806567cb; 0x196c3671; 0x6e6b06e7;
    0xfed41b76; 0x89d32be0; 0x10da7a5a; 0x67dd4acc;
    0xf9b9df6f; 0x8ebeeff9; 0x17b7be43; 0x60b08ed5;
    0xd6d6a3e8; 0xa1d1937e; 0x38d8c2c4; 0x4fdff252;
    0xd1bb67f1; 0xa6bc5767; 0x3fb506dd; 0x48b2364b;
    0xd80d2bda; 0xaf0a1b4c; 0x36034af6; 0x41047a60;
    0xdf60efc3; 0xa867df55; 0x316e8eef; 0x4669be79;
    0xcb61b38c; 0xbc66831a; 0x256fd2a0; 0x5268e236;
    0xcc0c7795; 0xbb0b4703; 0x220216b9; 0x5505262f;
    0xc5ba3bbe; 0xb2bd0b28; 0x2bb45a92; 0x5cb36a04;
    0xc2d7ffa7; 0xb5d0cf31; 0x2cd99e8b; 0x5bdeae1d;
    0x9b64c2b0; 0xec63f226; 0x756aa39c; 0x026d930a;
    0x9c0906a9; 0xeb0e363f; 0x72076785; 0x05005713;
    0x95bf4a82; 0xe2b87a14; 0x7bb12bae; 0x0cb61b38;
    0x92d28e9b; 0xe5d5be0d; 0x7cdcefb7; 0x0bdbdf21;
    0x86d3d2d4; 0xf1d4e242; 0x68ddb3f8; 0x1fda836e;
    0x81be16cd; 0xf6b9265b; 0x6fb077e1; 0x18b74777;
    0x88085ae6; 0xff0f6a70; 0x66063bca; 0x11010b5c;
    0x8f659eff; 0xf862ae69; 0x616bffd3; 0x166ccf45;
    0xa00ae278; 0xd70dd2ee; 0x4e048354; 0x3903b3c2;
    0xa7672661; 0xd06016f7; 0x4969474d; 0x3e6e77db;
    0xaed16a4a; 0xd9d65adc; 0x40df0b66; 0x37d83bf0;
    0xa9bcae53; 0xdebb9ec5; 0x47b2cf7f; 0x30b5ffe9;
    0xbdbdf21c; 0xcabac28a; 0x53b39330; 0x24b4a3a6;
    0xbad03605; 0xcdd70693; 0x54de5729; 0x23d967bf;
    0xb3667a2e; 0xc4614ab8; 0x5d681b02; 0x2a6f2b94;
    0xb40bbe37; 0xc30c8ea1; 0x5a05df1b; 0x2d02ef8d ].

(** [crc = crc_32_tab[(crc ^ *bin_data++) & 0xff] ^ (crc >> 8)] *)
Definition crc_byte (c : Z) (b : Byte.byte) : Z :=
  Z.lxor (nth (Z.to_nat (Z.land (Z.lxor c (byte_val b)) 0xff)) crc_32_tab 0)
         (Z.shiftr c 8).

Definition crc_update (c : Z) (data : bytes) : Z := fold_left crc_byte data c.

(** [(int)] of an [unsigned int]: two's complement reading. *)
Definition to_signed32 (x : Z) : Z := if x <? 2 ^ 31 then x else x - 2 ^ 32.

(** [binascii.crc32(data, value)] in Python 2.7. *)
Definition binascii_crc32 (data : bytes) (value : Z) : Z :=
  let crc := Z.lxor (value mod 2 ^ 32) MASK32 in
  to_signed32 (Z.lxor (crc_update crc data) MASK32).

(** ** The table is the bitwise reference *)

(** Each of the 256 entries is eight bitwise steps on its
    index. *)
Lemma crc_32_tab_spec (n : nat) :
  (n < 256)%nat -> nth n crc_32_tab 0 = Nat.iter 8 crc_bit (Z.of_nat n).
Proof.
  assert (Hall : forallb (fun n => Z.eqb (nth n crc_32_tab 0) (Nat.iter 8 crc_bit (Z.of_nat n)))
                         (seq 0 256) = true) by (vm_compute; reflexivity).
  intros Hn. rewrite forallb_forall in Hall.
  apply Z.eqb_eq, Hall, in_seq. lia.
Qed.

Lemma crc_32_tab_range (n : nat) : 0 <= nth n crc_32_tab 0 < 2 ^ 32.
Proof.
  assert (Hall : forallb (fun x => (0 <=? x) && (x <? 2 ^ 32)) crc_32_tab = true)
    by (vm_compute; reflexivity).
  rewrite forallb_forall in Hall.
  destruct (decide (n < length crc_32_tab)%nat) as [Hn|Hn].
  - specialize (Hall _ (nth_In _ 0 Hn)). apply andb_prop in Hall as [H1 H2]. lia.
  - rewrite nth_overflow by lia. lia.
Qed.

(** ** Linearity of the bitwise step over xor *)

Lemma crc_bit_lxor x y : crc_bit (Z.lxor x y) = Z.lxor (crc_bit x) (crc_bit y).
Proof.
  unfold crc_bit. rewrite Z.lxor_spec.
  destruct (Z.testbit x 0), (Z.testbit y 0); cbn [xorb];
    apply Z.bits_inj'; intros i Hi;
    rewrite ?Z.lxor_spec, ?Z.shiftr_spec, ?Z.lxor_spec by lia; bits_by_cases.
Qed.

Lemma iter_crc_bit_lxor k x y :
  Nat.iter k crc_bit (Z.lxor x y) = Z.lxor (Nat.iter k crc_bit x) (Nat.iter k crc_bit y).
Proof. induction k as [|k IH]; simpl; [done|]. by rewrite IH, crc_bit_lxor. Qed.

(** A register whose low [k] bits are clear just shifts for [k] steps. *)
Lemma iter_crc_bit_shiftl k y : Nat.iter k crc_bit (Z.shiftl y (Z.of_nat k)) = y.
Proof.
  induction k as [|k IH]; [by rewrite Z.shiftl_0_r|].
  rewrite Nat.iter_succ_r. unfold crc_bit at 2.
  rewrite Z.shiftl_spec_low by lia.
  rewrite Z.shiftr_shiftl_l by lia.
  replace (Z.of_nat (S k) - 1) with (Z.of_nat k) by lia. apply IH.
Qed.

Lemma testbit_byte_high b i : 8 <= i -> Z.testbit (byte_val b) i = false.
Proof. intros. apply (testbit_small_high _ 8); [apply byte_val_range|lia]. Qed.

(** [c ^ b] splits into the table index and the part that shifts out. *)
Lemma lxor_byte_split c b :
  Z.lxor c (byte_val b) =
  Z.lxor (Z.land (Z.lxor c (byte_val b)) 0xff) (Z.shiftl (Z.shiftr c 8) (Z.of_nat 8)).
Proof.
  change 0xff with (Z.ones 8). apply Z.bits_inj'. intros i Hi.
  rewrite !Z.lxor_spec, Z.land_spec, Z.lxor_spec.
  destruct (Z.lt_ge_cases i 8).
  - rewrite Z.ones_spec_low, Z.shiftl_spec_low by lia. bits_by_cases.
  - rewrite Z.ones_spec_high, Z.shiftl_spec_high, Z.shiftr_spec, testbit_byte_high by lia.
    replace (i - Z.of_nat 8 + 8) with i by lia. bits_by_cases.
Qed.

(** The table-driven byte step of [binascii.c] is the bitwise one. *)
Lemma crc_byte_is_ref c b : crc_byte c b = crc_byte_ref c b.
Proof.
  unfold crc_byte, crc_byte_ref. symmetry.
  rewrite lxor_byte_split at 1. rewrite iter_crc_bit_lxor, iter_crc_bit_shiftl.
  f_equal. rewrite crc_32_tab_spec.
  - f_equal. symmetry. apply Z2Nat.id. apply Z.land_nonneg. lia.
  - change 0xff with (Z.ones 8). rewrite Z.land_ones by lia.
    pose proof (Z.mod_pos_bound (Z.lxor c (byte_val b)) (2 ^ 8)). lia.
Qed.

Lemma crc_update_is_ref c data : crc_update c data = fold_left crc_byte_ref data c.
Proof.
  unfold crc_update. revert c. induction data as [|b data IH]; intros c; simpl; [done|].
  by rewrite crc_byte_is_ref, IH.
Qed.

(** C4: [binascii.crc32] with its 256-entry table computes, on any data
    and seed, the bitwise CRC-32: complemented seed, eight shifts of the
    reflected polynomial per byte, complemented result. *)
Theorem binascii_crc32_bitwise data v :
  binascii_crc32 data v =
  to_signed32 (Z.lxor (fold_left crc_byte_ref data (Z.lxor (v mod 2 ^ 32) MASK32)) MASK32).
Proof. unfold binascii_crc32. by rewrite crc_update_is_ref. Qed.

(** ** 32-bit bounds *)

Lemma crc_byte_range c b : 0 <= c < 2 ^ 32 -> 0 <= crc_byte c b < 2 ^ 32.
Proof.
  intros Hc. unfold crc_byte. apply lxor_range; [lia|apply crc_32_tab_range|].
  rewrite Z.shiftr_div_pow2 by lia. split; [apply Z.div_pos; lia|].
  apply Z.div_lt_upper_bound; lia.
Qed.

Lemma crc_update_range c data : 0 <= c < 2 ^ 32 -> 0 <= crc_update c data < 2 ^ 32.
Proof.
  unfold crc_update. revert c. induction data as [|b data IH]; intros c Hc; [done|].
  apply IH, crc_byte_range, Hc.
Qed.

Lemma crc_update_app c a b : crc_update c (a ++ b) = crc_update (crc_update c a) b.
Proof. apply fold_left_app. Qed.

Lemma to_signed32_mask x : 0 <= x < 2 ^ 32 -> Z.land (to_signed32 x) MASK32 = x.
Proof.
  intros Hx. rewrite land_mask32. unfold to_signed32.
  destruct (Z.ltb_spec x (2 ^ 31)).
  - by apply Z.mod_small.
  - replace (x - 2 ^ 32) with (x + (-1) * 2 ^ 32) by lia.
    rewrite Z_mod_plus_full. by apply Z.mod_small.
Qed.

Lemma mask32_range : 0 <= MASK32 < 2 ^ 32.
Proof. unfold MASK32. lia. Qed.

Lemma seed_range v : 0 <= Z.lxor (v mod 2 ^ 32) MASK32 < 2 ^ 32.
Proof. apply lxor_range; [lia| |apply mask32_range]. apply Z.mod_pos_bound. lia. Qed.

Lemma masked_result data v :
  Z.land (binascii_crc32 data v) MASK32 =
  Z.lxor (crc_update (Z.lxor (v mod 2 ^ 32) MASK32) data) MASK32.
Proof.
  unfold binascii_crc32. apply to_signed32_mask, lxor_range;
    [lia|apply crc_update_range, seed_range|apply mask32_range].
Qed.

(** Masking the signed result of Python 2 with [0xffffffff] gives the
    unsigned CRC, the complemented register, in [0 .. 2^32). *)
Theorem binascii_crc32_masked data v :
  Z.land (binascii_crc32 data v) MASK32 =
  Z.lxor (crc_update (Z.lxor (v mod 2 ^ 32) MASK32) data) MASK32
  /\ 0 <= Z.land (binascii_crc32 data v) MASK32 < 2 ^ 32.
Proof. split; [apply masked_result|apply land_mask32_range]. Qed.

(** The result is a signed 32-bit [int], as Python 2.6 and later
    return it. *)
Theorem binascii_crc32_range data v : - 2 ^ 31 <= binascii_crc32 data v < 2 ^ 31.
Proof.
  unfold binascii_crc32, to_signed32.
  pose proof (lxor_range (crc_update (Z.lxor (v mod 2 ^ 32) MASK32) data) MASK32 32).
  pose proof (crc_update_range _ data (seed_range v)). pose proof mask32_range.
  destruct (Z.ltb_spec (Z.lxor (crc_update (Z.lxor (v mod 2 ^ 32) MASK32) data) MASK32) (2 ^ 31));
    lia.
Qed.

Lemma lxor_mask32_involutive u : Z.lxor (Z.lxor u MASK32) MASK32 = u.
Proof. by rewrite Z.lxor_assoc, Z.lxor_nilpotent, Z.lxor_0_r. Qed.

(** [binascii.crc32] satisfies the interface the packager needs. *)
#[export] Instance binascii_crc32_lib : Crc32Lib binascii_crc32.
Proof.
  constructor. intros a b v. rewrite !masked_result.
  set (u := crc_update (Z.lxor (v mod 2 ^ 32) MASK32) a).
  assert (Hu : 0 <= u < 2 ^ 32) by apply crc_update_range, seed_range.
  rewrite (Z.mod_small (Z.lxor u MASK32)) by (apply lxor_range; [lia|done|apply mask32_range]).
  by rewrite lxor_mask32_involutive, crc_update_app.
Qed.

(** ** The byte step is a bijection of the register

    The top bytes of the 256 table entries are pairwise distinct, so the
    top byte of [crc_byte c b] names the table index, which gives back
    the low byte of [c] (and [b]), while the rest of the entry gives back
    [c >> 8].  Hence one byte step, and every [crc_update], is injective
    in the register and in the byte: a single corrupted byte always
    changes the checksum. *)

Definition crc_index (c : Z) (b : Byte.byte) : Z := Z.land (Z.lxor c (byte_val b)) 0xff.

Lemma crc_32_tab_top_nodup : NoDup (map (fun x => Z.shiftr x 24) crc_32_tab).
Proof. apply (bool_decide_unpack _). vm_compute. reflexivity. Qed.

Lemma crc_32_tab_top_inj (i j : nat) :
  (i < 256)%nat -> (j < 256)%nat ->
  Z.shiftr (nth i crc_32_tab 0) 24 = Z.shiftr (nth j crc_32_tab 0) 24 -> i = j.
Proof.
  intros Hi Hj E.
  destruct (lookup_lt_is_Some_2 crc_32_tab i) as [x Hx]; [done|].
  destruct (lookup_lt_is_Some_2 crc_32_tab j) as [y Hy]; [done|].
  rewrite (nth_lookup_Some _ _ _ _ Hx), (nth_lookup_Some _ _ _ _ Hy) in E.
  apply (NoDup_lookup _ i j (Z.shiftr x 24) crc_32_tab_top_nodup);
    rewrite list_lookup_fmap; [rewrite Hx|rewrite Hy, E]; done.
Qed.

Lemma crc_index_range c b : 0 <= crc_index c b < 256.
Proof.
  unfold crc_index. change 0xff with (Z.ones 8). rewrite Z.land_ones by lia.
  apply Z.mod_pos_bound. lia.
Qed.

(** The top byte of a step is the top byte of its table entry. *)
Lemma crc_byte_top c b :
  0 <= c < 2 ^ 32 ->
  Z.shiftr (crc_byte c b) 24 = Z.shiftr (nth (Z.to_nat (crc_index c b)) crc_32_tab 0) 24.
Proof.
  intros Hc. unfold crc_byte, crc_index. rewrite Z.shiftr_lxor, Z.shiftr_shiftr by lia.
  rewrite (Z.shiftr_div_pow2 c), Z.div_small, Z.lxor_0_r by lia. reflexivity.
Qed.

Lemma crc_byte_same_index c1 c2 b1 b2 :
  0 <= c1 < 2 ^ 32 -> 0 <= c2 < 2 ^ 32 -> crc_byte c1 b1 = crc_byte c2 b2 ->
  crc_index c1 b1 = crc_index c2 b2 /\ Z.shiftr c1 8 = Z.shiftr c2 8.
Proof.
  intros H1 H2 E.
  assert (Ei : crc_index c1 b1 = crc_index c2 b2).
  { pose proof (crc_index_range c1 b1). pose proof (crc_index_range c2 b2).
    apply Z2Nat.inj; [lia|lia|]. apply crc_32_tab_top_inj; [lia|lia|].
    by rewrite <- !crc_byte_top, E. }
  split; [done|]. unfold crc_byte in E. fold (crc_index c1 b1) (crc_index c2 b2) in E.
  rewrite Ei in E. by apply lxor_cancel_l in E.
Qed.

Lemma crc_index_low c b : Z.land c 0xff = Z.lxor (crc_index c b) (byte_val b).
Proof.
  unfold crc_index. change 0xff with (Z.ones 8). apply Z.bits_inj'. intros i Hi.
  rewrite Z.lxor_spec, !Z.land_spec, Z.lxor_spec.
  destruct (Z.lt_ge_cases i 8).
  - rewrite Z.ones_spec_low by lia. bits_by_cases.
  - rewrite Z.ones_spec_high, testbit_byte_high by lia. bits_by_cases.
Qed.

Lemma crc_byte_inj_l c1 c2 b :
  0 <= c1 < 2 ^ 32 -> 0 <= c2 < 2 ^ 32 -> crc_byte c1 b = crc_byte c2 b -> c1 = c2.
Proof.
  intros H1 H2 E. destruct (crc_byte_same_index c1 c2 b b H1 H2 E) as [Ei Eh].
  apply low_high_ext; [done|]. by rewrite !(crc_index_low _ b), Ei.
Qed.

Lemma crc_byte_inj_r c b1 b2 : 0 <= c < 2 ^ 32 -> crc_byte c b1 = crc_byte c b2 -> b1 = b2.
Proof.
  intros Hc E. destruct (crc_byte_same_index c c b1 b2 Hc Hc E) as [Ei _].
  pose proof (crc_index_low c b1) as L1. rewrite (crc_index_low c b2), Ei in L1.
  apply lxor_cancel_l in L1. by rewrite <- (byte_of_Z_val b1), <- (byte_of_Z_val b2), L1.
Qed.

Lemma crc_update_inj c1 c2 data :
  0 <= c1 < 2 ^ 32 -> 0 <= c2 < 2 ^ 32 -> crc_update c1 data = crc_update c2 data -> c1 = c2.
Proof.
  revert c1 c2. induction data as [|b data IH]; intros c1 c2 H1 H2 E; [done|].
  apply (crc_byte_inj_l _ _ b H1 H2), IH; [by apply crc_byte_range..|done].
Qed.

Lemma crc_update_single_byte c u v a b :
  0 <= c < 2 ^ 32 -> a <> b -> crc_update c (u ++ a :: v) <> crc_update c (u ++ b :: v).
Proof.
  intros Hc Hab E. rewrite !crc_update_app in E.
  pose proof (crc_update_range c u Hc) as Hu.
  apply (crc_update_inj (crc_byte _ a) (crc_byte _ b) v) in E; [|by apply crc_byte_range..].
  by apply crc_byte_inj_r in E.
Qed.

(** The masked checksum of two messages that differ in one byte
    differ, whatever the seed. *)
Lemma binascii_crc32_single_byte s u v a b :
  a <> b ->
  Z.land (binascii_crc32 (u ++ a :: v) s) MASK32 <> Z.land (binascii_crc32 (u ++ b :: v) s) MASK32.
Proof.
  intros Hab E. rewrite !masked_result in E.
  apply lxor_cancel_r in E. by apply (crc_update_single_byte _ u v a b (seed_range s)).
Qed.

(** The standard CRC-32 check value ([0xCBF43926] for "123456789"),
    returned as Python 2 returns it, negative. *)
Example binascii_crc32_check :
  binascii_crc32 (bytes_of_string "123456789") 0 = -873187034
  /\ Z.land (binascii_crc32 (bytes_of_string "123456789") 0) MASK32 = 0xCBF43926.
Proof. split; vm_compute; reflexivity. Qed.

End Crc32.
