(* ===== verification/CrcPoly.v ===== *)
(** * CRC-32 as a polynomial remainder over GF(2)

    The spec defines the packager's checksum as the CRC-32 of the IEEE
    802.3 polynomial.  Its mathematical definition: read the message as
    a polynomial over GF(2), the first byte's least significant bit the
    highest coefficient (bytes are sent least significant bit first);
    the CRC register, bit-reversed, is the remainder of
    [init * x^(8n) + M(x) * x^32] modulo the generator
    [G(x) = x^32 + x^26 + x^23 + ... + x + 1], and [binascii.crc32]
    returns its complement.

    A polynomial is a non-negative [Z], bit [i] the coefficient of
    [x^i]; addition is [Z.lxor] and multiplication by [x^k] is
    [Z.shiftl].  [gmul] is the set of multiples of [G], [is_rem a r] says
    that [r] is a remainder of [a] (degree below 32, [a - r] a multiple),
    and [pmod] is long division.  The theorems show that [pmod] computes
    a remainder, that remainders are unique, and that the CRC register
    of [Crc32] is the remainder of the message polynomial: the
    table-driven [binascii.crc32] refines the polynomial definition.
    Last, [x] is invertible modulo [G], so a change of a message confined
    to 4 consecutive bytes (a burst of at most 32 bits) always changes
    the checksum. *)

From stdpp Require Import base list strings.
From Stdlib Require Import ZArith Lia Btauto.
From S2P Require Import Prelude Crc32.

Local Open Scope Z_scope.

Module Poly.

(** The generator of IEEE 802.3, [x^32] included. *)
Definition G : Z := 0x104C11DB7.

(** One step of long division: cancel the coefficient of
    [x^(32+k)] with [G * x^k]. *)
Definition red_step (k : nat) (a : Z) : Z :=
  if Z.testbit a (32 + Z.of_nat k) then Z.lxor a (Z.shiftl G (Z.of_nat k)) else a.

(** Long division from degree [32 + n - 1] down to 32. *)
Fixpoint pmod_aux (n : nat) (a : Z) : Z :=
  match n with O => a | S n => pmod_aux n (red_step n a) end.

Definition pmod (a : Z) : Z := pmod_aux (Z.to_nat (Z.log2 a)) a.

(** The multiples of [G]: sums of [G * x^k]. *)
Inductive gmul : Z -> Prop :=
  | gmul_0 : gmul 0
  | gmul_add a k : gmul a -> gmul (Z.lxor a (Z.shiftl G (Z.of_nat k))).

Definition is_rem (a r : Z) : Prop := 0 <= r < 2 ^ 32 /\ gmul (Z.lxor a r).

(** The [w] low bits of [x] in the opposite order. *)
Fixpoint rev_bits (w : nat) (x : Z) : Z :=
  match w with
  | O => 0
  | S w => Z.lxor (if Z.testbit x 0 then 2 ^ Z.of_nat w else 0) (rev_bits w (Z.shiftr x 1))
  end.

Definition rev32 (x : Z) : Z := rev_bits 32 x.
Definition rev8 (b : Byte.byte) : Z := rev_bits 8 (byte_val b).

(** The message polynomial: each byte reversed, the first byte highest. *)
Fixpoint msg_poly (data : bytes) : Z :=
  match data with
  | [] => 0
  | b :: d => Z.lxor (Z.shiftl (rev8 b) (8 * Z.of_nat (length d))) (msg_poly d)
  end.

(** The polynomial whose remainder is the CRC register of
    [binascii.crc32(data, v)]: the initial register [~v] (all ones for
    [v = 0]), reversed, at [x^(8n)], plus the message at [x^32]. *)
Definition crc_input (data : bytes) (v : Z) : Z :=
  Z.lxor (Z.shiftl (rev32 (Z.lxor (v mod 2 ^ 32) MASK32)) (8 * Z.of_nat (length data)))
         (Z.shiftl (msg_poly data) 32).

(** ** Long division *)

(** Close an equation between sums (xors) of the same terms. *)
Ltac xor_eq := apply Z.bits_inj'; intros ? _; rewrite ?Z.lxor_spec, ?Z.bits_0; btauto.

Lemma G_range : 2 ^ 32 <= G < 2 ^ 33.
Proof. unfold G. lia. Qed.

Lemma testbit_G_32 : Z.testbit G 32 = true.
Proof. reflexivity. Qed.

Lemma testbit_G_high i : 33 <= i -> Z.testbit G i = false.
Proof. intros. apply (testbit_small_high _ 33); [pose proof G_range; lia|lia]. Qed.

(** A step is linear. *)
Lemma red_step_lxor k a b : red_step k (Z.lxor a b) = Z.lxor (red_step k a) (red_step k b).
Proof.
  unfold red_step. rewrite Z.lxor_spec.
  destruct (Z.testbit a _), (Z.testbit b _); cbn [xorb];
    apply Z.bits_inj'; intros i _; rewrite ?Z.lxor_spec; btauto.
Qed.

Lemma pmod_aux_lxor n a b : pmod_aux n (Z.lxor a b) = Z.lxor (pmod_aux n a) (pmod_aux n b).
Proof. revert a b. induction n as [|n IH]; intros a b; [done|]. simpl. by rewrite red_step_lxor, IH. Qed.

Lemma red_step_nonneg k a : 0 <= a -> 0 <= red_step k a.
Proof.
  intros. unfold red_step. destruct (Z.testbit _ _); [|done].
  apply Z.lxor_nonneg. split; intros _; [apply Z.shiftl_nonneg; unfold G|]; lia.
Qed.

(** A step lowers the degree bound by one. *)
Lemma red_step_range k a :
  0 <= a < 2 ^ (32 + Z.of_nat (S k)) -> 0 <= red_step k a < 2 ^ (32 + Z.of_nat k).
Proof.
  intros Ha. split; [apply red_step_nonneg; lia|].
  apply lt_pow2_of_bits; [lia|apply red_step_nonneg; lia|]. intros m Hm.
  pose proof G_range.
  assert (Hhi : forall j, 32 + Z.of_nat (S k) <= j -> Z.testbit a j = false)
    by (intros; apply (testbit_small_high _ (32 + Z.of_nat (S k))); lia).
  unfold red_step. destruct (Z.eq_dec m (32 + Z.of_nat k)) as [->|Hne].
  - destruct (Z.testbit a _) eqn:E; [|done].
    rewrite Z.lxor_spec, Z.shiftl_spec, E by lia.
    by replace (32 + Z.of_nat k - Z.of_nat k) with 32 by lia.
  - destruct (Z.testbit a _); [|apply Hhi; lia].
    rewrite Z.lxor_spec, Z.shiftl_spec, (Hhi m), testbit_G_high by lia. done.
Qed.

Lemma pmod_aux_range n a : 0 <= a < 2 ^ (32 + Z.of_nat n) -> 0 <= pmod_aux n a < 2 ^ 32.
Proof.
  revert a. induction n as [|n IH]; intros a Ha; simpl; [lia|].
  apply IH, red_step_range, Ha.
Qed.

(** A step at a degree the polynomial does not reach does nothing. *)
Lemma red_step_low k a : 0 <= a < 2 ^ (32 + Z.of_nat k) -> red_step k a = a.
Proof.
  intros Ha. unfold red_step. by rewrite (testbit_small_high _ (32 + Z.of_nat k)) by lia.
Qed.

(** More fuel than the degree needs changes nothing. *)
Lemma pmod_aux_fuel n k a :
  0 <= a < 2 ^ (32 + Z.of_nat n) -> pmod_aux (k + n) a = pmod_aux n a.
Proof.
  intros Ha. induction k as [|k IH]; [done|]. simpl.
  rewrite red_step_low; [done|]. split; [lia|].
  apply (Z.lt_le_trans _ _ _ (proj2 Ha)). apply Z.pow_le_mono_r; lia.
Qed.

Lemma pmod_aux_small n a : 0 <= a < 2 ^ 32 -> pmod_aux n a = a.
Proof.
  intros Ha. rewrite <- (Nat.add_0_r n). rewrite pmod_aux_fuel; [done|]. simpl. lia.
Qed.

Lemma log2_fuel a : 0 <= a -> a < 2 ^ (32 + Z.of_nat (Z.to_nat (Z.log2 a))).
Proof.
  intros Ha. destruct (Z.eq_dec a 0) as [->|Hne]; [simpl; lia|].
  pose proof (Z.log2_spec a ltac:(lia)) as [_ H]. rewrite Z2Nat.id by apply Z.log2_nonneg.
  apply (Z.lt_le_trans _ _ _ H). apply Z.pow_le_mono_r; lia.
Qed.

(** [pmod] is long division with any sufficient fuel. *)
Lemma pmod_fuel n a : 0 <= a < 2 ^ (32 + Z.of_nat n) -> pmod a = pmod_aux n a.
Proof.
  intros Ha. unfold pmod. set (m := Z.to_nat (Z.log2 a)).
  destruct (Nat.le_ge_cases m n) as [Hle|Hle].
  - replace n with ((n - m) + m)%nat by lia. symmetry. apply pmod_aux_fuel.
    split; [lia|]. unfold m. apply log2_fuel; lia.
  - replace m with ((m - n) + n)%nat by lia. by apply pmod_aux_fuel.
Qed.

(** ** Multiples of [G] *)

Lemma gmul_lxor a b : gmul a -> gmul b -> gmul (Z.lxor a b).
Proof.
  intros Ha Hb. induction Hb as [|b k _ IH]; [by rewrite Z.lxor_0_r|].
  rewrite <- Z.lxor_assoc. by apply gmul_add.
Qed.

Lemma gmul_G k : gmul (Z.shiftl G (Z.of_nat k)).
Proof. rewrite <- (Z.lxor_0_l (Z.shiftl _ _)). apply gmul_add, gmul_0. Qed.

Lemma gmul_shiftl a : gmul a -> gmul (Z.shiftl a 1).
Proof.
  induction 1 as [|a k _ IH]; [apply gmul_0|].
  rewrite Z.shiftl_lxor, Z.shiftl_shiftl by lia.
  replace (Z.of_nat k + 1) with (Z.of_nat (S k)) by lia. by apply gmul_add.
Qed.

Lemma gmul_red_step k a : gmul (Z.lxor a (red_step k a)).
Proof.
  unfold red_step. destruct (Z.testbit _ _).
  - rewrite <- Z.lxor_assoc, Z.lxor_nilpotent, Z.lxor_0_l. apply gmul_G.
  - rewrite Z.lxor_nilpotent. apply gmul_0.
Qed.

Lemma gmul_pmod_aux n a : gmul (Z.lxor a (pmod_aux n a)).
Proof.
  revert a. induction n as [|n IH]; intros a; simpl.
  - rewrite Z.lxor_nilpotent. apply gmul_0.
  - replace (Z.lxor a (pmod_aux n (red_step n a)))
      with (Z.lxor (Z.lxor a (red_step n a)) (Z.lxor (red_step n a) (pmod_aux n (red_step n a))))
      by xor_eq.
    apply gmul_lxor; [apply gmul_red_step|apply IH].
Qed.

Lemma pmod_aux_G n k : (k < n)%nat -> pmod_aux n (Z.shiftl G (Z.of_nat k)) = 0.
Proof.
  intros Hk. pose proof G_range.
  assert (Hr : 0 <= Z.shiftl G (Z.of_nat k) < 2 ^ (32 + Z.of_nat (S k))).
  { rewrite Z.shiftl_mul_pow2 by lia. split; [lia|].
    replace (32 + Z.of_nat (S k)) with (33 + Z.of_nat k) by lia.
    rewrite Z.pow_add_r by lia. nia. }
  replace n with ((n - S k) + S k)%nat by lia. rewrite pmod_aux_fuel by done.
  simpl. unfold red_step. rewrite Z.shiftl_spec by lia.
  replace (32 + Z.of_nat k - Z.of_nat k) with 32 by lia.
  rewrite testbit_G_32, Z.lxor_nilpotent. apply pmod_aux_small. lia.
Qed.

(** Long division with enough fuel sends every multiple of [G] to 0. *)
Lemma gmul_pmod_aux_0 x : gmul x -> exists n0, 0 <= x /\ forall n, (n0 <= n)%nat -> pmod_aux n x = 0.
Proof.
  induction 1 as [|a k _ (n0 & Ha & IH)].
  - exists 0%nat. split; [lia|]. intros n _. apply pmod_aux_small. lia.
  - exists (Nat.max n0 (S k)). split.
    + apply Z.lxor_nonneg. split; intros _; [apply Z.shiftl_nonneg; unfold G|]; lia.
    + intros n Hn. rewrite pmod_aux_lxor, IH, pmod_aux_G by lia. done.
Qed.

(** ** Remainders *)

(** A multiple of [G] of degree below 32 is 0. *)
Lemma gmul_small x : gmul x -> x < 2 ^ 32 -> x = 0.
Proof.
  intros Hx Hs. destruct (gmul_pmod_aux_0 x Hx) as (n0 & Hn & H0).
  rewrite <- (H0 n0 (le_n _)). symmetry. apply pmod_aux_small. lia.
Qed.

Lemma is_rem_unique a r1 r2 : is_rem a r1 -> is_rem a r2 -> r1 = r2.
Proof.
  intros [R1 G1] [R2 G2].
  assert (Hx : gmul (Z.lxor r1 r2)).
  { replace (Z.lxor r1 r2) with (Z.lxor (Z.lxor a r1) (Z.lxor a r2)) by xor_eq.
    by apply gmul_lxor. }
  apply Z.lxor_eq, gmul_small; [done|]. apply (lxor_range _ _ 32); lia.
Qed.

Lemma pmod_is_rem a : 0 <= a -> is_rem a (pmod a).
Proof.
  intros Ha. unfold pmod. split; [apply pmod_aux_range; split; [done|by apply log2_fuel]|].
  apply gmul_pmod_aux.
Qed.

Lemma is_rem_small a : 0 <= a < 2 ^ 32 -> is_rem a a.
Proof. intros. split; [done|]. rewrite Z.lxor_nilpotent. apply gmul_0. Qed.

Lemma is_rem_lxor a b r s : is_rem a r -> is_rem b s -> is_rem (Z.lxor a b) (Z.lxor r s).
Proof.
  intros [Hr Ga] [Hs Gb]. split; [apply (lxor_range _ _ 32); lia|].
  replace (Z.lxor (Z.lxor a b) (Z.lxor r s)) with (Z.lxor (Z.lxor a r) (Z.lxor b s));
    [by apply gmul_lxor|xor_eq].
Qed.

(** Multiplying by [x] and reducing once keeps a remainder. *)
Lemma is_rem_shift1 a r : is_rem a r -> is_rem (Z.shiftl a 1) (red_step 0 (Z.shiftl r 1)).
Proof.
  intros [Hr Ga]. split.
  - apply red_step_range. rewrite Z.shiftl_mul_pow2 by lia. simpl. lia.
  - replace (Z.lxor (Z.shiftl a 1) (red_step 0 (Z.shiftl r 1)))
      with (Z.lxor (Z.shiftl (Z.lxor a r) 1) (Z.lxor (Z.shiftl r 1) (red_step 0 (Z.shiftl r 1)))).
    + apply gmul_lxor; [by apply gmul_shiftl|apply gmul_red_step].
    + rewrite Z.shiftl_lxor. xor_eq.
Qed.

(** ** Bit reversal *)

Lemma rev_bits_spec w x i :
  0 <= i -> Z.testbit (rev_bits w x) i = (i <? Z.of_nat w) && Z.testbit x (Z.of_nat w - 1 - i).
Proof.
  revert x. induction w as [|w IH]; intros x Hi; cbn [rev_bits].
  - rewrite Z.bits_0. change (Z.of_nat 0) with 0. destruct (Z.ltb_spec i 0); [lia|done].
  - rewrite Z.lxor_spec, IH by done.
    assert (Hp : Z.testbit (if Z.testbit x 0 then 2 ^ Z.of_nat w else 0) i
                 = Z.testbit x 0 && (i =? Z.of_nat w)).
    { destruct (Z.testbit x 0); [|apply Z.bits_0].
      rewrite Z.pow2_bits_eqb by lia. apply Z.eqb_sym. }
    rewrite Hp. destruct (Z.ltb_spec i (Z.of_nat w)).
    + rewrite (proj2 (Z.eqb_neq i (Z.of_nat w))) by lia.
      rewrite (proj2 (Z.ltb_lt i (Z.of_nat (S w)))) by lia. rewrite Z.shiftr_spec by lia.
      rewrite andb_false_r. cbn [xorb andb]. f_equal. lia.
    + rewrite andb_false_l, xorb_false_r.
      destruct (Z.eq_dec i (Z.of_nat w)) as [->|Hne].
      * rewrite Z.eqb_refl, (proj2 (Z.ltb_lt (Z.of_nat w) (Z.of_nat (S w)))) by lia. rewrite andb_true_r. cbn [andb]. f_equal. lia.
      * rewrite (proj2 (Z.eqb_neq i (Z.of_nat w))), (proj2 (Z.ltb_ge i (Z.of_nat (S w)))) by lia. apply andb_false_r.
Qed.

Lemma rev_bits_range w x : 0 <= rev_bits w x < 2 ^ Z.of_nat w.
Proof.
  assert (Hn : 0 <= rev_bits w x).
  { revert x. induction w as [|w IH]; intros x; cbn [rev_bits]; [lia|].
    apply Z.lxor_nonneg. split; intros _; [apply IH|destruct (Z.testbit x 0); [apply Z.pow_nonneg|]; lia]. }
  split; [done|]. apply lt_pow2_of_bits; [lia|done|]. intros m Hm.
  rewrite rev_bits_spec by lia. by rewrite (proj2 (Z.ltb_ge m _)) by lia.
Qed.

Lemma rev_bits_involutive w x : 0 <= x < 2 ^ Z.of_nat w -> rev_bits w (rev_bits w x) = x.
Proof.
  intros Hx. apply Z.bits_inj'. intros i Hi. rewrite rev_bits_spec by done.
  destruct (Z.ltb_spec i (Z.of_nat w)); simpl.
  - rewrite rev_bits_spec, (proj2 (Z.ltb_lt _ _)) by lia. simpl. f_equal. lia.
  - symmetry. apply (testbit_small_high _ (Z.of_nat w)); lia.
Qed.

Lemma rev_bits_lxor w x y : rev_bits w (Z.lxor x y) = Z.lxor (rev_bits w x) (rev_bits w y).
Proof.
  apply Z.bits_inj'. intros i Hi. rewrite Z.lxor_spec, !rev_bits_spec, Z.lxor_spec by done. btauto.
Qed.

(** A byte, reversed on 32 bits, is the reversed byte at the top. *)
Lemma rev32_byte b : rev32 (byte_val b) = Z.shiftl (rev8 b) 24.
Proof.
  unfold rev32, rev8. apply Z.bits_inj'. intros i Hi. rewrite rev_bits_spec by done.
  destruct (Z.ltb_spec i 24).
  - rewrite Z.shiftl_spec_low, Crc32.testbit_byte_high by lia. apply andb_false_r.
  - rewrite Z.shiftl_spec, rev_bits_spec by lia. f_equal; [|f_equal; lia].
    apply eq_iff_eq_true. rewrite !Z.ltb_lt. lia.
Qed.

(** ** The CRC register is a remainder *)

(** [Crc32.POLY] is [G] without [x^32], bit-reversed. *)
Lemma POLY_rev : Crc32.POLY = rev32 (Z.land G MASK32).
Proof. vm_compute. reflexivity. Qed.

Lemma testbit_rev32_shift1 r j :
  0 <= j -> Z.testbit (Z.shiftl (rev32 r) 1) j = (1 <=? j) && (j <? 33) && Z.testbit r (32 - j).
Proof.
  intros Hj. destruct (Z.ltb_spec j 1).
  - rewrite Z.shiftl_spec_low, (proj2 (Z.leb_gt 1 j)) by lia. done.
  - rewrite Z.shiftl_spec by lia. unfold rev32.
    rewrite rev_bits_spec, (proj2 (Z.leb_le 1 j)) by lia. cbn [andb].
    f_equal; [|f_equal; lia].
    apply eq_iff_eq_true. rewrite !Z.ltb_lt. lia.
Qed.

(** Replace every comparison of integers that [lia] decides by its value. *)
Ltac cmp_simpl :=
  repeat match goal with
         | |- context [?a <? ?b] =>
             first [rewrite (proj2 (Z.ltb_lt a b)) by lia | rewrite (proj2 (Z.ltb_ge a b)) by lia]
         | |- context [?a <=? ?b] =>
             first [rewrite (proj2 (Z.leb_le a b)) by lia | rewrite (proj2 (Z.leb_gt a b)) by lia]
         end.

Lemma testbit_rev32 x i : 0 <= i -> Z.testbit (rev32 x) i = (i <? 32) && Z.testbit x (31 - i).
Proof. intros. unfold rev32. rewrite rev_bits_spec by done. reflexivity. Qed.

(** One bitwise step of the reflected register multiplies the
    polynomial by [x] and reduces it once. *)
Lemma crc_bit_poly r :
  0 <= r < 2 ^ 32 -> rev32 (Crc32.crc_bit r) = red_step 0 (Z.shiftl (rev32 r) 1).
Proof.
  intros Hr. assert (Hhigh : forall j, 32 <= j -> Z.testbit r j = false)
    by (intros; apply (testbit_small_high _ 32); lia).
  unfold red_step. change (32 + Z.of_nat 0) with 32. change (Z.of_nat 0) with 0.
  rewrite Z.shiftl_0_r, testbit_rev32_shift1 by lia.
  change ((1 <=? 32) && (32 <? 33) && Z.testbit r (32 - 32)) with (Z.testbit r 0).
  unfold Crc32.crc_bit. apply Z.bits_inj'. intros i Hi. rewrite testbit_rev32 by done.
  destruct (Z.testbit r 0) eqn:R0; rewrite ?Z.lxor_spec, testbit_rev32_shift1 by done;
    destruct (Z.ltb_spec i 32).
  - rewrite Z.shiftr_spec, POLY_rev, testbit_rev32, Z.land_spec by lia.
    change MASK32 with (Z.ones 32). rewrite Z.testbit_ones_nonneg by lia.
    replace (31 - i + 1) with (32 - i) by lia. replace (31 - (31 - i)) with i by lia.
    destruct (Z.eq_dec i 0) as [->|Hne]; [rewrite Hhigh by lia|]; cmp_simpl; btauto.
  - destruct (Z.eq_dec i 32) as [->|Hne]; cmp_simpl; [rewrite Z.sub_diag, R0, testbit_G_32; btauto|].
    rewrite testbit_G_high by lia. btauto.
  - rewrite Z.shiftr_spec by lia. replace (31 - i + 1) with (32 - i) by lia.
    destruct (Z.eq_dec i 0) as [->|Hne]; [rewrite Hhigh by lia|]; cmp_simpl; btauto.
  - destruct (Z.eq_dec i 32) as [->|Hne]; cmp_simpl; [rewrite Z.sub_diag, R0|]; btauto.
Qed.

Lemma crc_bit_range r : 0 <= r < 2 ^ 32 -> 0 <= Crc32.crc_bit r < 2 ^ 32.
Proof.
  intros Hr. assert (Hs : 0 <= Z.shiftr r 1 < 2 ^ 32).
  { rewrite Z.shiftr_div_pow2 by lia. split; [apply Z.div_pos; lia|].
    apply Z.div_lt_upper_bound; lia. }
  unfold Crc32.crc_bit. destruct (Z.testbit r 0); [|done].
  apply lxor_range; [lia|done|]. unfold Crc32.POLY. lia.
Qed.

(** [k] bitwise steps multiply by [x^k] and reduce. *)
Lemma is_rem_crc_bits k a r :
  0 <= r < 2 ^ 32 -> is_rem a (rev32 r) ->
  (0 <= Nat.iter k Crc32.crc_bit r < 2 ^ 32) /\
  is_rem (Z.shiftl a (Z.of_nat k)) (rev32 (Nat.iter k Crc32.crc_bit r)).
Proof.
  intros Hr Ha. induction k as [|k [IHr IHa]]; [by rewrite Z.shiftl_0_r|].
  rewrite Nat.iter_succ. split; [by apply crc_bit_range|].
  rewrite crc_bit_poly by done.
  replace (Z.of_nat (S k)) with (Z.of_nat k + 1) by lia. rewrite <- Z.shiftl_shiftl by lia.
  by apply is_rem_shift1.
Qed.

(** A byte step: the byte enters at [x^32], then eight shifts. *)
Lemma is_rem_crc_byte a c b :
  0 <= c < 2 ^ 32 -> is_rem a (rev32 c) ->
  is_rem (Z.lxor (Z.shiftl a 8) (Z.shiftl (rev8 b) 32)) (rev32 (Crc32.crc_byte_ref c b)).
Proof.
  intros Hc Ha. pose proof (byte_val_range b) as Hb. pose proof (rev_bits_range 8 (byte_val b)).
  assert (Hx : 0 <= Z.lxor c (byte_val b) < 2 ^ 32) by (apply lxor_range; lia).
  assert (H1 : is_rem (Z.lxor a (Z.shiftl (rev8 b) 24)) (rev32 (Z.lxor c (byte_val b)))).
  { unfold rev32. rewrite rev_bits_lxor. fold (rev32 c) (rev32 (byte_val b)). rewrite rev32_byte.
    apply is_rem_lxor; [done|]. apply is_rem_small. unfold rev8.
    rewrite Z.shiftl_mul_pow2 by lia. simpl in *. lia. }
  destruct (is_rem_crc_bits 8 _ _ Hx H1) as [_ H2]. unfold Crc32.crc_byte_ref.
  replace (Z.lxor (Z.shiftl a 8) (Z.shiftl (rev8 b) 32))
    with (Z.shiftl (Z.lxor a (Z.shiftl (rev8 b) 24)) (Z.of_nat 8)); [done|].
  by rewrite Z.shiftl_lxor, Z.shiftl_shiftl by lia.
Qed.

(** A whole message. *)
Lemma is_rem_crc_update data a c :
  0 <= c < 2 ^ 32 -> is_rem a (rev32 c) ->
  is_rem (Z.lxor (Z.shiftl a (8 * Z.of_nat (length data))) (Z.shiftl (msg_poly data) 32))
         (rev32 (fold_left Crc32.crc_byte_ref data c)).
Proof.
  revert a c. induction data as [|b d IH]; intros a c Hc Ha; simpl.
  - by rewrite Z.shiftl_0_r, Z.lxor_0_r.
  - assert (Hc' : 0 <= Crc32.crc_byte_ref c b < 2 ^ 32)
      by (rewrite <- Crc32.crc_byte_is_ref; by apply Crc32.crc_byte_range).
    specialize (IH _ _ Hc' (is_rem_crc_byte a c b Hc Ha)).
    replace (Z.lxor (Z.shiftl a (8 * Z.of_nat (S (length d))))
               (Z.shiftl (Z.lxor (Z.shiftl (rev8 b) (8 * Z.of_nat (length d))) (msg_poly d)) 32))
      with (Z.lxor (Z.shiftl (Z.lxor (Z.shiftl a 8) (Z.shiftl (rev8 b) 32)) (8 * Z.of_nat (length d)))
                   (Z.shiftl (msg_poly d) 32)); [done|].
    rewrite !Z.shiftl_lxor, !Z.shiftl_shiftl by lia.
    replace (8 + 8 * Z.of_nat (length d)) with (8 * Z.of_nat (S (length d))) by lia.
    replace (32 + 8 * Z.of_nat (length d)) with (8 * Z.of_nat (length d) + 32) by lia.
    xor_eq.
Qed.

(** ** [binascii.crc32] refines the polynomial definition *)

Lemma crc_register_rem data v :
  is_rem (crc_input data v) (rev32 (Crc32.crc_update (Z.lxor (v mod 2 ^ 32) MASK32) data)).
Proof.
  rewrite Crc32.crc_update_is_ref. apply is_rem_crc_update; [apply Crc32.seed_range|].
  apply is_rem_small, (rev_bits_range 32).
Qed.

Lemma masked_crc_rev32 data v :
  Z.land (Crc32.binascii_crc32 data v) MASK32 =
  Z.lxor (rev32 (rev32 (Crc32.crc_update (Z.lxor (v mod 2 ^ 32) MASK32) data))) MASK32.
Proof.
  rewrite Crc32.masked_result. unfold rev32. rewrite rev_bits_involutive; [done|].
  apply Crc32.crc_update_range, Crc32.seed_range.
Qed.

(** C18: for any data and seed, the checksum the packager keeps,
    [binascii.crc32(data, v) & 0xffffffff], is the complement of the
    reversed remainder of [init * x^(8n) + M(x) * x^32] ([crc_input])
    modulo the IEEE 802.3 generator, [init] the reversed complemented
    seed (all ones for the seed 0) and [M] the message polynomial: the
    remainder exists, and whichever remainder is taken (there is one)
    gives the checksum. *)
Theorem binascii_crc32_poly data v :
  (exists r, is_rem (crc_input data v) r) /\
  forall r, is_rem (crc_input data v) r ->
    Z.land (Crc32.binascii_crc32 data v) MASK32 = Z.lxor (rev32 r) MASK32.
Proof.
  pose proof (crc_register_rem data v) as H.
  split; [by eexists|]. intros r Hr. by rewrite <- (is_rem_unique _ _ _ H Hr), masked_crc_rev32.
Qed.

(** The polynomial definition alone, computed by long division, gives
    the standard check value of CRC-32 on "123456789". *)
Example pmod_check_value :
  Z.lxor (rev32 (pmod (Z.lxor (Z.shiftl MASK32 72) (Z.shiftl (msg_poly (bytes_of_string "123456789"%string)) 32))))
         MASK32 = 0xCBF43926.
Proof. vm_compute. reflexivity. Qed.

(** ** Burst errors

    [x] is invertible modulo [G] (its constant coefficient is 1), and a
    nonzero polynomial of degree below 32 is no multiple of [G]: two
    messages of one length that differ only within 4 consecutive bytes
    have different checksums. *)

Lemma testbit_G_0 : Z.testbit G 0 = true.
Proof. reflexivity. Qed.

(** Cancelling a factor [x]. *)
Lemma gmul_unshift1 a : 0 <= a -> gmul (Z.shiftl a 1) -> gmul a.
Proof.
  intros Ha H. pose proof (pmod_is_rem a Ha) as Hr.
  assert (H0 : is_rem (Z.shiftl a 1) 0) by (split; [lia|by rewrite Z.lxor_0_r]).
  pose proof (is_rem_unique _ _ _ (is_rem_shift1 _ _ Hr) H0) as E.
  assert (Ez : pmod a = 0).
  { unfold red_step in E. destruct (Z.testbit _ _).
    - apply Z.lxor_eq in E. change (Z.of_nat 0) with 0 in E. rewrite Z.shiftl_0_r in E.
      apply (f_equal (fun z => Z.testbit z 0)) in E.
      rewrite Z.shiftl_spec_low, testbit_G_0 in E by lia. discriminate.
    - rewrite Z.shiftl_mul_pow2 in E by lia. lia. }
  destruct Hr as [_ Hg]. by rewrite Ez, Z.lxor_0_r in Hg.
Qed.

Lemma gmul_unshift k a : 0 <= a -> gmul (Z.shiftl a (Z.of_nat k)) -> gmul a.
Proof.
  intros Ha. induction k as [|k IH]; [by rewrite Z.shiftl_0_r|]. intros H. apply IH.
  apply gmul_unshift1; [apply Z.shiftl_nonneg; lia|].
  rewrite Z.shiftl_shiftl by lia. by replace (Z.of_nat k + 1) with (Z.of_nat (S k)) by lia.
Qed.

Lemma rev8_range b : 0 <= rev8 b < 2 ^ 8.
Proof. apply (rev_bits_range 8). Qed.

Lemma rev8_inj b1 b2 : rev8 b1 = rev8 b2 -> b1 = b2.
Proof.
  intros E. pose proof (byte_val_range b1). pose proof (byte_val_range b2).
  rewrite <- (byte_of_Z_val b1), <- (byte_of_Z_val b2),
    <- (rev_bits_involutive 8 (byte_val b1)), <- (rev_bits_involutive 8 (byte_val b2)) by (simpl; lia).
  unfold rev8 in E. by rewrite E.
Qed.

Lemma msg_poly_range data : 0 <= msg_poly data < 2 ^ (8 * Z.of_nat (length data)).
Proof.
  induction data as [|b d IH]; simpl; [lia|].
  pose proof (rev8_range b).
  replace (8 * Z.of_nat (S (length d))) with (8 + 8 * Z.of_nat (length d)) by lia.
  apply lxor_range; [lia| |split; [lia|]].
  - rewrite Z.shiftl_mul_pow2, Z.pow_add_r by lia. split; [nia|].
    pose proof (Z.pow_pos_nonneg 2 (8 * Z.of_nat (length d))). nia.
  - apply (Z.lt_le_trans _ _ _ (proj2 IH)). apply Z.pow_le_mono_r; lia.
Qed.

Lemma msg_poly_app x y :
  msg_poly (x ++ y) = Z.lxor (Z.shiftl (msg_poly x) (8 * Z.of_nat (length y))) (msg_poly y).
Proof.
  induction x as [|b x IH]; simpl; [by rewrite Z.shiftl_0_l, Z.lxor_0_l|]. rewrite IH, length_app.
  rewrite Z.shiftl_lxor, Z.shiftl_shiftl by lia.
  replace (8 * Z.of_nat (length x + length y)) with (8 * Z.of_nat (length x) + 8 * Z.of_nat (length y))
    by lia.
  xor_eq.
Qed.

(** The message polynomial determines a message of known length. *)
Lemma msg_poly_inj x y : length x = length y -> msg_poly x = msg_poly y -> x = y.
Proof.
  revert y. induction x as [|b x IH]; intros [|c y] Hl E; simpl in *; try done.
  injection Hl as Hl. rewrite Hl in E.
  assert (Hm : forall z, length z = length y -> Z.shiftr (msg_poly z) (8 * Z.of_nat (length y)) = 0).
  { intros z Hz. pose proof (msg_poly_range z) as R. rewrite Hz in R.
    rewrite Z.shiftr_div_pow2, Z.div_small by lia. done. }
  pose proof (f_equal (fun z => Z.shiftr z (8 * Z.of_nat (length y))) E) as Et. cbn beta in Et.
  rewrite !Z.shiftr_lxor, !Z.shiftr_shiftl_l, Z.sub_diag, !Z.shiftl_0_r, (Hm x Hl), (Hm y eq_refl),
    !Z.lxor_0_r in Et by lia.
  apply rev8_inj in Et as ->. rewrite (IH y Hl); [done|]. by apply lxor_cancel_l in E.
Qed.

(** A nonzero change confined to at most 4 bytes changes the checksum. *)
Lemma binascii_crc32_burst s u v e1 e2 :
  length e1 = length e2 -> (length e1 <= 4)%nat -> e1 <> e2 ->
  Z.land (Crc32.binascii_crc32 (u ++ e1 ++ v) s) MASK32 <>
  Z.land (Crc32.binascii_crc32 (u ++ e2 ++ v) s) MASK32.
Proof.
  intros Hl H4 Hne E. rewrite !Crc32.masked_result in E. apply lxor_cancel_r in E.
  pose proof (is_rem_lxor _ _ _ _ (crc_register_rem (u ++ e1 ++ v) s) (crc_register_rem (u ++ e2 ++ v) s))
    as Hr.
  rewrite E, Z.lxor_nilpotent in Hr. destruct Hr as [_ Hg]. rewrite Z.lxor_0_r in Hg.
  set (D := Z.lxor (msg_poly e1) (msg_poly e2)).
  assert (HD : Z.lxor (crc_input (u ++ e1 ++ v) s) (crc_input (u ++ e2 ++ v) s)
               = Z.shiftl D (Z.of_nat (8 * length v + 32))).
  { unfold crc_input, D. rewrite !length_app, Hl, !msg_poly_app, !length_app, Hl.
    rewrite !Z.shiftl_lxor, !Z.shiftl_shiftl by lia.
    replace (Z.of_nat (8 * length v + 32)) with (8 * Z.of_nat (length v) + 32) by lia.
    xor_eq. }
  pose proof (msg_poly_range e1) as R1. pose proof (msg_poly_range e2) as R2. rewrite <- Hl in R2.
  assert (HD0 : 0 <= D < 2 ^ 32).
  { apply (lxor_range _ _ 32); [lia| |]; split; try lia;
      (eapply Z.lt_le_trans; [apply R1 || apply R2|apply Z.pow_le_mono_r; lia]). }
  rewrite HD in Hg. apply gmul_unshift in Hg; [|lia].
  apply gmul_small in Hg; [|lia]. apply Z.lxor_eq, msg_poly_inj in Hg; done.
Qed.

End Poly.
