(* ===== verification/PyFs.v ===== *)
(** * The host filesystem and Python file objects, as the scripts use them

    A [World] is the filesystem (regular files with their bytes, the set
    of directories, the set of paths whose [open] is refused with
    [EACCES]) and the lines printed on standard output.  A file object is
    a [handle]: its path and its position; writes go straight to the
    file's bytes.  The operations are those of Python's [open] in the
    modes [rb], [wb], [r+], [w+], and [write], [seek], [read],
    [readlines], [truncate], [print], and [os.path.dirname], each in the
    monad [PyM World] of the prelude.  Also here: the digits of [str]
    and ["%08x"] with the termination of their loop, and the frame
    rules ([keeps], [frame]) with which the scripts are shown to change
    only the files they mean to. *)

From stdpp Require Import base list strings gmap.
From Stdlib Require Import ZArith Lia.
From S2P Require Import Prelude.

Local Open Scope py_scope.

Record World := mkWorld {
  files : gmap string bytes;
  dirs : gset string;
  denied : gset string;
  stdout : list string
}.

Definition set_files (f : gmap string bytes -> gmap string bytes) (w : World) : World :=
  mkWorld (f (files w)) (dirs w) (denied w) (stdout w).

Definition set_dirs (f : gset string -> gset string) (w : World) : World :=
  mkWorld (files w) (f (dirs w)) (denied w) (stdout w).

Record handle := mkHandle { h_path : string; h_pos : nat }.

(** ** [os.path.dirname] (posixpath)

    [i = p.rfind('/') + 1; head = p[:i]]; trailing slashes are stripped
    from [head] unless it consists of slashes only. *)

(** ['/'] is ASCII 47. *)
Definition is_slash (c : Ascii.ascii) : bool := bool_decide (c = Ascii.ascii_of_nat 47).

Definition dirname (p : string) : string :=
  let cs := String.list_ascii_of_string p in
  let head := rev (drop_while (fun c => negb (is_slash c)) (rev cs)) in
  if forallb is_slash head then String.string_of_list_ascii head
  else String.string_of_list_ascii (rev (drop_while is_slash (rev head))).

(** The directory that must exist for [open(p, 'w')] to create [p]. *)
Definition parent_ok (w : World) (p : string) : bool :=
  let d := dirname p in bool_decide (d = ""%string) || bool_decide (d ∈ dirs w).

(** ** Opening files *)

(** [open(p, 'rb')], [open(p, 'r')] and [open(p, 'r+')]: the file must
    exist; nothing changes. *)
Definition open_existing (p : string) : PyM World handle :=
  fun w =>
    if bool_decide (p ∈ dirs w) then (inl (OSError EISDIR p), w)
    else if bool_decide (p ∈ denied w) then (inl (OSError EACCES p), w)
    else match files w !! p with
         | Some _ => (inr (mkHandle p 0), w)
         | None => (inl (OSError ENOENT p), w)
         end.

(** [open(p, 'wb')] and [open(p, 'w+')]: create or truncate. *)
Definition open_trunc (p : string) : PyM World handle :=
  fun w =>
    if bool_decide (p = ""%string) then (inl (OSError ENOENT p), w)
    else if bool_decide (p ∈ dirs w) then (inl (OSError EISDIR p), w)
    else if bool_decide (dirname p ∈ dom (files w)) then (inl (OSError ENOTDIR p), w)
    else if negb (parent_ok w p) then (inl (OSError ENOENT p), w)
    else if bool_decide (p ∈ denied w) then (inl (OSError EACCES p), w)
    else (inr (mkHandle p 0), set_files (insert p []) w).

(** The condition under which [open_trunc] succeeds. *)
Definition creatable (w : World) (p : string) : Prop :=
  p <> ""%string /\ (p ∉ dirs w) /\ (dirname p ∉ dom (files w)) /\
  parent_ok w p = true /\ (p ∉ denied w).

#[export] Instance creatable_dec w p : Decision (creatable w p).
Proof. unfold creatable. apply _. Defined.

(** ** Reading and writing *)

Definition contents (w : World) (p : string) : bytes := default [] (files w !! p).

(** Writing [d] at position [pos] of [c]: overwrite, and pad with zero
    bytes when the position is past the end. *)
Definition overwrite (c : bytes) (pos : nat) (d : bytes) : bytes :=
  take pos c ++ replicate (pos - length c) Byte.x00 ++ d ++ drop (pos + length d) c.

(** [f.write(d)] *)
Definition write (h : handle) (d : bytes) : PyM World handle :=
  fun w =>
    (inr (mkHandle (h_path h) (h_pos h + length d)),
     set_files (insert (h_path h) (overwrite (contents w (h_path h)) (h_pos h) d)) w).

(** [f.seek(n)] *)
Definition seek (h : handle) (n : nat) : PyM World handle :=
  ret (mkHandle (h_path h) n).

(** [f.read()] *)
Definition read_all (h : handle) : PyM World (bytes * handle) :=
  fun w => let c := contents w (h_path h) in
           (inr (drop (h_pos h) c, mkHandle (h_path h) (length c)), w).

(** [f.readlines()] *)
Definition readlines (h : handle) : PyM World (list bytes * handle) :=
  fun w => let c := contents w (h_path h) in
           (inr (split_lines Byte.x0a (drop (h_pos h) c), mkHandle (h_path h) (length c)), w).

(** [f.truncate(n)]: the position is not moved. *)
Definition truncate (h : handle) (n : nat) : PyM World unit :=
  fun w => let c := contents w (h_path h) in
           (inr tt, set_files (insert (h_path h) (take n c ++ replicate (n - length c) Byte.x00)) w).

(** [print s] *)
Definition print (s : string) : PyM World unit :=
  fun w => (inr tt, mkWorld (files w) (dirs w) (denied w) (stdout w ++ [s])).

(** ** Effects of the operations *)

Lemma open_existing_ok w p c :
  p ∉ dirs w -> p ∉ denied w -> files w !! p = Some c ->
  open_existing p w = (inr (mkHandle p 0), w).
Proof.
  intros Hd Hp Hc. unfold open_existing.
  rewrite !bool_decide_eq_false_2 by done. by rewrite Hc.
Qed.

Lemma open_existing_missing w p :
  files w !! p = None -> open_existing p w = (inl (OSError ENOENT p), w) \/
                         open_existing p w = (inl (OSError EISDIR p), w) \/
                         open_existing p w = (inl (OSError EACCES p), w).
Proof.
  intros Hc. unfold open_existing. rewrite Hc.
  case_bool_decide; [tauto|]. case_bool_decide; tauto.
Qed.

Lemma open_trunc_ok w p :
  creatable w p -> open_trunc p w = (inr (mkHandle p 0), set_files (insert p []) w).
Proof.
  intros (He & Hd & Hf & Hp & Hn). unfold open_trunc.
  rewrite !bool_decide_eq_false_2 by done. by rewrite Hp.
Qed.

(** [open_trunc] either succeeds as above or fails and changes nothing. *)
Lemma open_trunc_fail w p :
  ~ creatable w p -> exists e, open_trunc p w = (inl (OSError e p), w).
Proof.
  intros Hc. unfold open_trunc.
  case_bool_decide; [by eexists|]. case_bool_decide; [by eexists|]. case_bool_decide; [by eexists|].
  destruct (parent_ok w p) eqn:E; simpl; [|by eexists].
  case_bool_decide; [by eexists|]. exfalso. by apply Hc.
Qed.

Lemma overwrite_at_end c d : overwrite c (length c) d = c ++ d.
Proof.
  unfold overwrite. rewrite firstn_all, Nat.sub_diag, drop_ge by lia.
  by rewrite app_nil_r.
Qed.

Lemma overwrite_inside c pos d :
  pos + length d <= length c ->
  overwrite c pos d = take pos c ++ d ++ drop (pos + length d) c.
Proof. intros H. unfold overwrite. by replace (pos - length c) with 0 by lia. Qed.

Lemma contents_set_files_insert w p q c :
  contents (set_files (insert p c) w) q = if decide (p = q) then c else contents w q.
Proof.
  unfold contents, set_files; simpl. case_decide as E.
  - subst. by rewrite lookup_insert_eq.
  - by rewrite lookup_insert_ne.
Qed.

#[export] Hint Rewrite overwrite_at_end contents_set_files_insert : pyrw.

Lemma set_files_insert_insert w p a b :
  set_files (insert p a) (set_files (insert p b) w) = set_files (insert p a) w.
Proof. unfold set_files; simpl. by rewrite insert_insert_eq. Qed.

#[export] Hint Rewrite set_files_insert_insert : pyrw.

(** ** Formatting for [print]: [%d] and [%08x]

    [digits base n] writes [n >= 0] in [base]; [log2 n + 1] rounds are
    enough for any base of at least 2. *)

Definition digit_char (d : Z) : Ascii.ascii :=
  Ascii.ascii_of_nat (Z.to_nat (if (d <? 10)%Z then 48 + d else 87 + d)).

Fixpoint digits_aux (fuel : nat) (base n : Z) (acc : list Ascii.ascii) : list Ascii.ascii :=
  match fuel with
  | O => acc
  | S f =>
      let acc' := digit_char (n mod base) :: acc in
      if (n <? base)%Z then acc' else digits_aux f base (n / base) acc'
  end.

Definition digits (base n : Z) : list Ascii.ascii :=
  digits_aux (S (Z.to_nat (Z.log2 n))) base n [].

(** [str(n)] / [%d] *)
Definition str_d (n : Z) : string :=
  if (n <? 0)%Z then String.String (Ascii.ascii_of_nat 45) (String.string_of_list_ascii (digits 10 (- n)))
  else String.string_of_list_ascii (digits 10 n).

(** [%08x] of a non-negative number: lower-case hexadecimal, zero-padded
    to eight digits. *)
Definition str_08x (n : Z) : string :=
  let ds := digits 16 n in
  String.string_of_list_ascii (replicate (8 - length ds) (Ascii.ascii_of_nat 48) ++ ds).

Example str_d_str_08x : str_d 1234 = "1234"%string /\ str_08x 0x6780fa98 = "6780fa98"%string
                        /\ str_08x 10 = "0000000a"%string /\ str_d 0 = "0"%string.
Proof. repeat split; reflexivity. Qed.

Lemma set_files_insert_id w p c :
  files w !! p = Some c -> set_files (insert p c) w = w.
Proof. intros H. destruct w; unfold set_files; simpl in *. by rewrite insert_id. Qed.

Lemma contents_lookup w p c : files w !! p = Some c -> contents w p = c.
Proof. unfold contents. by intros ->. Qed.

(** Writing at the end of a file appends; writing inside overwrites. *)
Lemma write_at_end w p c d pos :
  files w !! p = Some c -> pos = length c ->
  write (mkHandle p pos) d w = (inr (mkHandle p (pos + length d)), set_files (insert p (c ++ d)) w).
Proof. intros H ->. unfold write; simpl. by rewrite (contents_lookup w p c H), overwrite_at_end. Qed.

Lemma write_inside w p c d pos :
  files w !! p = Some c -> pos + length d <= length c ->
  write (mkHandle p pos) d w =
  (inr (mkHandle p (pos + length d)), set_files (insert p (take pos c ++ d ++ drop (pos + length d) c)) w).
Proof. intros H Hl. unfold write; simpl. by rewrite (contents_lookup w p c H), overwrite_inside. Qed.

Lemma print_ok s w :
  print s w = (inr tt, mkWorld (files w) (dirs w) (denied w) (stdout w ++ [s])).
Proof. reflexivity. Qed.

Lemma lookup_set_files_insert w p c : files (set_files (insert p c) w) !! p = Some c.
Proof. apply lookup_insert_eq. Qed.

#[export] Hint Resolve lookup_set_files_insert : py.

(** The file just written is found with the contents just written. *)
Ltac solve_lookup := cbn [files set_files]; by rewrite lookup_insert_eq.

(** A creatable path is not its own parent. *)
Lemma creatable_dirname_ne w p : creatable w p -> dirname p <> p.
Proof.
  intros (He & Hd & Hf & Hp & Hn) E. unfold parent_ok in Hp. rewrite E in Hp.
  apply orb_true_iff in Hp as [Hp|Hp]; apply bool_decide_eq_true in Hp; done.
Qed.

(** Creating [p] again after it was written is still possible. *)
Lemma creatable_set_files w p q c :
  creatable w p -> dirname p <> q -> creatable (set_files (insert q c) w) p.
Proof.
  intros (He & Hd & Hf & Hp & Hn) Hq. repeat split; try done.
  cbn [files set_files]. rewrite dom_insert_L. set_solver.
Qed.

(** ** The digit loop terminates within its fuel

    [int(s, base)] reads the digits back, most significant first; the
    digit loop of [digits] needs at most [log2 n + 1] rounds, so more
    fuel changes nothing and the digits spell [n]. *)
Definition digit_value (c : Ascii.ascii) : Z :=
  let v := Z.of_nat (Ascii.nat_of_ascii c) in if (v <? 58)%Z then (v - 48)%Z else (v - 87)%Z.

Definition digits_value (base : Z) (ds : list Ascii.ascii) : Z :=
  fold_left (fun acc c => acc * base + digit_value c)%Z ds 0%Z.

Lemma digit_value_char d : (0 <= d < 16)%Z -> digit_value (digit_char d) = d.
Proof.
  intros Hd. assert (Hc : forallb (fun d => bool_decide (digit_value (digit_char d) = d)) (seqZ 0 16) = true)
    by (vm_compute; reflexivity).
  rewrite forallb_forall in Hc. apply (bool_decide_eq_true_1 _), Hc, list_elem_of_In, elem_of_seqZ. lia.
Qed.

Lemma fold_left_value base ds a :
  fold_left (fun acc c => acc * base + digit_value c)%Z ds a =
  (a * base ^ Z.of_nat (length ds) + digits_value base ds)%Z.
Proof.
  unfold digits_value. revert a. induction ds as [|c ds IH]; intros a; simpl; [lia|].
  rewrite (IH (a * base + _)%Z), (IH (0 * base + _)%Z), Nat2Z.inj_succ, Z.pow_succ_r by lia. lia.
Qed.

Lemma digits_value_cons base c ds :
  digits_value base (c :: ds) = (digit_value c * base ^ Z.of_nat (length ds) + digits_value base ds)%Z.
Proof. unfold digits_value at 1. simpl. rewrite fold_left_value. lia. Qed.

Lemma digits_aux_S f base n acc :
  digits_aux (S f) base n acc =
  if (n <? base)%Z then digit_char (n mod base) :: acc
  else digits_aux f base (n / base) (digit_char (n mod base) :: acc).
Proof. reflexivity. Qed.

Lemma digits_aux_spec base f n acc :
  (2 <= base <= 16)%Z -> (0 <= n < base ^ Z.of_nat (S f))%Z ->
  (forall k, digits_aux (S f + k) base n acc = digits_aux (S f) base n acc) /\
  digits_value base (digits_aux (S f) base n acc) =
    (n * base ^ Z.of_nat (length acc) + digits_value base acc)%Z.
Proof.
  intros Hb. revert n acc. induction f as [|f IH]; intros n acc Hn.
  - rewrite Z.pow_1_r in Hn. split.
    + intros k. change (S 0 + k) with (S k). rewrite (digits_aux_S k), (digits_aux_S 0).
      destruct (Z.ltb_spec n base); [done|lia].
    + rewrite (digits_aux_S 0). destruct (Z.ltb_spec n base); [|lia].
      rewrite digits_value_cons, Z.mod_small, digit_value_char by lia. lia.
  - assert (Hq : (base <= n -> 0 <= n / base < base ^ Z.of_nat (S f))%Z).
    { intros Hge. split; [apply Z.div_pos; lia|]. apply Z.div_lt_upper_bound; [lia|].
      rewrite <- Z.pow_succ_r, <- Nat2Z.inj_succ by lia. lia. }
    split.
    + intros k. change (S (S f) + k) with (S (S f + k)).
      rewrite (digits_aux_S (S f + k)), (digits_aux_S (S f)).
      destruct (Z.ltb_spec n base) as [Hlt|Hge]; [done|].
      apply (IH (n / base)%Z (digit_char (n mod base) :: acc) (Hq Hge)).
    + rewrite (digits_aux_S (S f)). destruct (Z.ltb_spec n base) as [Hlt|Hge].
      * rewrite digits_value_cons, Z.mod_small, digit_value_char by lia. lia.
      * rewrite (proj2 (IH (n / base)%Z (digit_char (n mod base) :: acc) (Hq Hge))).
        rewrite digits_value_cons, digit_value_char by (pose proof (Z.mod_pos_bound n base); lia). simpl.
        rewrite Nat2Z.inj_succ, Z.pow_succ_r by lia.
        pose proof (Z.div_mod n base). nia.
Qed.

Lemma lt_pow_log2 base n : (2 <= base)%Z -> (0 <= n)%Z -> (n < base ^ Z.of_nat (S (Z.to_nat (Z.log2 n))))%Z.
Proof.
  intros Hb Hn. rewrite Nat2Z.inj_succ, Z2Nat.id by apply Z.log2_nonneg.
  apply Z.lt_le_trans with (2 ^ Z.succ (Z.log2 n))%Z.
  - destruct (Z.eq_dec n 0) as [->|]; [simpl; lia|]. apply Z.log2_spec. lia.
  - apply Z.pow_le_mono_l. pose proof (Z.log2_nonneg n). lia.
Qed.

(** C31: the digit loop of [str(n)] and ["%08x"] terminates within its
    fuel of [log2 n + 1] rounds: any more fuel gives the same digits,
    and the digits read back in [base] as [n]. *)
Theorem digits_terminates base n k :
  (2 <= base <= 16)%Z -> (0 <= n)%Z ->
  digits_aux (S (Z.to_nat (Z.log2 n)) + k) base n [] = digits base n /\
  digits_value base (digits base n) = n.
Proof.
  intros Hb Hn. destruct (digits_aux_spec base (Z.to_nat (Z.log2 n)) n [] Hb) as [Hk Hv].
  { split; [done|]. apply lt_pow_log2; lia. }
  split; [apply Hk|]. unfold digits. rewrite Hv. change (Z.of_nat (length [])) with 0%Z.
  rewrite Z.pow_0_r. unfold digits_value. simpl. lia.
Qed.

(** Witness of [digits_terminates]. *)
Lemma digits_terminates_witness :
  digits_aux (S (Z.to_nat (Z.log2 1234)) + 5) 10 1234 [] = digits 10 1234 /\
  digits_value 10 (digits 10 1234) = 1234%Z.
Proof. apply digits_terminates; lia. Defined.

(** ** Frames: which files a program may change

    [keeps P w w'] says that going from [w] to [w'] changed neither the
    directories nor the refused paths, nor any file whose path satisfies
    [P].  [frame P Q m] says that [m] keeps [P] from every world and that
    every value it returns satisfies [Q]: a small Hoare logic on
    [PyM World], with one rule per statement form. *)
Definition keeps (P : string -> Prop) (w w' : World) : Prop :=
  dirs w' = dirs w /\ denied w' = denied w /\ forall p, P p -> files w' !! p = files w !! p.

Definition frame {A} (P : string -> Prop) (Q : A -> Prop) (m : PyM World A) : Prop :=
  forall w, keeps P w (snd (m w)) /\ forall a, fst (m w) = inr a -> Q a.

Section Frames.
Context (P : string -> Prop).

Lemma keeps_refl w : keeps P w w.
Proof. done. Qed.

Lemma keeps_trans w1 w2 w3 : keeps P w1 w2 -> keeps P w2 w3 -> keeps P w1 w3.
Proof.
  intros (D1 & N1 & F1) (D2 & N2 & F2). split; [congruence|split; [congruence|]].
  intros p Hp. by rewrite F2, F1.
Qed.

Lemma frame_ret {A} (Q : A -> Prop) a : Q a -> frame P Q (ret a).
Proof. intros Ha w. split; [done|]. by intros ? [= <-]. Qed.

Lemma frame_raise {A} (Q : A -> Prop) e : frame P Q (raise e).
Proof. intros w. split; [done|]. by intros ? ?. Qed.

Lemma frame_bind {A B} (Q : A -> Prop) (R : B -> Prop) m k :
  frame P Q m -> (forall a, Q a -> frame P R (k a)) -> frame P R (bind m k).
Proof.
  intros Hm Hk w. destruct (Hm w) as [K1 Q1]. unfold bind.
  destruct (m w) as [[e|a] w1]; simpl in *; [done|].
  destruct (Hk a (Q1 a eq_refl) w1) as [K2 Q2]. split; [by eapply keeps_trans|done].
Qed.

Lemma frame_weaken {A} (Q Q' : A -> Prop) m :
  (forall a, Q a -> Q' a) -> frame P Q m -> frame P Q' m.
Proof. intros HQ Hm w. destruct (Hm w) as [K H]. split; [done|]. eauto. Qed.

Lemma frame_if {A} (Q : A -> Prop) (b : bool) m1 m2 :
  frame P Q m1 -> frame P Q m2 -> frame P Q (if b then m1 else m2).
Proof. by destruct b. Qed.

Lemma frame_py_for {A B} (I : A -> Prop) (body : A -> B -> PyM World A) l a :
  (forall a x, I a -> frame P I (body a x)) -> I a -> frame P I (py_for body l a).
Proof.
  intros Hb. revert a. induction l as [|x l IH]; intros a Ha; simpl.
  - by apply frame_ret.
  - eapply frame_bind; [by apply Hb|]. intros a' Ha'. by apply IH.
Qed.

Lemma frame_get_bind {A} (Q : A -> Prop) (k : World -> PyM World A) :
  (forall w0, frame P Q (k w0)) -> frame P Q (bind get_st k).
Proof. intros Hk w. apply (Hk w). Qed.

Lemma frame_try_except {A} (Q : A -> Prop) m handler :
  frame P Q m -> (forall e h, handler e = Some h -> frame P Q h) -> frame P Q (try_except m handler).
Proof.
  intros Hm Hh w. destruct (Hm w) as [K1 Q1]. unfold try_except.
  destruct (m w) as [[e|a] w1]; simpl in *; [|done].
  destruct (handler e) as [h|] eqn:He; [|done].
  destruct (Hh e h He w1) as [K2 Q2]. split; [by eapply keeps_trans|done].
Qed.

Lemma frame_py_index {A} (l : list A) i : frame P (fun x => l !! i = Some x) (py_index l i).
Proof. unfold py_index. destruct (l !! i) eqn:E; [by apply frame_ret|apply frame_raise]. Qed.

(** Statements that change no file. *)
Lemma frame_read_only {A} (m : PyM World A) :
  (forall w, files (snd (m w)) = files w /\ dirs (snd (m w)) = dirs w /\ denied (snd (m w)) = denied w) ->
  frame P (fun _ => True) m.
Proof.
  intros Hm w. destruct (Hm w) as (F & D & N). split; [|done].
  split; [done|split; [done|]]. intros p _. by rewrite F.
Qed.

Lemma frame_open_existing p : frame P (fun h => h_path h = p) (open_existing p).
Proof.
  intros w. unfold open_existing. split.
  - by repeat (case_bool_decide || case_match).
  - intros h. by repeat (case_bool_decide || case_match); intros [= <-].
Qed.

Lemma frame_readlines h : frame P (fun _ => True) (readlines h).
Proof. apply frame_read_only. done. Qed.

Lemma frame_read_all h : frame P (fun r => h_path r.2 = h_path h) (read_all h).
Proof. intros w. split; [done|]. by intros ? [= <-]. Qed.

Lemma frame_print s : frame P (fun _ => True) (print s).
Proof. apply frame_read_only. done. Qed.

(** Statements that change the file of their handle only. *)
Lemma frame_open_trunc p : ~ P p -> frame P (fun h => h_path h = p) (open_trunc p).
Proof.
  intros Hp w. unfold open_trunc. split.
  - repeat (case_bool_decide || case_match); try done.
    split; [done|split; [done|]]. intros q Hq. simpl.
    rewrite lookup_insert_ne; [done|]. by intros ->.
  - intros h. by repeat (case_bool_decide || case_match); intros [= <-].
Qed.

Lemma frame_write h d : ~ P (h_path h) -> frame P (fun h' => h_path h' = h_path h) (write h d).
Proof.
  intros Hp w. split; [|by intros ? [= <-]].
  split; [done|split; [done|]]. intros q Hq. simpl.
  rewrite lookup_insert_ne; [done|]. by intros <-.
Qed.

Lemma frame_seek h n : frame P (fun h' => h_path h' = h_path h) (seek h n).
Proof. by apply frame_ret. Qed.

Lemma frame_truncate h n : ~ P (h_path h) -> frame P (fun _ => True) (truncate h n).
Proof.
  intros Hp w. split; [|done].
  split; [done|split; [done|]]. intros q Hq. simpl.
  rewrite lookup_insert_ne; [done|]. by intros <-.
Qed.
End Frames.

Create HintDb frame discriminated.
#[export] Hint Resolve frame_ret frame_raise frame_py_index frame_read_only frame_open_existing
  frame_readlines frame_read_all frame_print frame_seek : frame.

(** Run the frame rules through a program that returns nothing of
    interest: [bind] splits, [if] splits, the statements close. *)
Ltac frame_step :=
  match goal with
  | |- frame _ _ (bind _ _) => eapply (frame_bind _ (fun _ => True)); [|intros ? _]
  | |- frame _ _ (if _ then _ else _) => apply frame_if
  | |- frame _ _ (ret _) => by apply frame_ret
  | |- frame _ _ (raise _) => apply frame_raise
  | |- frame _ _ (py_index _ _) => eapply frame_weaken; [|apply frame_py_index]; done
  | |- frame _ _ (print _) => apply frame_print
  end.
