(* ===== verification/FirmwareHeader.v ===== *)
(** * The firmware image packager, [src/create-firmware-header.py]

    [Struct] models [struct.pack('<I', v)] (lines 28-29): four
    little-endian bytes, or [struct.error] outside [0 .. 2^32).
    [Image] is the bootloader's view of the output format of the spec
    (section 6): the header fields and the payload of an image.
    Section [Packager] translates the script statement by statement into
    the monad [PyM World], over any [Crc32Lib] implementation of
    [binascii.crc32]; its theorems give the whole outcome of a run on
    every path: success, usage error, the [sys.argv[3]] off-by-one,
    unreadable input, unwritable output, and a payload too large for the
    32-bit size field.  The last part instantiates them at
    [Crc32.binascii_crc32]. *)

From stdpp Require Import base list strings gmap.
From Stdlib Require Import ZArith Lia.
From S2P Require Import Prelude Crc32 CrcPoly PyFs.

Local Open Scope py_scope.

Module Struct.

(** The [n] little-endian bytes of [v mod 2^(8n)]. *)
Fixpoint le_bytes (n : nat) (v : Z) : bytes :=
  match n with
  | O => []
  | S n => byte_of_Z v :: le_bytes n (Z.shiftr v 8)
  end.

(** [struct.pack('<I', v)] *)
Definition pack_I (v : Z) : PyM World bytes :=
  if (0 <=? v)%Z && (v <? 2 ^ 32)%Z then ret (le_bytes 4 v) else raise StructError.

(** [struct.unpack('<I', b)[0]] and its generalisation to any width. *)
Fixpoint le_value (bs : bytes) : Z :=
  match bs with
  | [] => 0%Z
  | b :: r => (byte_val b + 256 * le_value r)%Z
  end.

Lemma length_le_bytes n v : length (le_bytes n v) = n.
Proof. revert v. induction n; intros v; simpl; auto. Qed.

Lemma le_value_le_bytes n v : le_value (le_bytes n v) = (v mod 2 ^ (8 * Z.of_nat n))%Z.
Proof.
  revert v. induction n as [|n IH]; intros v; simpl le_bytes; simpl le_value.
  - by rewrite Z.mod_1_r.
  - rewrite IH, byte_val_of_Z, Z.shiftr_div_pow2 by lia.
    replace (8 * Z.of_nat (S n))%Z with (8 + 8 * Z.of_nat n)%Z by lia.
    rewrite Z.pow_add_r by lia. rewrite Z.rem_mul_r by lia. done.
Qed.

Lemma le_value_range bs : (0 <= le_value bs < 2 ^ (8 * Z.of_nat (length bs)))%Z.
Proof.
  induction bs as [|b bs IH]; simpl; [lia|]. pose proof (byte_val_range b).
  replace (8 * Z.of_nat (S (length bs)))%Z with (8 + 8 * Z.of_nat (length bs))%Z by lia.
  rewrite Z.pow_add_r by lia. lia.
Qed.

Lemma le_bytes_le_value bs : le_bytes (length bs) (le_value bs) = bs.
Proof.
  induction bs as [|b bs IH]; [done|]. simpl.
  pose proof (byte_val_range b).
  replace (byte_val b + 256 * le_value bs)%Z with (le_value bs * 256 + byte_val b)%Z by lia.
  f_equal.
  - transitivity (byte_of_Z (byte_val b)); [|apply byte_of_Z_val].
    unfold byte_of_Z. by rewrite (Z.add_comm (le_value bs * 256)), Z_mod_plus_full.
  - rewrite Z.shiftr_div_pow2, Z.div_add_l, Z.div_small by lia.
    by rewrite Z.add_0_r.
Qed.

Lemma pack_I_ok v w : (0 <= v < 2 ^ 32)%Z -> pack_I v w = (inr (le_bytes 4 v), w).
Proof.
  intros Hv. unfold pack_I.
  destruct (Z.leb_spec 0 v), (Z.ltb_spec v (2 ^ 32)); simpl; [done|lia..].
Qed.

(** C30: [struct.pack('<I', v)] then [struct.unpack('<I', ...)] is the
    identity on [0 .. 2^32), and [pack] fails exactly outside it. *)
Theorem pack_I_roundtrip v w :
  pack_I v w = (if (0 <=? v)%Z && (v <? 2 ^ 32)%Z then inr (le_bytes 4 v) else inl StructError, w)
  /\ ((0 <= v < 2 ^ 32)%Z -> length (le_bytes 4 v) = 4 /\ le_value (le_bytes 4 v) = v).
Proof.
  split; [unfold pack_I; by destruct (_ && _)|].
  intros Hv. rewrite length_le_bytes, le_value_le_bytes. split; [done|].
  apply Z.mod_small. simpl. lia.
Qed.

End Struct.

Module Image.
Import Struct.

(** The header fields and the payload of an image, as a reader of the
    format of the spec (section 6) sees them. *)
Definition parse_image (img : bytes) : option (Z * Z * bytes) :=
  if decide (8 <= length img) then
    Some (le_value (take 4 img), le_value (take 4 (drop 4 img)), drop 8 img)
  else None.

(** The image the packager writes. *)
Definition image (size crc : Z) (payload : bytes) : bytes :=
  le_bytes 4 size ++ le_bytes 4 crc ++ payload.

Lemma parse_image_image size crc payload :
  (0 <= size < 2 ^ 32)%Z -> (0 <= crc < 2 ^ 32)%Z ->
  parse_image (image size crc payload) = Some (size, crc, payload).
Proof.
  intros Hs Hc. unfold parse_image, image.
  rewrite decide_True by (rewrite !length_app, !length_le_bytes; lia).
  rewrite take_app_length' by (by rewrite length_le_bytes).
  rewrite drop_app_length' by (by rewrite length_le_bytes).
  rewrite take_app_length' by (by rewrite length_le_bytes).
  rewrite app_assoc, drop_app_length' by (rewrite length_app, !length_le_bytes; lia).
  rewrite !le_value_le_bytes, !Z.mod_small by (simpl; lia). done.
Qed.

(** C29: an image parses back into its size, its checksum and its payload
    whenever the two fields fit in 32 bits; a shorter file does not
    parse. *)
Theorem parse_image_roundtrip size crc payload img :
  (0 <= size < 2 ^ 32)%Z -> (0 <= crc < 2 ^ 32)%Z ->
  parse_image (image size crc payload) = Some (size, crc, payload)
  /\ (length img < 8 -> parse_image img = None).
Proof.
  intros Hs Hc. split; [by apply parse_image_image|].
  intros Hl. unfold parse_image. by rewrite decide_False by lia.
Qed.

End Image.

Section Packager.
Import Struct Image.

(** [binascii.crc32], through the interface its theorems need. *)
Context (crc32 : bytes -> Z -> Z) `{!Crc32Lib crc32}.

Definition placeholder : bytes := bytes_of_string "0000".

Definition usage_line (prog : string) : string :=
  "Usage: " ++ prog ++ " [firmware] [new_fw]".

Definition size_line (size crc : Z) : string :=
  "size " ++ str_d size ++ " crc " ++ str_08x crc.

Definition created_line (outpath : string) : string :=
  "Firmware file " ++ outpath ++ " created.".

(** Lines 21-24, one iteration: the loop variables are [crc], [size] and
    the file object [outfile]. *)
Definition loop_body (st : Z * Z * handle) (line : bytes) : PyM World (Z * Z * handle) :=
  let '(crc, size, outfile) := st in
  let crc := Z.land (crc32 line crc) MASK32 in
  let size := (size + Z.of_nat (length line))%Z in
  outfile <- write outfile line ;;
  ret (crc, size, outfile).

(** Lines 13-24: open the output, write the placeholder header, then
    every line, folding it into the CRC that the tag seeds (line 20). *)
Definition write_payload (outpath tag : string) (data : list bytes) : PyM World (Z * Z * handle) :=
  outfile <- open_trunc outpath ;;
  outfile <- write outfile placeholder ;;
  outfile <- write outfile placeholder ;;
  let crc := 0%Z in
  let size := 0%Z in
  let crc := Z.land (crc32 (bytes_of_string tag) crc) MASK32 in
  py_for loop_body data (crc, size, outfile).

(** Lines 26-29: seek back, print, overwrite the placeholder. *)
Definition write_header (st : Z * Z * handle) : PyM World unit :=
  let '(crc, size, outfile) := st in
  outfile <- seek outfile 0 ;;
  print (size_line size crc) ;;
  p <- pack_I size ;;
  outfile <- write outfile p ;;
  p <- pack_I crc ;;
  outfile <- write outfile p ;;
  ret tt.

(** The whole script, lines 5-31. *)
Definition create_firmware_header (argv : list string) : PyM World unit :=
  if decide (length argv < 3) then
    prog <- py_index argv 0 ;;
    print (usage_line prog) ;;
    raise (SystemExit 1)
  else
    tag <- py_index argv 3 ;;
    inpath <- py_index argv 1 ;;
    infile <- open_existing inpath ;;
    read <- readlines infile ;;
    outpath <- py_index argv 2 ;;
    st <- write_payload outpath tag (fst read) ;;
    write_header st ;;
    print (created_line outpath).

(** ** The success path *)

(** Lines 21-24 append every line and fold it into the masked CRC. *)
Lemma loop_run lines : forall crc size p w c pos,
  files w !! p = Some c -> pos = length c ->
  py_for loop_body lines (crc, size, mkHandle p pos) w =
  (inr (fold_left (fun c l => Z.land (crc32 l c) MASK32) lines crc,
        (size + Z.of_nat (length (concat lines)))%Z,
        mkHandle p (length (c ++ concat lines))),
   set_files (insert p (c ++ concat lines)) w).
Proof.
  induction lines as [|l lines IH]; intros crc size p w c pos Hc ->; simpl.
  - by rewrite app_nil_r, set_files_insert_id, Z.add_0_r.
  - unfold bind, write. simpl. rewrite (contents_lookup w p c Hc), overwrite_at_end.
    rewrite <- length_app, (IH _ _ _ _ (c ++ l)); [|solve_lookup|done].
    by rewrite set_files_insert_insert, <- !app_assoc, (length_app l), Nat2Z.inj_add, Z.add_assoc.
Qed.

Lemma masked_fold_lines tag data v :
  fold_left (fun c l => Z.land (crc32 l c) MASK32) (split_lines Byte.x0a data)
            (Z.land (crc32 tag v) MASK32) =
  Z.land (crc32 (tag ++ data) v) MASK32.
Proof.
  rewrite <- (concat_split_lines Byte.x0a data) at 2.
  generalize (split_lines Byte.x0a data) as lines. intros lines. revert tag.
  induction lines as [|l lines IH]; intros tag; simpl; [by rewrite app_nil_r|].
  rewrite crc32_masked_app, IH. by rewrite app_assoc.
Qed.

(** C3: the loop of lines 21-24 over [readlines()] of the payload,
      started with the CRC of the tag, ends with the CRC of the tag
      followed by the whole payload, the payload size, and the payload
      appended to the output: reading by lines changes neither the checksum
      nor the bytes, whatever newlines the payload holds. *)
Theorem crc_over_lines tag data v p w c :
    files w !! p = Some c ->
    py_for loop_body (split_lines Byte.x0a data) (Z.land (crc32 tag v) MASK32, 0%Z, mkHandle p (length c)) w =
    (inr (Z.land (crc32 (tag ++ data) v) MASK32, Z.of_nat (length data), mkHandle p (length (c ++ data))),
     set_files (insert p (c ++ data)) w).
Proof.
    intros Hc. rewrite (loop_run _ _ _ _ _ c); [|done|done].
    by rewrite masked_fold_lines, concat_split_lines.
Qed.

(** The checksum the script writes. *)
Definition image_crc (tag : string) (data : bytes) : Z :=
  Z.land (crc32 (bytes_of_string tag ++ data) 0) MASK32.

(** After line 24 the output holds the ASCII placeholder and the payload. *)
Lemma write_payload_ok w outpath tag data :
  creatable w outpath ->
  write_payload outpath tag (split_lines Byte.x0a data) w =
  (inr (image_crc tag data, Z.of_nat (length data), mkHandle outpath (8 + length data)),
   set_files (insert outpath (placeholder ++ placeholder ++ data)) w).
Proof.
  intros Hc. unfold write_payload, image_crc.
  py_step (open_trunc_ok w outpath Hc).
  py_step write_at_end; [|solve_lookup|done].
  py_step write_at_end; [|solve_lookup|done].
  rewrite !set_files_insert_insert.
  rewrite (loop_run _ _ _ _ _ (placeholder ++ placeholder)); [|solve_lookup|done].
  by rewrite masked_fold_lines, concat_split_lines, set_files_insert_insert, <- app_assoc.
Qed.

Lemma write_payload_fail w outpath tag data :
  ~ creatable w outpath -> exists e, write_payload outpath tag data w = (inl (OSError e outpath), w).
Proof.
  intros Hc. destruct (open_trunc_fail w outpath Hc) as [e He].
  exists e. unfold write_payload. by rewrite (bind_inl _ _ _ _ _ He).
Qed.

(** Lines 26-29 when the size fits in 32 bits: the placeholder becomes the
    real header. *)
Lemma write_header_ok w p crc size data :
  (0 <= size < 2 ^ 32)%Z -> (0 <= crc < 2 ^ 32)%Z ->
  files w !! p = Some (placeholder ++ placeholder ++ data) ->
  write_header (crc, size, mkHandle p (8 + length data)) w =
  (inr tt, mkWorld (<[p := image size crc data]> (files w)) (dirs w) (denied w)
                   (stdout w ++ [size_line size crc])).
Proof.
  intros Hs Hcrc Hp. unfold write_header, seek. rewrite bind_ret_l.
  py_step print_ok.
  py_step pack_I_ok; [|done].
  py_step write_inside; [|exact Hp|simpl; lia].
  py_step pack_I_ok; [|done].
  py_step write_inside; [|solve_lookup|simpl; rewrite ?length_app, ?length_le_bytes; simpl; lia].
  unfold set_files, image, placeholder. simpl. by rewrite insert_insert_eq.
Qed.

(** Lines 26-28 when the size does not fit in 32 bits. *)
Lemma write_header_too_large w crc size h :
  (2 ^ 32 <= size)%Z ->
  write_header (crc, size, h) w =
  (inl StructError, mkWorld (files w) (dirs w) (denied w) (stdout w ++ [size_line size crc])).
Proof.
  intros Hs. unfold write_header, seek. rewrite bind_ret_l.
  py_step print_ok. unfold pack_I.
  destruct (Z.ltb_spec size (2 ^ 32)); [lia|]. by rewrite andb_false_r.
Qed.

Lemma run_ok prog inpath outpath tag rest w data :
  files w !! inpath = Some data ->
  inpath ∉ dirs w -> inpath ∉ denied w ->
  creatable w outpath ->
  (Z.of_nat (length data) < 2 ^ 32)%Z ->
  create_firmware_header (prog :: inpath :: outpath :: tag :: rest) w =
    (inr tt, mkWorld (<[outpath := image (Z.of_nat (length data)) (image_crc tag data) data]> (files w))
                     (dirs w) (denied w)
                     (stdout w ++ [size_line (Z.of_nat (length data)) (image_crc tag data);
                                   created_line outpath])).
Proof.
  intros Hin Hd Hp Hc Hsize. unfold create_firmware_header.
  rewrite decide_False by (simpl; lia).
  cbn [py_index lookup list_lookup]. rewrite !bind_ret_l.
  py_step (open_existing_ok w inpath data Hd Hp Hin).
  py_step (eq_refl : readlines (mkHandle inpath 0) w = _).
  cbn [h_path h_pos fst]. rewrite (contents_lookup w inpath data Hin), drop_0, bind_ret_l.
  py_step write_payload_ok; [|done].
  py_step write_header_ok; [|lia|apply land_mask32_range|solve_lookup].
  unfold print, set_files. simpl. by rewrite insert_insert_eq, <- app_assoc.
Qed.

(** C1: on a readable input of fewer than 2^32 bytes and a creatable
    output, the script succeeds; the output file holds the size, the
    CRC of tag ++ payload and the payload; it prints the two lines of
    lines 27 and 31; nothing else changes. *)
Theorem create_firmware_header_ok prog inpath outpath tag rest w data :
  files w !! inpath = Some data ->
  inpath ∉ dirs w -> inpath ∉ denied w ->
  creatable w outpath ->
  (Z.of_nat (length data) < 2 ^ 32)%Z ->
  create_firmware_header (prog :: inpath :: outpath :: tag :: rest) w =
    (inr tt, mkWorld (<[outpath := image (Z.of_nat (length data)) (image_crc tag data) data]> (files w))
                     (dirs w) (denied w)
                     (stdout w ++ [size_line (Z.of_nat (length data)) (image_crc tag data);
                                   created_line outpath])).
Proof. apply run_ok. Qed.

(** C2: a successful run leaves an output that a reader of the format
    parses into the payload length, the CRC32 of the tag followed by the
    payload, and the payload itself, byte for byte. *)
Theorem create_firmware_header_parse prog inpath outpath tag rest w data :
  files w !! inpath = Some data -> inpath ∉ dirs w -> inpath ∉ denied w ->
  creatable w outpath -> (Z.of_nat (length data) < 2 ^ 32)%Z ->
  exists w', create_firmware_header (prog :: inpath :: outpath :: tag :: rest) w = (inr tt, w') /\
    parse_image (contents w' outpath) =
    Some (Z.of_nat (length data), Z.land (crc32 (bytes_of_string tag ++ data) 0) MASK32, data).
Proof.
  intros. eexists. rewrite (run_ok prog inpath outpath tag rest w data) by done.
  split; [done|].
  unfold contents. cbn [files]. rewrite lookup_insert_eq. cbn [default].
  apply parse_image_image; [lia|apply land_mask32_range].
Qed.

(** ** Error paths *)

(** C8: with exactly two arguments the usage check of line 5 passes
    ([len(sys.argv) = 3]) but line 9 reads [sys.argv[3]]: the script
    dies with [IndexError] before touching any file or printing. *)
Theorem create_firmware_header_two_args prog inpath outpath w :
  create_firmware_header [prog; inpath; outpath] w = (inl IndexError, w).
Proof. reflexivity. Qed.

(** C22: with fewer than two arguments the script prints its usage line
    and exits with status 1; no file changes. *)
Theorem create_firmware_header_usage prog args w :
  length args < 2 ->
  create_firmware_header (prog :: args) w =
  (inl (SystemExit 1), mkWorld (files w) (dirs w) (denied w) (stdout w ++ [usage_line prog])).
Proof.
  intros H. unfold create_firmware_header. rewrite decide_True by (simpl; lia). done.
Qed.

(** C20: when the input cannot be opened, the script fails with the
    [IOError] of [open] on the input path, before the output is opened:
    the filesystem, and any existing output file, are left as they were. *)
Theorem create_firmware_header_no_input prog inpath outpath tag rest w :
  files w !! inpath = None ->
  exists e, create_firmware_header (prog :: inpath :: outpath :: tag :: rest) w =
            (inl (OSError e inpath), w).
Proof.
  intros Hin. unfold create_firmware_header. rewrite decide_False by (simpl; lia).
  cbn [py_index lookup list_lookup]. rewrite !bind_ret_l.
  destruct (open_existing_missing w inpath Hin) as [E|[E|E]];
    eexists; by rewrite (bind_inl _ _ _ _ _ E).
Qed.

(** C21: when the output cannot be created, the script fails with the
    [IOError] of [open] on the output path and changes nothing. *)
Theorem create_firmware_header_unwritable prog inpath outpath tag rest w data :
  files w !! inpath = Some data -> inpath ∉ dirs w -> inpath ∉ denied w ->
  ~ creatable w outpath ->
  exists e, create_firmware_header (prog :: inpath :: outpath :: tag :: rest) w =
            (inl (OSError e outpath), w).
Proof.
  intros Hin Hd Hp Hc. unfold create_firmware_header. rewrite decide_False by (simpl; lia).
  cbn [py_index lookup list_lookup]. rewrite !bind_ret_l.
  py_step (open_existing_ok w inpath data Hd Hp Hin).
  py_step (eq_refl : readlines (mkHandle inpath 0) w = _). rewrite bind_ret_l.
  destruct (write_payload_fail w outpath tag (fst (split_lines Byte.x0a (drop 0 (contents w inpath)),
     mkHandle inpath (length (contents w inpath)))) Hc) as [e He].
  exists e. by rewrite (bind_inl _ _ _ _ _ He).
Qed.

(** C19: a payload of 2^32 bytes or more passes the loop but makes
    [struct.pack('<I', size)] raise [struct.error] after line 27 printed
    the size: the output is left with the ASCII placeholder ["00000000"],
    whose fields read 0x30303030, followed by the payload. *)
Theorem create_firmware_header_too_large prog inpath outpath tag rest w data :
  files w !! inpath = Some data -> inpath ∉ dirs w -> inpath ∉ denied w ->
  creatable w outpath ->
  (2 ^ 32 <= Z.of_nat (length data))%Z ->
  create_firmware_header (prog :: inpath :: outpath :: tag :: rest) w =
    (inl StructError,
     mkWorld (<[outpath := placeholder ++ placeholder ++ data]> (files w)) (dirs w) (denied w)
             (stdout w ++ [size_line (Z.of_nat (length data)) (image_crc tag data)]))
  /\ parse_image (placeholder ++ placeholder ++ data) = Some (0x30303030%Z, 0x30303030%Z, data).
Proof.
  intros Hin Hd Hp Hc Hsize. split; [|done].
  unfold create_firmware_header. rewrite decide_False by (simpl; lia).
  cbn [py_index lookup list_lookup]. rewrite !bind_ret_l.
  py_step (open_existing_ok w inpath data Hd Hp Hin).
  py_step (eq_refl : readlines (mkHandle inpath 0) w = _).
  cbn [h_path h_pos fst]. rewrite (contents_lookup w inpath data Hin), drop_0, bind_ret_l.
  py_step write_payload_ok; [|done].
  by rewrite (bind_inl _ _ _ _ _ (write_header_too_large _ _ _ _ Hsize)).
Qed.

(** ** Idempotence and in-place packaging *)

(** C23: re-running the script with the same arguments, on the world it
    produced, rewrites the same output file: the files are unchanged and
    only the two lines are printed again.  (The input must differ from
    the output, or the second run would package the image itself.) *)
Theorem create_firmware_header_idempotent prog inpath outpath tag rest w data :
  files w !! inpath = Some data -> inpath ∉ dirs w -> inpath ∉ denied w ->
  creatable w outpath -> inpath <> outpath ->
  (Z.of_nat (length data) < 2 ^ 32)%Z ->
  let argv := prog :: inpath :: outpath :: tag :: rest in
  let w1 := snd (create_firmware_header argv w) in
  create_firmware_header argv w1 =
    (inr tt, mkWorld (files w1) (dirs w1) (denied w1)
                     (stdout w1 ++ [size_line (Z.of_nat (length data)) (image_crc tag data);
                                    created_line outpath])).
Proof.
  intros Hin Hd Hp Hc Hne Hsize argv w1.
  unfold w1, argv. rewrite (run_ok prog inpath outpath tag rest w data) by done.
  cbn [snd]. rewrite run_ok with (data := data); cbn [files dirs denied].
  - by rewrite insert_insert_eq.
  - by rewrite lookup_insert_ne.
  - done.
  - done.
  - apply (creatable_set_files w outpath outpath _ Hc), (creatable_dirname_ne w), Hc.
  - done.
Qed.

(** ** The files the packager may change *)

Section PackagerFrame.
Context (P : string -> Prop).

(** Writing through a handle whose file is outside [P]. *)
Lemma frame_write_out h d :
  ~ P (h_path h) -> frame P (fun h' => ~ P (h_path h')) (write h d).
Proof. intros Hp. eapply frame_weaken; [|by apply frame_write]. intros h' E. by rewrite E. Qed.

Lemma frame_pack_I v : frame P (fun _ => True) (Struct.pack_I v).
Proof. unfold Struct.pack_I. apply frame_if; [by apply frame_ret|apply frame_raise]. Qed.

Lemma frame_loop_body st line :
  ~ P (h_path st.2) -> frame P (fun st' => ~ P (h_path st'.2)) (loop_body st line).
Proof.
  destruct st as [[crc size] h]. intros Hp. unfold loop_body.
  eapply frame_bind; [by apply frame_write_out|]. intros h' Hh'. by apply frame_ret.
Qed.

Lemma frame_write_payload outpath tag data :
  ~ P outpath -> frame P (fun st => ~ P (h_path st.2)) (write_payload outpath tag data).
Proof.
  intros Hp. unfold write_payload.
  eapply frame_bind; [by apply frame_open_trunc|]. intros h Eh.
  eapply frame_bind; [apply frame_write_out; by rewrite Eh|]. intros h1 H1.
  eapply frame_bind; [by apply frame_write_out|]. intros h2 H2.
  apply frame_py_for; [|done]. intros st x Hst. by apply frame_loop_body.
Qed.

Lemma frame_write_header st : ~ P (h_path st.2) -> frame P (fun _ => True) (write_header st).
Proof.
  destruct st as [[crc size] h]. intros Hp. unfold write_header.
  eapply frame_bind; [apply frame_seek|]. intros h1 E1.
  eapply frame_bind; [apply frame_print|]. intros _ _.
  eapply frame_bind; [apply frame_pack_I|]. intros p _.
  eapply frame_bind; [apply frame_write_out; simpl in *; by rewrite E1|]. intros h2 H2.
  eapply frame_bind; [apply frame_pack_I|]. intros p' _.
  eapply frame_bind; [by apply frame_write_out|]. intros h3 _. by apply frame_ret.
Qed.
End PackagerFrame.

(** C11: whatever the arguments and the filesystem, the packager changes
    no directory and no file other than [sys.argv[2]]: the input, in
    particular, is never written (unless it is the output itself). *)
Theorem create_firmware_header_frame argv w :
  keeps (fun p => argv !! 2 <> Some p) w (snd (create_firmware_header argv w)).
Proof.
  enough (H : frame (fun p => argv !! 2 <> Some p) (fun _ : unit => True) (create_firmware_header argv))
    by apply (H w).
  unfold create_firmware_header. destruct (decide _).
  - eapply frame_bind; [apply frame_py_index|]. intros prog _.
    eapply frame_bind; [apply frame_print|]. intros _ _. apply frame_raise.
  - eapply frame_bind; [apply frame_py_index|]. intros tag _.
    eapply frame_bind; [apply frame_py_index|]. intros inpath _.
    eapply frame_bind; [apply frame_open_existing|]. intros infile _.
    eapply frame_bind; [apply frame_readlines|]. intros r _.
    eapply frame_bind; [apply frame_py_index|]. intros outpath Ho.
    eapply frame_bind; [apply frame_write_payload; rewrite Ho; tauto|]. intros st Hst.
    eapply frame_bind; [by apply frame_write_header|]. intros _ _. apply frame_print.
Qed.

End Packager.

(** ** The script at [binascii.crc32] *)

(** C15: the checksum field detects every change confined to 4
    consecutive bytes of what it covers: two runs whose tag-then-payload
    byte strings differ only within one window of at most 4 bytes write
    different checksums (CRC-32 detects every burst of at most 32 bits).
    This covers the tag sensitivity of the spec (section 8) for tags of
    one length up to 4 bytes, and any corruption of up to 4 consecutive
    payload bytes. *)
Theorem image_crc_burst tag1 tag2 d1 d2 u v e1 e2 :
  bytes_of_string tag1 ++ d1 = u ++ e1 ++ v ->
  bytes_of_string tag2 ++ d2 = u ++ e2 ++ v ->
  length e1 = length e2 -> (length e1 <= 4)%nat -> e1 <> e2 ->
  image_crc Crc32.binascii_crc32 tag1 d1 <> image_crc Crc32.binascii_crc32 tag2 d2.
Proof.
  intros H1 H2 Hl H4 Hne. unfold image_crc. rewrite H1, H2.
  by apply Poly.binascii_crc32_burst.
Qed.

Module Example.
Import Struct Image Crc32.

Definition fw : bytes := [Byte.x01; Byte.x02; Byte.x03; Byte.x04].

Definition world0 : World := mkWorld {["fw.bin" := fw]} ∅ ∅ [].

Definition argv0 : list string := ["create-firmware-header.py"; "fw.bin"; "fw.img"; "v1"].

Lemma world0_creatable : creatable world0 "fw.img".
Proof. apply (bool_decide_unpack _). vm_compute. exact I. Qed.

(** The scenario of the spec (section 8): payload 01 02 03 04, tag "v1";
    the reference CRC 0x6780fa98 is zlib's. *)
Lemma create_firmware_header_ok_witness :
  create_firmware_header Crc32.binascii_crc32 argv0 world0 =
    (inr tt, mkWorld (<["fw.img" := image 4 (image_crc Crc32.binascii_crc32 "v1" fw) fw]> {["fw.bin" := fw]})
                     ∅ ∅ [size_line 4 (image_crc Crc32.binascii_crc32 "v1" fw); created_line "fw.img"])
  /\ image_crc Crc32.binascii_crc32 "v1" fw = 0x6780fa98%Z.
Proof.
  split; [|vm_compute; reflexivity].
  apply (create_firmware_header_ok Crc32.binascii_crc32 _ "fw.bin" "fw.img" "v1" [] world0 fw);
    [reflexivity|set_solver|set_solver|
     exact world0_creatable|vm_compute; reflexivity].
Defined.

(** Tags "ab" and "ba" (a transposition) over the payload of the spec's
    scenario. *)
Lemma image_crc_burst_witness :
  image_crc binascii_crc32 "ab" fw <> image_crc binascii_crc32 "ba" fw.
Proof.
  apply (image_crc_burst "ab" "ba" fw fw [] fw (bytes_of_string "ab") (bytes_of_string "ba"));
    [reflexivity|reflexivity|reflexivity|simpl; lia|discriminate].
Defined.

Definition fw_lines_crc : Z := Z.land (binascii_crc32 (bytes_of_string "v1") 0) MASK32.

Lemma crc_over_lines_witness :
  py_for (loop_body binascii_crc32) (split_lines Byte.x0a fw) (fw_lines_crc, 0%Z, mkHandle "fw.bin" 4) world0 =
  (inr (Z.land (binascii_crc32 (bytes_of_string "v1" ++ fw) 0) MASK32, 4%Z, mkHandle "fw.bin" 8),
   set_files (insert "fw.bin" (fw ++ fw)) world0).
Proof. exact (crc_over_lines binascii_crc32 (bytes_of_string "v1") fw 0 "fw.bin" world0 fw eq_refl). Defined.

Lemma create_firmware_header_parse_witness :
  exists w', create_firmware_header binascii_crc32 argv0 world0 = (inr tt, w') /\
    parse_image (contents w' "fw.img") =
    Some (4%Z, Z.land (binascii_crc32 (bytes_of_string "v1" ++ fw) 0) MASK32, fw).
Proof.
  apply (create_firmware_header_parse binascii_crc32 _ "fw.bin" "fw.img" "v1" [] world0 fw);
    [reflexivity|set_solver|set_solver|exact world0_creatable|vm_compute; reflexivity].
Defined.

Lemma create_firmware_header_two_args_witness :
  create_firmware_header binascii_crc32 ["create-firmware-header.py"; "fw.bin"; "fw.img"] world0 =
  (inl IndexError, world0).
Proof. exact (create_firmware_header_two_args binascii_crc32 _ "fw.bin" "fw.img" world0). Defined.

Lemma create_firmware_header_usage_witness :
  create_firmware_header binascii_crc32 ["create-firmware-header.py"; "fw.bin"] world0 =
  (inl (SystemExit 1), mkWorld (files world0) ∅ ∅ [usage_line "create-firmware-header.py"]).
Proof.
  apply (create_firmware_header_usage binascii_crc32 "create-firmware-header.py" ["fw.bin"] world0).
  simpl. lia.
Defined.

Lemma create_firmware_header_no_input_witness :
  exists e, create_firmware_header binascii_crc32 ["create-firmware-header.py"; "none.bin"; "fw.img"; "v1"] world0 =
            (inl (OSError e "none.bin"), world0).
Proof. apply (create_firmware_header_no_input binascii_crc32). reflexivity. Defined.

Definition world_denied : World := mkWorld {["fw.bin" := fw]} ∅ {["fw.img"]} [].

Lemma create_firmware_header_unwritable_witness :
  exists e, create_firmware_header binascii_crc32 argv0 world_denied = (inl (OSError e "fw.img"), world_denied).
Proof.
  apply (create_firmware_header_unwritable binascii_crc32 _ "fw.bin" "fw.img" "v1" [] world_denied fw);
    [reflexivity|set_solver|set_solver|].
  intros (_ & _ & _ & _ & Hn). apply Hn. cbn [denied world_denied]. set_solver.
Defined.

(** A payload of 2^32 zero bytes (never computed: only its length is). *)
Definition big : bytes := replicate (Z.to_nat (2 ^ 32)) Byte.x00.

Definition world_big : World := mkWorld {["big.bin" := big]} ∅ ∅ [].

Lemma create_firmware_header_too_large_witness :
  create_firmware_header binascii_crc32 ["create-firmware-header.py"; "big.bin"; "fw.img"; "v1"] world_big =
    (inl StructError,
     mkWorld (<["fw.img" := placeholder ++ placeholder ++ big]> (files world_big)) ∅ ∅
             [size_line (Z.of_nat (length big)) (image_crc binascii_crc32 "v1" big)])
  /\ parse_image (placeholder ++ placeholder ++ big) = Some (0x30303030%Z, 0x30303030%Z, big).
Proof.
  apply (create_firmware_header_too_large binascii_crc32 _ "big.bin" "fw.img" "v1" [] world_big big);
    [reflexivity|set_solver|set_solver| |].
  - assert (Hd : dirname "fw.img" = ""%string) by reflexivity.
    repeat split; [discriminate|set_solver| |set_solver].
    cbn [files world_big]. rewrite dom_singleton_L, Hd. set_solver.
  - unfold big. rewrite length_replicate, Z2Nat.id; lia.
Defined.

Lemma create_firmware_header_idempotent_witness :
  let w1 := snd (create_firmware_header binascii_crc32 argv0 world0) in
  create_firmware_header binascii_crc32 argv0 w1 =
    (inr tt, mkWorld (files w1) (dirs w1) (denied w1)
                     (stdout w1 ++ [size_line 4 (image_crc binascii_crc32 "v1" fw); created_line "fw.img"])).
Proof.
  apply (create_firmware_header_idempotent binascii_crc32 _ "fw.bin" "fw.img" "v1" [] world0 fw);
    [reflexivity|set_solver|set_solver|exact world0_creatable|discriminate|vm_compute; reflexivity].
Defined.


Lemma pack_I_roundtrip_witness :
  pack_I 4 world0 = (inr (le_bytes 4 4), world0) /\ length (le_bytes 4 4) = 4 /\ le_value (le_bytes 4 4) = 4%Z.
Proof.
  destruct (pack_I_roundtrip 4 world0) as [H1 H2]. split; [exact H1|apply H2; lia].
Defined.

Lemma parse_image_roundtrip_witness :
  parse_image (image 4 0x6780fa98 fw) = Some (4%Z, 0x6780fa98%Z, fw) /\ (length fw < 8 -> parse_image fw = None).
Proof. apply (parse_image_roundtrip 4 0x6780fa98 fw fw); lia. Defined.

End Example.
