(* ===== verification/FindRev.v ===== *)
(** * The version extractor, [src/findrev.py]

    The script (Python 2) takes a C header and a board name, and scans the
    header line by line.  A line starting with [#if (ARCH & ARCH_] or
    [#elif (ARCH & ARCH_] names a board (the text after the first [_],
    right-stripped of [) \n\r\t] and lower-cased); when it is the
    requested one, [board_found] becomes true.  While it is true, the
    [#define VERS_MAJOR/MINOR/REV/RC] lines set variables, and a
    [#define FIRMWARE_VERSION] line prints its third field with the
    double quotes stripped and resets [board_found].

    [Str] models the [str] methods the script calls.  [vars] is the
    record of the loop variables, [line_step] the body of the [for] loop
    (lines 12-30), [findrev] the whole script.  The theorems characterise
    the errors of a step, prove that the scan refines a declarative
    specification of what is printed ([scan]), that the script never
    changes a file, that the [official] argument has no effect, and that
    a board argument with an upper-case letter never matches (the guard
    names are lower-cased, the argument is not).  [loop_step] presents the loop
    as a transition system, on which a liveness theorem shows that an
    open block with a version ahead inevitably prints it. *)

From stdpp Require Import base list strings gmap.
From Stdlib Require Import ZArith Lia.
From S2P Require Import Prelude PyFs.

Local Open Scope py_scope.

Module Str.

Definition chr (n : nat) : Ascii.ascii := Ascii.ascii_of_nat n.
Definition of_list : list Ascii.ascii -> string := String.string_of_list_ascii.
Definition to_list : string -> list Ascii.ascii := String.list_ascii_of_string.

(** [c.isspace()] for a Python 2 byte: [' \t\n\r\x0b\x0c']. *)
Definition is_ws (c : Ascii.ascii) : bool :=
  bool_decide (c ∈ map chr [32; 9; 10; 13; 11; 12]).

Definition in_chars (cs : list Ascii.ascii) (c : Ascii.ascii) : bool := bool_decide (c ∈ cs).

Fixpoint prefixb (p s : list Ascii.ascii) : bool :=
  match p, s with
  | [], _ => true
  | c :: p', d :: s' => bool_decide (c = d) && prefixb p' s'
  | _ :: _, [] => false
  end.

(** [s.startswith(p)] *)
Definition startswith (s p : string) : bool := prefixb (to_list p) (to_list s).

Definition lstrip_by (f : Ascii.ascii -> bool) (s : string) : string :=
  of_list (drop_while f (to_list s)).

Definition rstrip_by (f : Ascii.ascii -> bool) (s : string) : string :=
  of_list (rev (drop_while f (rev (to_list s)))).

(** [s.strip()] *)
Definition strip (s : string) : string := rstrip_by is_ws (lstrip_by is_ws s).

(** [s.strip(cs)] and [s.rstrip(cs)] *)
Definition strip_chars (cs : list Ascii.ascii) (s : string) : string :=
  rstrip_by (in_chars cs) (lstrip_by (in_chars cs) s).

Definition rstrip_chars (cs : list Ascii.ascii) (s : string) : string :=
  rstrip_by (in_chars cs) s.

(** [s.split()]: maximal runs of non-whitespace. *)
Fixpoint split_ws_aux (cs cur : list Ascii.ascii) : list string :=
  match cs with
  | [] => match cur with [] => [] | _ => [of_list (rev cur)] end
  | c :: r =>
      if is_ws c then
        match cur with
        | [] => split_ws_aux r []
        | _ => of_list (rev cur) :: split_ws_aux r []
        end
      else split_ws_aux r (c :: cur)
  end.

Definition split_ws (s : string) : list string := split_ws_aux (to_list s) [].

(** [s.split(sep, 1)] for a one-character separator. *)
Fixpoint split_once_aux (sep : Ascii.ascii) (cs acc : list Ascii.ascii) : list string :=
  match cs with
  | [] => [of_list (rev acc)]
  | c :: r =>
      if bool_decide (c = sep) then [of_list (rev acc); of_list r]
      else split_once_aux sep r (c :: acc)
  end.

Definition split_once (sep : Ascii.ascii) (s : string) : list string :=
  split_once_aux sep (to_list s) [].

(** [s.lower()] in the C locale: ASCII letters only. *)
Definition lower_char (c : Ascii.ascii) : Ascii.ascii :=
  let n := Ascii.nat_of_ascii c in
  if (65 <=? n) && (n <=? 90) then chr (n + 32) else c.

Definition lower (s : string) : string := of_list (map lower_char (to_list s)).

Lemma to_of_list l : to_list (of_list l) = l.
Proof. apply String.list_ascii_of_string_of_list_ascii. Qed.

Lemma of_to_list s : of_list (to_list s) = s.
Proof. apply String.string_of_list_ascii_of_string. Qed.

Lemma prefixb_spec p s : prefixb p s = true <-> exists t, s = p ++ t.
Proof.
  revert s. induction p as [|c p IH]; intros [|d s]; simpl.
  - split; [by exists []|done].
  - split; [by exists (d :: s)|done].
  - split; [done|by intros [t ?]].
  - rewrite andb_true_iff, bool_decide_eq_true, IH. split.
    + intros [-> [t ->]]. by exists t.
    + intros [t Ht]. injection Ht as -> ->. eauto.
Qed.

Lemma drop_while_suffix {A} (f : A -> bool) l : exists pre, l = pre ++ drop_while f l.
Proof.
  induction l as [|x l [pre IH]]; simpl; [by exists []|].
  destruct (f x); [exists (x :: pre); simpl; by f_equal|by exists []].
Qed.

(** [rstrip] keeps a prefix of the string. *)
Lemma rstrip_by_prefix f s : exists u, to_list s = to_list (rstrip_by f s) ++ u.
Proof.
  unfold rstrip_by. rewrite to_of_list.
  destruct (drop_while_suffix f (rev (to_list s))) as [pre Hpre].
  exists (rev pre). rewrite <- rev_app_distr, <- Hpre. by rewrite rev_involutive.
Qed.

(** [lstrip] does nothing when the first character is kept. *)
Lemma lstrip_by_keep f c s : f c = false -> lstrip_by f (of_list (c :: s)) = of_list (c :: s).
Proof. intros Hc. unfold lstrip_by. rewrite to_of_list. simpl. by rewrite Hc. Qed.

(** Splitting once on a separator the string contains gives two parts. *)
Lemma split_once_aux_two sep cs acc :
  sep ∈ cs -> exists a b, split_once_aux sep cs acc = [a; b].
Proof.
  revert acc. induction cs as [|c cs IH]; intros acc Hin; [set_solver|]. simpl.
  case_bool_decide; [eauto|]. apply IH. set_solver.
Qed.

End Str.

Import Str.

(** A line of a Python 2 text file is its bytes. *)
Definition string_of_bytes (b : bytes) : string := of_list (map Ascii.ascii_of_byte b).

Definition guard_if : string := "#if (ARCH & ARCH_".
Definition guard_elif : string := "#elif (ARCH & ARCH_".

(** The characters stripped on line 13, [) \n\r\t], and the double
    quote stripped on line 28 (ASCII 34). *)
Definition guard_tail : list Ascii.ascii := map chr [41; 32; 10; 13; 9].
Definition quote : list Ascii.ascii := [chr 34].

(** The module-level variables of the script.  [major], [minor], [rev],
    [rc] and [version] are unbound until assigned. *)
Record vars := mkVars {
  official : bool;
  board_found : bool;
  major : option string;
  minor : option string;
  rev : option string;
  rc : option string;
  version : option string
}.

Definition init_vars (off : bool) : vars := mkVars off false None None None None None.

Definition set_found (b : bool) (st : vars) : vars :=
  mkVars (official st) b (major st) (minor st) (rev st) (rc st) (version st).
Definition set_major (x : string) (st : vars) : vars :=
  mkVars (official st) (board_found st) (Some x) (minor st) (rev st) (rc st) (version st).
Definition set_minor (x : string) (st : vars) : vars :=
  mkVars (official st) (board_found st) (major st) (Some x) (rev st) (rc st) (version st).
Definition set_rev (x : string) (st : vars) : vars :=
  mkVars (official st) (board_found st) (major st) (minor st) (Some x) (rc st) (version st).
Definition set_rc (x : string) (st : vars) : vars :=
  mkVars (official st) (board_found st) (major st) (minor st) (rev st) (Some x) (version st).
Definition set_version (x : string) (st : vars) : vars :=
  mkVars (official st) (board_found st) (major st) (minor st) (rev st) (rc st) (Some x).

(** [l.split()[2]] *)
Definition field2 (l : string) : PyM World string := py_index (split_ws l) 2.

Definition is_guard (l : string) : bool :=
  startswith l guard_if || startswith l guard_elif.

(** Lines 12-15. *)
Definition guard_step (board : string) (st : vars) (l : string) : PyM World vars :=
  if is_guard l then
    s1 <- py_index (split_once (chr 95) l) 1 ;;
    let b := lower (rstrip_chars guard_tail s1) in
    ret (if String.eqb b board then set_found true st else st)
  else ret st.

(** [if l.strip().startswith(key): var = l.split()[2]] *)
Definition define_step (key : string) (set : string -> vars -> vars) (st : vars) (l : string)
  : PyM World vars :=
  if startswith (strip l) key then x <- field2 l ;; ret (set x st) else ret st.

(** Lines 26-30. *)
Definition version_step (st : vars) (l : string) : PyM World vars :=
  if startswith (strip l) "#define FIRMWARE_VERSION" then
    v <- field2 l ;;
    let v := strip_chars quote v in
    print v ;;
    ret (set_found false (set_version v st))
  else ret st.

(** Lines 12-30: one iteration of [for l in f]. *)
Definition line_step (board : string) (st : vars) (l : string) : PyM World vars :=
  st <- guard_step board st l ;;
  if board_found st then
    st <- define_step "#define VERS_MAJOR" set_major st l ;;
    st <- define_step "#define VERS_MINOR" set_minor st l ;;
    st <- define_step "#define VERS_REV" set_rev st l ;;
    st <- define_step "#define VERS_RC" set_rc st l ;;
    version_step st l
  else ret st.

(** The whole script, lines 4-30. *)
Definition findrev (argv : list string) : PyM World unit :=
  path <- py_index argv 1 ;;
  board <- py_index argv 2 ;;
  f <- open_existing path ;;
  let off := if decide (3 < length argv) then
               match argv !! 3 with Some a => String.eqb a "official" | None => false end
             else false in
  read <- readlines f ;;
  st <- py_for (line_step board) (map string_of_bytes (fst read)) (init_vars off) ;;
  ret tt.

(** ** What the scan prints: an abstract specification *)

Definition keys : list string :=
  ["#define VERS_MAJOR"; "#define VERS_MINOR"; "#define VERS_REV"; "#define VERS_RC";
   "#define FIRMWARE_VERSION"].

(** A line the script reads without [IndexError]: every [#define] it would
    parse has a third field. *)
Definition line_ok (l : string) : bool :=
  forallb (fun k => negb (startswith (strip l) k) || bool_decide (2 < length (split_ws l))) keys.

(** The board named by a guard line, compared with the requested one. *)
Definition selects (board l : string) : bool :=
  is_guard l &&
  match split_once (chr 95) l !! 1 with
  | Some s1 => String.eqb (lower (rstrip_chars guard_tail s1)) board
  | None => false
  end.

(** The version a [#define FIRMWARE_VERSION] line defines. *)
Definition version_of (l : string) : option string :=
  if startswith (strip l) "#define FIRMWARE_VERSION" then strip_chars quote <$> split_ws l !! 2
  else None.

(** [scan board found ls out]: reading [ls] outside ([false]) or inside
    ([true]) a block of the requested board prints [out].  Outside, a
    guard naming the board opens a block; inside, the first
    [FIRMWARE_VERSION] define is printed and closes it; nothing else
    matters, other boards' guards included. *)
Inductive scan (board : string) : bool -> list string -> list string -> Prop :=
  | scan_nil found : scan board found [] []
  | scan_skip l ls out :
      selects board l = false -> scan board false ls out -> scan board false (l :: ls) out
  | scan_open l ls out :
      selects board l = true -> scan board true ls out -> scan board false (l :: ls) out
  | scan_body l ls out :
      version_of l = None -> scan board true ls out -> scan board true (l :: ls) out
  | scan_print l v ls out :
      version_of l = Some v -> scan board false ls out -> scan board true (l :: ls) (v :: out).

(** The world after printing [o], if any. *)
Definition emit (w : World) (o : list string) : World :=
  mkWorld (files w) (dirs w) (denied w) (stdout w ++ o).

(** ** One step of the loop *)

Lemma guard_prefix l : is_guard l = true -> exists c t, to_list l = chr 35 :: c :: t /\ c <> chr 100.
Proof.
  unfold is_guard, startswith. intros G.
  apply orb_true_iff in G as [G|G]; apply prefixb_spec in G as [t ->]; simpl;
    eexists _, _; split; [reflexivity|discriminate|reflexivity|discriminate].
Qed.

Lemma guard_underscore l : is_guard l = true -> chr 95 ∈ to_list l.
Proof.
  unfold is_guard, startswith. intros G.
  apply orb_true_iff in G as [G|G]; apply prefixb_spec in G as [t ->];
    apply elem_of_app; left; apply (bool_decide_unpack _); vm_compute; reflexivity.
Qed.

(** Line 13 never raises: a guard line contains [_]. *)
Lemma guard_step_spec board st l w :
  guard_step board st l w = (inr (if selects board l then set_found true st else st), w).
Proof.
  unfold guard_step, selects. destruct (is_guard l) eqn:G; [|done].
  destruct (split_once_aux_two (chr 95) (to_list l) [] (guard_underscore l G)) as [a [b Hab]].
  unfold split_once. rewrite Hab. reflexivity.
Qed.

(** A guard line is no [#define]: it starts with [#i] or [#e]. *)
Lemma guard_not_define l k :
  is_guard l = true -> prefixb [chr 35; chr 100] (to_list k) = true -> startswith (strip l) k = false.
Proof.
  intros G Hk. destruct (guard_prefix l G) as (c & t & Hl & Hc).
  apply prefixb_spec in Hk as [k' Hk].
  destruct (startswith (strip l) k) eqn:E; [|done]. exfalso.
  unfold startswith, strip in E. apply prefixb_spec in E as [t' E].
  assert (Hls : lstrip_by is_ws l = l).
  { rewrite <- (of_to_list l), Hl. apply lstrip_by_keep. vm_compute. reflexivity. }
  rewrite Hls in E. destruct (rstrip_by_prefix is_ws l) as [u Hu].
  rewrite E, Hk, Hl in Hu. simpl in Hu. injection Hu as Hcd. by apply Hc.
Qed.

Lemma guard_no_version l : is_guard l = true -> version_of l = None.
Proof. intros G. unfold version_of. by rewrite guard_not_define. Qed.

Lemma field2_some l k :
  line_ok l = true -> k ∈ keys -> startswith (strip l) k = true -> exists x, split_ws l !! 2 = Some x.
Proof.
  unfold line_ok. intros Hok Hk Hs. rewrite forallb_forall in Hok.
  apply list_elem_of_In in Hk. specialize (Hok k Hk). rewrite Hs in Hok. simpl in Hok.
  apply bool_decide_eq_true in Hok. apply lookup_lt_is_Some_2. lia.
Qed.

Lemma define_step_ok k set st l w :
  line_ok l = true -> k ∈ keys ->
  (forall x, board_found (set x st) = board_found st /\ official (set x st) = official st) ->
  exists st', define_step k set st l w = (inr st', w) /\
              board_found st' = board_found st /\ official st' = official st.
Proof.
  intros Hok Hk Hset. unfold define_step.
  destruct (startswith (strip l) k) eqn:E; [|by exists st].
  destruct (field2_some l k Hok Hk E) as [x Hx].
  exists (set x st). unfold field2, py_index. rewrite Hx. split; [done|apply Hset].
Qed.

Lemma version_step_spec st l w :
  line_ok l = true ->
  version_step st l w =
  match version_of l with
  | Some v => (inr (set_found false (set_version v st)), emit w [v])
  | None => (inr st, w)
  end.
Proof.
  intros Hok. unfold version_step, version_of.
  destruct (startswith (strip l) "#define FIRMWARE_VERSION") eqn:E; [|done].
  assert (Hk : "#define FIRMWARE_VERSION"%string ∈ keys) by (unfold keys; set_solver).
  destruct (field2_some l _ Hok Hk E) as [x Hx].
  unfold field2, py_index. by rewrite Hx.
Qed.

(** Whether the requested block is open after reading [l], and what the
    line prints, in the terms of the specification. *)
Definition found_after (board : string) (found : bool) (l : string) : bool :=
  if found || selects board l then
    match version_of l with Some _ => false | None => true end
  else false.

Definition printed (board : string) (found : bool) (l : string) : list string :=
  if found || selects board l then
    match version_of l with Some v => [v] | None => [] end
  else [].

Lemma emit_nil w : emit w [] = w.
Proof. destruct w. unfold emit; simpl. by rewrite app_nil_r. Qed.

Lemma emit_emit w a b : emit (emit w a) b = emit w (a ++ b).
Proof. unfold emit; simpl. by rewrite app_assoc. Qed.

(** Run a [define_step] of the loop body with [define_step_ok]. *)
Ltac run_define Hok :=
  match goal with
  | |- context [bind (define_step ?k ?set ?s ?l) _ ?w] =>
      let s' := fresh "st" in let E := fresh "E" in
      let F := fresh "F" in let O := fresh "O" in
      destruct (define_step_ok k set s l w Hok) as (s' & E & F & O);
      [unfold keys; set_solver|intros; split; reflexivity|];
      rewrite (bind_inr _ _ _ _ _ E); cbv beta
  end.

(** One iteration on a well-formed line: the block opens on a guard of the
    board, closes on the [FIRMWARE_VERSION] define it prints. *)
Lemma line_step_spec board st l w :
  line_ok l = true ->
  exists st', line_step board st l w = (inr st', emit w (printed board (board_found st) l))
    /\ board_found st' = found_after board (board_found st) l
    /\ official st' = official st.
Proof.
  intros Hok. unfold line_step. rewrite (bind_inr _ _ _ _ _ (guard_step_spec board st l w)).
  cbv beta. set (st1 := if selects board l then set_found true st else st).
  assert (Hf1 : board_found st1 = board_found st || selects board l)
    by (unfold st1; destruct (selects board l), (board_found st); reflexivity).
  assert (Ho1 : official st1 = official st) by (unfold st1; by destruct (selects board l)).
  unfold printed, found_after. rewrite <- Hf1.
  destruct (board_found st1) eqn:F1; [|exists st1; by rewrite emit_nil].
  do 4 run_define Hok.
  rewrite (version_step_spec _ l w Hok).
  destruct (version_of l).
  - eexists. split; [reflexivity|]. simpl. split; congruence.
  - exists st4. rewrite emit_nil. split; [reflexivity|]. split; congruence.
Qed.

Lemma scan_step board found l ls out :
  scan board (found_after board found l) ls out ->
  scan board found (l :: ls) (printed board found l ++ out).
Proof.
  unfold found_after, printed. destruct found; simpl.
  - destruct (version_of l) eqn:V; intros H; [by apply scan_print|by apply scan_body].
  - destruct (selects board l) eqn:S; simpl; intros H; [|by apply scan_skip].
    assert (G : is_guard l = true) by (apply andb_true_iff in S; tauto).
    rewrite guard_no_version in H |- * by done. by apply scan_open.
Qed.

Lemma loop_scan board ls : forall st w,
  forallb line_ok ls = true ->
  exists st' out, py_for (line_step board) ls st w = (inr st', emit w out)
                  /\ scan board (board_found st) ls out
                  /\ official st' = official st.
Proof.
  induction ls as [|l ls IH]; intros st w Hok; simpl in *.
  - exists st, []. rewrite emit_nil. repeat split; [constructor].
  - apply andb_true_iff in Hok as [Hl Hls].
    destruct (line_step_spec board st l w Hl) as (st1 & E1 & F1 & O1).
    destruct (IH st1 (emit w (printed board (board_found st) l)) Hls) as (st2 & out & E2 & S2 & O2).
    exists st2, (printed board (board_found st) l ++ out).
    rewrite (bind_inr _ _ _ _ _ E1), E2, emit_emit. split; [done|split; [|congruence]].
    apply scan_step. by rewrite <- F1.
Qed.

(** The specification prints one thing only. *)
Lemma scan_det board found ls o1 o2 :
  scan board found ls o1 -> scan board found ls o2 -> o1 = o2.
Proof.
  intros H1. revert o2. induction H1; intros o2 H2; inversion H2; subst; try congruence.
  all: match goal with
       | H : version_of ?l = Some _, H' : version_of ?l = Some _ |- _ =>
           rewrite H in H'; injection H' as ->; f_equal
       | _ => idtac
       end; by apply IHscan.
Qed.

(** ** The script *)

Lemma findrev_prefix prog path board rest w data :
  files w !! path = Some data -> path ∉ dirs w -> path ∉ denied w ->
  exists off, findrev (prog :: path :: board :: rest) w =
  (st <- py_for (line_step board) (map string_of_bytes (split_lines Byte.x0a data)) (init_vars off) ;;
   ret tt) w.
Proof.
  intros Hin Hd Hp. unfold findrev. cbn [py_index lookup list_lookup]. rewrite !bind_ret_l.
  py_step (open_existing_ok w path data Hd Hp Hin).
  py_step (eq_refl : readlines (mkHandle path 0) w = _).
  cbn [h_path h_pos fst]. rewrite (contents_lookup w path data Hin), drop_0. by eexists.
Qed.

(** C5: on a readable header whose parsed [#define] lines all have a third
    field, the script succeeds, changes no file, and prints exactly what
    the specification [scan] prints. *)
Theorem findrev_scan prog path board rest w data :
  files w !! path = Some data -> path ∉ dirs w -> path ∉ denied w ->
  forallb line_ok (map string_of_bytes (split_lines Byte.x0a data)) = true ->
  exists out, findrev (prog :: path :: board :: rest) w = (inr tt, emit w out)
    /\ scan board false (map string_of_bytes (split_lines Byte.x0a data)) out.
Proof.
  intros Hin Hd Hp Hok. destruct (findrev_prefix prog path board rest w data Hin Hd Hp) as [off ->].
  destruct (loop_scan board _ (init_vars off) w Hok) as (st' & out & E & S & _).
  exists out. by rewrite (bind_inr _ _ _ _ _ E).
Qed.

(** ** The [official] argument *)

Definition with_official (o : bool) (st : vars) : vars :=
  mkVars o (board_found st) (major st) (minor st) (rev st) (rc st) (version st).

Definition res_map {A B} (f : A -> B) (r : (exn + A) * World) : (exn + B) * World :=
  match r with (inl e, w) => (inl e, w) | (inr a, w) => (inr (f a), w) end.

Lemma bind_res_map {A B C D} (f : A -> C) (g : B -> D) m m' k k' w :
  m' w = res_map f (m w) ->
  (forall a w', k' (f a) w' = res_map g (k a w')) ->
  bind m' k' w = res_map g (bind m k w).
Proof.
  intros Hm Hk. unfold bind. rewrite Hm. destruct (m w) as [[e|a] w']; simpl; [done|apply Hk].
Qed.

Lemma guard_step_official board o st l w :
  guard_step board (with_official o st) l w = res_map (with_official o) (guard_step board st l w).
Proof. rewrite !guard_step_spec. destruct (selects board l), st; reflexivity. Qed.

Lemma define_step_official k set o st l w :
  (forall x s, set x (with_official o s) = with_official o (set x s)) ->
  define_step k set (with_official o st) l w = res_map (with_official o) (define_step k set st l w).
Proof.
  intros Hset. unfold define_step, field2, py_index.
  destruct (startswith (strip l) k); [|done]. destruct (split_ws l !! 2); simpl; [|done].
  rewrite bind_ret_l. unfold ret. by rewrite Hset.
Qed.

Lemma version_step_official o st l w :
  version_step (with_official o st) l w = res_map (with_official o) (version_step st l w).
Proof.
  unfold version_step, field2, py_index.
  destruct (startswith (strip l) _); [|done]. destruct (split_ws l !! 2); simpl; [|done].
  by destruct st.
Qed.

Lemma line_step_official board o st l w :
  line_step board (with_official o st) l w = res_map (with_official o) (line_step board st l w).
Proof.
  unfold line_step. apply (bind_res_map (with_official o)); [apply guard_step_official|].
  intros st1 w1. replace (board_found (with_official o st1)) with (board_found st1) by done.
  destruct (board_found st1); [|done].
  repeat (apply (bind_res_map (with_official o));
          [apply define_step_official; intros ? []; reflexivity|intros ? ?]).
  apply version_step_official.
Qed.

Lemma py_for_official board o ls st w :
  py_for (line_step board) ls (with_official o st) w =
  res_map (with_official o) (py_for (line_step board) ls st w).
Proof.
  revert st w. induction ls as [|l ls IH]; intros st w; simpl; [done|].
  apply (bind_res_map (with_official o)); [apply line_step_official|]. intros. apply IH.
Qed.

(** C25: the optional [official] argument (lines 7-9) has no effect: the
    script behaves as if it were absent, whatever the other arguments,
    files and output. *)
Theorem findrev_official prog path board rest w :
  findrev (prog :: path :: board :: rest) w = findrev [prog; path; board] w.
Proof.
  unfold findrev. cbn [py_index lookup list_lookup]. rewrite !bind_ret_l.
  unfold bind. destruct (open_existing path w) as [[e|h] w1]; [reflexivity|].
  cbn [readlines].
  do 2 match goal with
       | |- context [py_for _ _ (init_vars ?o) _] =>
           replace (init_vars o) with (with_official o (init_vars false)) by reflexivity
       end.
  rewrite !py_for_official.
  by destruct (py_for _ _ (init_vars false) _) as [[e|st] w2].
Qed.

(** ** Errors *)

(** [m] can only fail with [IndexError], and then leaves the world as it was. *)
Definition fails_clean {A} (m : PyM World A) (w : World) : Prop :=
  forall e w', m w = (inl e, w') -> e = IndexError /\ w' = w.

Lemma fails_clean_bind {A B} (m : PyM World A) (k : A -> PyM World B) w :
  fails_clean m w ->
  (forall a w1, m w = (inr a, w1) -> w1 = w /\ fails_clean (k a) w) ->
  fails_clean (bind m k) w.
Proof.
  intros Hm Hk e w'. unfold bind. destruct (m w) as [[e1|a] w1] eqn:E.
  - intros H. injection H as -> ->. by apply Hm.
  - destruct (Hk a w1 eq_refl) as [-> Hka]. apply Hka.
Qed.

Lemma define_step_clean k set st l w :
  fails_clean (define_step k set st l) w /\
  forall a w1, define_step k set st l w = (inr a, w1) -> w1 = w.
Proof.
  unfold define_step, field2, py_index. destruct (startswith (strip l) k);
    [destruct (split_ws l !! 2)|]; split; intros ? ? H; simpl in H;
    injection H; intros; subst; auto; discriminate.
Qed.

Lemma version_step_clean st l w : fails_clean (version_step st l) w.
Proof.
  unfold version_step, field2, py_index. destruct (startswith (strip l) _);
    [destruct (split_ws l !! 2)|]; intros ? ? H; simpl in H;
    injection H; intros; subst; auto; discriminate.
Qed.

(** C24: a step of the loop fails only with [IndexError], only on a line
    with a [#define] of fewer than three fields, only inside the block of
    the requested board, and before printing anything. *)
Theorem line_step_error board st l w e w' :
  line_step board st l w = (inl e, w') ->
  e = IndexError /\ line_ok l = false /\ (board_found st || selects board l) = true /\ w' = w.
Proof.
  intros H. destruct (line_ok l) eqn:Ok.
  { destruct (line_step_spec board st l w Ok) as (st' & E & _). congruence. }
  unfold line_step in H. rewrite (bind_inr _ _ _ _ _ (guard_step_spec board st l w)) in H.
  set (st1 := if selects board l then set_found true st else st) in H.
  assert (Hf1 : board_found st1 = board_found st || selects board l)
    by (unfold st1; destruct (selects board l), (board_found st); reflexivity).
  rewrite <- Hf1. destruct (board_found st1); [|done].
  enough (He : e = IndexError /\ w' = w) by (destruct He; auto).
  revert H. apply fails_clean_bind;
    [apply define_step_clean|intros a w1 E1; split; [by eapply define_step_clean|]].
  apply fails_clean_bind;
    [apply define_step_clean|intros a2 w2 E2; split; [by eapply define_step_clean|]].
  apply fails_clean_bind;
    [apply define_step_clean|intros a3 w3 E3; split; [by eapply define_step_clean|]].
  apply fails_clean_bind;
    [apply define_step_clean|intros a4 w4 E4; split; [by eapply define_step_clean|]].
  apply version_step_clean.
Qed.

(** ** findrev only reads *)

Lemma frame_line_step board st l : frame (fun _ => True) (fun _ => True) (line_step board st l).
Proof.
  unfold line_step, guard_step, define_step, version_step, field2.
  repeat frame_step.
Qed.

(** C12: on any arguments and any filesystem, findrev changes no file, no
    directory and no permission: whether it succeeds or fails, it only
    reads the header and prints. *)
Theorem findrev_read_only argv w :
  files (snd (findrev argv w)) = files w /\ dirs (snd (findrev argv w)) = dirs w /\
  denied (snd (findrev argv w)) = denied w.
Proof.
  enough (H : frame (fun _ => True) (fun _ : unit => True) (findrev argv)).
  { destruct (H w) as [(D & N & F) _]. split; [|done]. apply map_eq. intros p. by apply F. }
  unfold findrev.
  eapply frame_bind; [apply frame_py_index|]. intros path _.
  eapply frame_bind; [apply frame_py_index|]. intros board _.
  eapply frame_bind; [apply frame_open_existing|]. intros f _.
  eapply frame_bind; [apply frame_readlines|]. intros r _.
  eapply (frame_bind _ (fun _ => True)); [|intros; by apply frame_ret].
  apply frame_py_for; [|done]. intros. apply frame_line_step.
Qed.

(** ** The loop as a transition system

    A configuration of the loop of lines 11-30 is the loop variables, the
    lines not read yet and the world; a step runs the body on the next
    line, and stops the loop on an exception.  The transition system is
    the loop: a run of it that reads every line ends where [py_for] ends. *)
Definition loop_conf : Type := vars * list string * World.

Inductive loop_step (board : string) : loop_conf -> loop_conf -> Prop :=
  | loop_next st l ls w st' w' :
      line_step board st l w = (inr st', w') -> loop_step board (st, l :: ls, w) (st', ls, w').

Lemma loop_star_py_for board c c' :
  rtc (loop_step board) c c' ->
  py_for (line_step board) c.1.2 c.1.1 c.2 = py_for (line_step board) c'.1.2 c'.1.1 c'.2.
Proof.
  induction 1 as [|c1 c2 c3 Hs _ IH]; [done|]. rewrite <- IH.
  destruct Hs as [st l ls w st' w' E]. simpl. by rewrite (bind_inr _ _ _ _ _ E).
Qed.

(** On a well-formed line the loop has exactly one step, which prints
    and opens or closes the block as [printed] and [found_after] say. *)
Lemma loop_step_ok board st l ls w :
  line_ok l = true ->
  exists st', (forall c', loop_step board (st, l :: ls, w) c' <->
                          c' = (st', ls, emit w (printed board (board_found st) l)))
              /\ board_found st' = found_after board (board_found st) l.
Proof.
  intros Hok. destruct (line_step_spec board st l w Hok) as (st' & E & F & _).
  exists st'. split; [|done]. intros c'. split.
  - inversion 1; subst. rewrite E in *. by simplify_eq.
  - intros ->. by constructor.
Qed.

(** C16: inside the requested board's block, when a [FIRMWARE_VERSION]
    define lies ahead with no other one before it and the lines up to it
    parse, the loop inevitably reaches the line after that define, having
    printed exactly its version and closed the block.  Lines in between,
    other boards' guards included, neither print nor close the block. *)
Theorem findrev_block_prints board st pre l v post w :
  board_found st = true -> forallb line_ok (pre ++ [l]) = true ->
  Forall (fun p => version_of p = None) pre -> version_of l = Some v ->
  eventually (loop_step board)
    (fun c => c.1.2 = post /\ c.2 = emit w [v] /\ board_found c.1.1 = false)
    (st, pre ++ l :: post, w).
Proof.
  intros Hf Hok Hpre Hv. revert st w Hf Hok.
  induction Hpre as [|p pre Hp _ IH]; intros st w Hf Hok; simpl in Hok |- *;
    apply andb_true_iff in Hok as [Hok1 Hok].
  - destruct (loop_step_ok board st l post w Hok1) as (st' & Hs & F).
    apply (eventually_det _ _ _ _ Hs), ev_now. unfold printed, found_after in *.
    rewrite Hf, Hv in *. by split.
  - destruct (loop_step_ok board st p (pre ++ l :: post) w Hok1) as (st' & Hs & F).
    apply (eventually_det _ _ _ _ Hs). unfold printed, found_after in *.
    rewrite Hf, Hp, emit_nil in *. by apply IH.
Qed.

(** ** Board names in upper case *)

(** An ASCII upper-case letter. *)
Definition is_upper (c : Ascii.ascii) : bool :=
  let n := Ascii.nat_of_ascii c in (65 <=? n) && (n <=? 90).

Lemma lower_char_not_upper c : is_upper (lower_char c) = false.
Proof.
  assert (Hall : forallb (fun n => negb (is_upper (lower_char (Ascii.ascii_of_nat n)))) (seq 0 256) = true)
    by (vm_compute; reflexivity).
  rewrite forallb_forall in Hall. rewrite <- (Ascii.ascii_nat_embedding c).
  pose proof (Ascii.nat_ascii_bounded c).
  apply negb_true_iff, Hall, in_seq. lia.
Qed.

(** [str.lower()] leaves no upper-case letter. *)
Lemma lower_not_upper s : Forall (fun c => is_upper c = false) (to_list (lower s)).
Proof.
  unfold lower. rewrite to_of_list. apply Forall_forall. intros c (d & <- & _)%list_elem_of_In%in_map_iff.
  apply lower_char_not_upper.
Qed.

Lemma selects_upper board l :
  Exists (fun c => is_upper c = true) (to_list board) -> selects board l = false.
Proof.
  intros Hb. unfold selects. destruct (is_guard l); [|done]. simpl.
  destruct (split_once (chr 95) l !! 1) as [s1|]; [|done].
  destruct (String.eqb_spec (lower (rstrip_chars guard_tail s1)) board) as [E|]; [|done].
  rewrite <- E in Hb. pose proof (lower_not_upper (rstrip_chars guard_tail s1)) as Hn.
  apply Exists_exists in Hb as (c & Hc & Hu). rewrite Forall_forall in Hn.
  specialize (Hn c Hc). congruence.
Qed.

(** A block that never opens prints nothing. *)
Lemma scan_never_opens board ls out :
  Forall (fun l => selects board l = false) ls -> scan board false ls out -> out = [].
Proof.
  intros Hs Hsc. remember false as found eqn:Ef.
  induction Hsc as [|l ls out Hl _ IH|l ls out Hl _ _|l ls out _ _ _|l v ls out _ _ _];
    try discriminate; [done| |].
  - apply Forall_cons in Hs as [_ Hs]. by apply IH.
  - apply Forall_cons in Hs as [Hs _]. congruence.
Qed.

(** C33: the board argument is compared with the lower-cased name of
    the header's guards, so a board argument with an upper-case letter
    never matches: on every readable header whose lines parse, findrev
    succeeds and prints nothing at all. *)
Theorem findrev_upper_board prog path board rest w data :
  files w !! path = Some data -> path ∉ dirs w -> path ∉ denied w ->
  forallb line_ok (map string_of_bytes (split_lines Byte.x0a data)) = true ->
  Exists (fun c => is_upper c = true) (to_list board) ->
  findrev (prog :: path :: board :: rest) w = (inr tt, w).
Proof.
  intros Hin Hd Hp Hok Hb. destruct (findrev_prefix prog path board rest w data Hin Hd Hp) as [off ->].
  destruct (loop_scan board _ (init_vars off) w Hok) as (st' & out & E & S & _).
  assert (Ho : out = []).
  { apply (scan_never_opens board (map string_of_bytes (split_lines Byte.x0a data))); [|done].
    apply Forall_forall. intros l _. by apply selects_upper. }
  subst out. by rewrite (bind_inr _ _ _ _ _ E), emit_nil.
Qed.

(** ** Concrete runs *)

Module Example.

(** ["s"] with its double quotes, and a file made of lines. *)
Definition q (s : string) : string :=
  String.String (chr 34) (String.append s (String.String (chr 34) EmptyString)).

(** [  #define FIRMWARE_VERSION "v"] *)
Definition fv (v : string) : string := String.append "  #define FIRMWARE_VERSION " (q v).
Definition text (ls : list string) : bytes :=
  concat (map (fun l => bytes_of_string l ++ [Byte.x0a]) ls).
Definition world_h (data : bytes) : World := mkWorld {["vers.h" := data]} ∅ ∅ [].

Definition vers_h : bytes :=
  text ["#if (ARCH & ARCH_FOO)"; "  #define VERS_MAJOR 1"; fv "1.2";
        "#elif (ARCH & ARCH_BAR)"; fv "2.0"; "#endif"].

Lemma findrev_scan_witness :
  exists out, findrev ["findrev.py"; "vers.h"; "bar"] (world_h vers_h) = (inr tt, emit (world_h vers_h) out)
    /\ scan "bar" false (map string_of_bytes (split_lines Byte.x0a vers_h)) out.
Proof.
  apply (findrev_scan "findrev.py" "vers.h" "bar" [] (world_h vers_h) vers_h);
    [reflexivity|set_solver|set_solver|vm_compute; reflexivity].
Defined.

(** A check run: the block of a board ends only at its [FIRMWARE_VERSION] define,
    not at the next board's guard: when the block of [foo] has no version,
    the script prints the version of the block that follows, [bar]'s. *)
Example findrev_block_leak :
  findrev ["findrev.py"; "vers.h"; "foo"]
    (world_h (text ["#if (ARCH & ARCH_FOO)"; "  #define VERS_MAJOR 1"; "#elif (ARCH & ARCH_BAR)";
                    fv "2.0"; "#endif"]))
  = (inr tt, emit (world_h (text ["#if (ARCH & ARCH_FOO)"; "  #define VERS_MAJOR 1"; "#elif (ARCH & ARCH_BAR)";
                                  fv "2.0"; "#endif"])) ["2.0"]).
Proof. vm_compute. reflexivity. Qed.

Lemma findrev_upper_board_witness :
  files (world_h vers_h) !! "vers.h"%string = Some vers_h /\
  findrev ["findrev.py"; "vers.h"; "FOO"] (world_h vers_h) = (inr tt, world_h vers_h).
Proof.
  split; [reflexivity|].
  apply (findrev_upper_board "findrev.py" "vers.h" "FOO" [] (world_h vers_h) vers_h);
    [reflexivity|set_solver|set_solver|vm_compute; reflexivity|].
  apply Exists_cons_hd. reflexivity.
Defined.

Lemma findrev_block_prints_witness :
  eventually (loop_step "foo")
    (fun c => c.1.2 = ["#endif"] /\ c.2 = emit (world_h []) ["1.2"] /\ board_found c.1.1 = false)
    (set_found true (init_vars false), ["#elif (ARCH & ARCH_BAR)"; "  #define VERS_MAJOR 1"] ++ fv "1.2" :: ["#endif"],
     world_h []).
Proof.
  apply findrev_block_prints; [reflexivity|vm_compute; reflexivity| |vm_compute; reflexivity].
  repeat constructor.
Defined.

Lemma line_step_error_witness :
  IndexError = IndexError /\ line_ok "  #define VERS_MAJOR" = false /\
  (board_found (set_found true (init_vars false)) || selects "foo" "  #define VERS_MAJOR") = true /\
  world_h [] = world_h [].
Proof.
  apply (line_step_error "foo" (set_found true (init_vars false)) "  #define VERS_MAJOR" (world_h [])
           IndexError (world_h [])).
  reflexivity.
Defined.

End Example.
