(* ===== verification/Sha256.v ===== *)
(** * SHA-256 as [hashlib.sha256] computes it

    [src/bertos/cpcfg.py] feeds the text of every staged header to one
    [hashlib.sha256()] object ([sha.update(...)], line 15) and writes its
    [hexdigest()] (line 45).  [hashlib] is library code, modelled here
    from its standard (FIPS 180-4): padding, the message schedule, the
    64 rounds of the compression function on 32-bit words kept in [Z]
    with their wrap-around written out, and the lower-case hexadecimal
    digest.  [update] only appends to the message, so a hash object is
    the bytes fed to it so far.

    [Sha256Lib] states what the stager relies on: a digest is 64
    lower-case hexadecimal digits.  The theorems show that the model is
    an instance, that the padded message is the one FIPS 180-4
    prescribes and splits into 64-byte blocks without loss, and check the
    model against the standard test vectors. *)

From stdpp Require Import base list strings.
From Stdlib Require Import ZArith Lia.
From S2P Require Import Prelude PyFs.

Local Open Scope Z_scope.

(** A lower-case hexadecimal digit. *)
Definition is_hex_digit (c : Ascii.ascii) : bool :=
  let n := Ascii.nat_of_ascii c in ((48 <=? n) && (n <=? 57))%nat || ((97 <=? n) && (n <=? 102))%nat.

(** What the stager needs of [sha256.hexdigest()]. *)
Class Sha256Lib (hexdigest : bytes -> string) : Prop := {
  hexdigest_length d : String.length (hexdigest d) = 64%nat;
  hexdigest_hex d : Forall (fun c => is_hex_digit c = true) (String.list_ascii_of_string (hexdigest d))
}.

Module Sha256.

Definition w32 (x : Z) : Z := x mod 2 ^ 32.

Definition rotr (x n : Z) : Z := Z.lor (Z.shiftr x n) (w32 (Z.shiftl x (32 - n))).

Definition ch (x y z : Z) : Z := Z.lxor (Z.land x y) (Z.land (Z.lxor x MASK32) z).
Definition maj (x y z : Z) : Z := Z.lxor (Z.lxor (Z.land x y) (Z.land x z)) (Z.land y z).
Definition bsig0 (x : Z) : Z := Z.lxor (Z.lxor (rotr x 2) (rotr x 13)) (rotr x 22).
Definition bsig1 (x : Z) : Z := Z.lxor (Z.lxor (rotr x 6) (rotr x 11)) (rotr x 25).
Definition ssig0 (x : Z) : Z := Z.lxor (Z.lxor (rotr x 7) (rotr x 18)) (Z.shiftr x 3).
Definition ssig1 (x : Z) : Z := Z.lxor (Z.lxor (rotr x 17) (rotr x 19)) (Z.shiftr x 10).

(** The constants as FIPS 180-4 defines them (sections 4.2.2 and
    5.3.3): the first 32 bits of the fractional parts of the cube roots
    of the first 64 primes, and of the square roots of the first 8. *)
Definition is_prime (p : Z) : bool := forallb (fun d => negb (p mod d =? 0)) (seqZ 2 (p - 2)).

Definition primes : list Z := filter (fun p => is_prime p = true) (seqZ 2 310).

(** The integer cube root of [n < 2 ^ 105], by bisection on [[lo, hi)]. *)
Fixpoint cbrt_search (fuel : nat) (n lo hi : Z) : Z :=
  match fuel with
  | O => lo
  | S f =>
      if hi - lo <=? 1 then lo
      else let mid := (lo + hi) / 2 in
           if mid ^ 3 <=? n then cbrt_search f n mid hi else cbrt_search f n lo mid
  end.

Definition icbrt (n : Z) : Z := cbrt_search 64 n 0 (2 ^ 35).

Definition K : list Z := map (fun p => icbrt (p * 2 ^ 96) mod 2 ^ 32) (take 64 primes).

Definition H0 : list Z := map (fun p => Z.sqrt (p * 2 ^ 64) mod 2 ^ 32) (take 8 primes).

(** Big-endian bytes and words. *)
Fixpoint be_value (bs : bytes) (acc : Z) : Z :=
  match bs with [] => acc | b :: r => be_value r (acc * 256 + byte_val b) end.

Fixpoint be_bytes (n : nat) (v : Z) : bytes :=
  match n with O => [] | S n => be_bytes n (Z.shiftr v 8) ++ [byte_of_Z v] end.

(** Padding: [0x80], zeros up to 56 mod 64, the bit length on 64 bits. *)
Definition pad (m : bytes) : bytes :=
  let l := Z.of_nat (length m) in
  m ++ [Byte.x80] ++ replicate (Z.to_nat ((55 - l) mod 64)) Byte.x00 ++ be_bytes 8 (8 * l).

(** The 64-byte blocks of a padded message. *)
Fixpoint blocks (fuel : nat) (m : bytes) : list bytes :=
  match fuel with
  | O => []
  | S f => match m with [] => [] | _ => take 64 m :: blocks f (drop 64 m) end
  end.

Fixpoint words (fuel : nat) (b : bytes) : list Z :=
  match fuel with
  | O => []
  | S f => match b with [] => [] | _ => be_value (take 4 b) 0 :: words f (drop 4 b) end
  end.

(** The message schedule, built most recent word first. *)
Fixpoint schedule_rev (n : nat) (ws : list Z) : list Z :=
  match n with
  | O => ws
  | S n =>
      let w t := nth t ws 0 in
      schedule_rev n (w32 (ssig1 (w 1%nat) + w 6%nat + ssig0 (w 14%nat) + w 15%nat) :: ws)
  end.

Definition schedule (block : bytes) : list Z := rev (schedule_rev 48 (rev (words 16 block))).

Definition round (st : list Z) (kw : Z * Z) : list Z :=
  match st with
  | [a; b; c; d; e; f; g; h] =>
      let t1 := w32 (h + bsig1 e + ch e f g + kw.1 + kw.2) in
      let t2 := w32 (bsig0 a + maj a b c) in
      [w32 (t1 + t2); a; b; c; w32 (d + t1); e; f; g]
  | _ => st
  end.

Definition compress (H : list Z) (block : bytes) : list Z :=
  zip_with (fun x y => w32 (x + y)) H (fold_left round (zip K (schedule block)) H).

Definition digest (m : bytes) : bytes :=
  let p := pad m in
  concat (map (be_bytes 4) (fold_left compress (blocks (length p) p) H0)).

(** [hexdigest()]: two lower-case digits per byte. *)
Definition hex_byte (b : Byte.byte) : list Ascii.ascii :=
  [digit_char (byte_val b / 16); digit_char (byte_val b mod 16)].

Definition hexdigest (m : bytes) : string :=
  String.string_of_list_ascii (concat (map hex_byte (digest m))).

(** ** The digest is 64 hexadecimal digits *)

Lemma length_string_of_list_ascii l : String.length (String.string_of_list_ascii l) = length l.
Proof. induction l; simpl; auto. Qed.

Lemma round_length st kw : length (round st kw) = length st.
Proof. unfold round. by repeat (destruct st as [|? st]; try reflexivity). Qed.

Lemma fold_round_length st kws : length (fold_left round kws st) = length st.
Proof.
  revert st. induction kws as [|kw kws IH]; intros st; simpl; [done|].
  by rewrite IH, round_length.
Qed.

Lemma compress_length H b : length (compress H b) = length H.
Proof.
  unfold compress. rewrite length_zip_with, fold_round_length. lia.
Qed.

Lemma length_be_bytes n v : length (be_bytes n v) = n.
Proof. revert v. induction n; intros v; simpl; [done|]. rewrite length_app, IHn. simpl. lia. Qed.

Lemma fold_compress_length bl H : length (fold_left compress bl H) = length H.
Proof.
  revert H. induction bl as [|b bl IH]; intros H; simpl; [done|].
  by rewrite IH, compress_length.
Qed.

Lemma length_concat_be_bytes n L : length (concat (map (be_bytes n) L)) = (n * length L)%nat.
Proof.
  induction L as [|v L IH]; simpl; [lia|]. rewrite length_app, length_be_bytes, IH. lia.
Qed.

Lemma digest_length m : length (digest m) = 32%nat.
Proof. unfold digest. by rewrite length_concat_be_bytes, fold_compress_length. Qed.

Lemma digit_char_hex d : 0 <= d < 16 -> is_hex_digit (digit_char d) = true.
Proof.
  intros Hd. assert (Hc : forallb (fun d => is_hex_digit (digit_char d)) (seqZ 0 16) = true)
    by (vm_compute; reflexivity).
  rewrite forallb_forall in Hc. apply Hc, list_elem_of_In, elem_of_seqZ. lia.
Qed.

Lemma hex_byte_hex b : Forall (fun c => is_hex_digit c = true) (hex_byte b).
Proof.
  pose proof (byte_val_range b).
  repeat constructor; apply digit_char_hex.
  - split; [apply Z.div_pos|apply Z.div_lt_upper_bound]; lia.
  - apply Z.mod_pos_bound. lia.
Qed.

(** The derived constants are those of the standard's tables (first
    and last of each). *)
Lemma constants_check :
  length K = 64%nat /\ head K = Some 0x428a2f98 /\ last K = Some 0xc67178f2 /\
  H0 = [0x6a09e667; 0xbb67ae85; 0x3c6ef372; 0xa54ff53a; 0x510e527f; 0x9b05688c; 0x1f83d9ab; 0x5be0cd19].
Proof. vm_compute. repeat split. Qed.

(** The fuel of [blocks] suffices: the blocks of a message are the
    message. *)
Lemma blocks_concat n m : (length m <= n)%nat -> concat (blocks n m) = m.
Proof.
  revert m. induction n as [|n IH]; intros m Hm; simpl.
  - by destruct m; [|simpl in Hm; lia].
  - destruct m as [|b m]; [done|]. simpl.
    rewrite IH by (rewrite length_drop; simpl in *; lia). by rewrite take_drop.
Qed.

Lemma hex_length l : length (concat (map hex_byte l)) = (2 * length l)%nat.
Proof. induction l as [|b l IH]; simpl; [lia|]. rewrite IH. lia. Qed.

End Sha256.

#[export] Instance sha256_lib : Sha256Lib Sha256.hexdigest.
Proof.
  split; intros d; unfold Sha256.hexdigest.
  - by rewrite Sha256.length_string_of_list_ascii, Sha256.hex_length, Sha256.digest_length.
  - rewrite String.list_ascii_of_string_of_list_ascii.
    apply Forall_concat, Forall_forall. intros l Hl.
    apply list_elem_of_In, in_map_iff in Hl as (b & <- & _). apply Sha256.hex_byte_hex.
Qed.

(** A check of the model: [hexdigest] agrees with the test vectors of FIPS 180-4 on the
    empty message, on "abc" (one block) and on the 56-byte message
    whose padding spills into a second block. *)
Example sha256_test_vectors :
  Sha256.hexdigest [] = "e3b0c44298fc1c149afbf4c8996fb92427ae41e4649b934ca495991b7852b855" /\
  Sha256.hexdigest (bytes_of_string "abc") =
    "ba7816bf8f01cfea414140de5dae2223b00361a396177a9cb410ff61f20015ad" /\
  Sha256.hexdigest (bytes_of_string "abcdbcdecdefdefgefghfghighijhijkijkljklmklmnlmnomnopnopq") =
    "248d6a61d20638b8e5c026930c3e6039a33ce45964ff2167f6ecedd419db06c1".
Proof. vm_compute. repeat split. Qed.

(** A SHA-256 hex digest is 64 lower-case hexadecimal digits, so
    the sentinel [/* cfg+hw SHA256=<hex> */] has a fixed width. *)
Theorem hexdigest_format m :
  String.length (Sha256.hexdigest m) = 64%nat /\
  forallb is_hex_digit (String.list_ascii_of_string (Sha256.hexdigest m)) = true.
Proof.
  unfold Sha256.hexdigest. split.
  - by rewrite Sha256.length_string_of_list_ascii, Sha256.hex_length, Sha256.digest_length.
  - rewrite String.list_ascii_of_string_of_list_ascii, forallb_forall.
    intros c (l & (b & <- & _)%in_map_iff & Hc)%in_concat.
    pose proof (Sha256.hex_byte_hex b) as Hb. rewrite Forall_forall in Hb.
    by apply Hb, list_elem_of_In.
Qed.

(** ** Padding and parsing (FIPS 180-4, 5.1.1 and 5.2.1) *)

Lemma be_value_snoc l b acc :
  Sha256.be_value (l ++ [b]) acc = Sha256.be_value l acc * 256 + byte_val b.
Proof. revert acc. induction l as [|x l IH]; intros acc; simpl; [done|]. apply IH. Qed.

(** The big-endian length field reads back. *)
Lemma be_value_be_bytes n v :
  0 <= v < 2 ^ (8 * Z.of_nat n) -> Sha256.be_value (Sha256.be_bytes n v) 0 = v.
Proof.
  revert v. induction n as [|n IH]; intros v Hv; simpl; [lia|].
  assert (Hs : 0 <= Z.shiftr v 8 < 2 ^ (8 * Z.of_nat n)).
  { rewrite Z.shiftr_div_pow2 by lia. split; [apply Z.div_pos; lia|].
    apply Z.div_lt_upper_bound; [lia|]. rewrite <- Z.pow_add_r by lia.
    replace (8 + 8 * Z.of_nat n) with (8 * Z.of_nat (S n)) by lia. lia. }
  rewrite be_value_snoc, byte_val_of_Z, (IH _ Hs), Z.shiftr_div_pow2 by lia.
  pose proof (Z.div_mod v 256 ltac:(lia)). change (2 ^ 8) with 256. lia.
Qed.

Lemma blocks_length n m :
  (length m mod 64 = 0)%nat -> Forall (fun b => length b = 64%nat) (Sha256.blocks n m).
Proof.
  revert m. induction n as [|n IH]; intros m Hm; simpl; [constructor|].
  destruct m as [|x m']; [constructor|]. set (m := x :: m') in *.
  assert (H64 : (64 <= length m)%nat).
  { destruct (decide (64 <= length m)%nat); [done|]. rewrite Nat.mod_small in Hm by lia.
    unfold m in Hm. simpl in Hm. lia. }
  constructor; [rewrite length_take; lia|]. apply IH. rewrite length_drop.
  replace (length m) with ((length m - 64) + 1 * 64)%nat in Hm by lia.
  by rewrite Nat.Div0.mod_add in Hm.
Qed.

(** C34: for a message shorter than 2^61 bytes, [digest] hashes the
    message padded as FIPS 180-4 prescribes: the byte [0x80], the least
    number [k] of zero bytes that brings the length to 56 modulo 64, and
    the bit length in 8 big-endian bytes that read back as [8 * len m];
    the padded message is cut into 64-byte blocks that concatenate back
    to it. *)
Theorem sha256_padding m :
  8 * Z.of_nat (length m) < 2 ^ 64 ->
  exists k, Sha256.pad m = m ++ [Byte.x80] ++ replicate k Byte.x00 ++ Sha256.be_bytes 8 (8 * Z.of_nat (length m))
    /\ ((length m + 1 + k + 8) mod 64 = 0)%nat
    /\ (forall k', ((length m + 1 + k' + 8) mod 64 = 0)%nat -> (k <= k')%nat)
    /\ Sha256.be_value (Sha256.be_bytes 8 (8 * Z.of_nat (length m))) 0 = 8 * Z.of_nat (length m)
    /\ Forall (fun b => length b = 64%nat) (Sha256.blocks (length (Sha256.pad m)) (Sha256.pad m))
    /\ concat (Sha256.blocks (length (Sha256.pad m)) (Sha256.pad m)) = Sha256.pad m.
Proof.
  intros Hm. set (l := Z.of_nat (length m)). exists (Z.to_nat ((55 - l) mod 64)).
  pose proof (Z.mod_pos_bound (55 - l) 64 ltac:(lia)) as Hk.
  assert (Hmod : ((length m + 1 + Z.to_nat ((55 - l) mod 64) + 8) mod 64 = 0)%nat).
  { apply Nat2Z.inj. rewrite Nat2Z.inj_mod, !Nat2Z.inj_add, Z2Nat.id by lia. fold l.
    simpl. Z.div_mod_to_equations. lia. }
  assert (Hlen : (length (Sha256.pad m) mod 64 = 0)%nat).
  { unfold Sha256.pad. rewrite !length_app, length_replicate, Sha256.length_be_bytes. simpl.
    fold l. by replace (length m + S (Z.to_nat ((55 - l) mod 64) + 8))%nat
      with (length m + 1 + Z.to_nat ((55 - l) mod 64) + 8)%nat by lia. }
  split; [reflexivity|split; [done|split; [|split; [|split]]]].
  - intros k' Hk'. apply Nat2Z.inj_le. apply (f_equal Z.of_nat) in Hk'.
    rewrite Nat2Z.inj_mod, !Nat2Z.inj_add in Hk'. fold l in Hk'. rewrite Z2Nat.id by lia.
    simpl in Hk'. Z.div_mod_to_equations. lia.
  - apply be_value_be_bytes. simpl. lia.
  - by apply blocks_length.
  - by apply Sha256.blocks_concat.
Qed.

Lemma sha256_padding_witness :
  8 * Z.of_nat (length (bytes_of_string "abc")) < 2 ^ 64 /\
  exists k, Sha256.pad (bytes_of_string "abc") =
    bytes_of_string "abc" ++ [Byte.x80] ++ replicate k Byte.x00 ++ Sha256.be_bytes 8 24
    /\ ((3 + 1 + k + 8) mod 64 = 0)%nat
    /\ (forall k', ((3 + 1 + k' + 8) mod 64 = 0)%nat -> (k <= k')%nat)
    /\ Sha256.be_value (Sha256.be_bytes 8 24) 0 = 24
    /\ Forall (fun b => length b = 64%nat)
         (Sha256.blocks (length (Sha256.pad (bytes_of_string "abc"))) (Sha256.pad (bytes_of_string "abc")))
    /\ concat (Sha256.blocks (length (Sha256.pad (bytes_of_string "abc"))) (Sha256.pad (bytes_of_string "abc")))
       = Sha256.pad (bytes_of_string "abc").
Proof.
  split; [vm_compute; reflexivity|]. apply (sha256_padding (bytes_of_string "abc")). vm_compute. reflexivity.
Defined.
