(* ===== verification/Py3Lib.v ===== *)
(** * The Python 3 library calls of the configuration stager

    [src/bertos/cpcfg.py] runs under Python 3 and uses, on top of the file
    objects of [PyFs]: [os.path.join] and [os.path.basename] (posixpath),
    [glob.glob] on a pattern [d/*.h], [os.mkdir], [shutil.copy2], and
    text-mode files, whose [read()] decodes UTF-8 strictly and turns
    every line ending into ["\n"].  A decoded text is kept as its UTF-8
    encoding, which is what the script's [.encode()] gives back and
    which determines string equality.  Each call is modelled from the
    CPython library code it runs; metadata ([copystat]) and symbolic
    links are not part of the [World]. *)

From stdpp Require Import base list strings gmap.
From Stdlib Require Import ZArith Lia.
From S2P Require Import Prelude PyFs Sha256.

Local Open Scope py_scope.

(** ** [os.path] (posixpath) *)

Definition starts_slash (s : string) : bool :=
  match String.list_ascii_of_string s with c :: _ => is_slash c | [] => false end.

Definition ends_slash (s : string) : bool :=
  match rev (String.list_ascii_of_string s) with c :: _ => is_slash c | [] => false end.

(** One step of [os.path.join(a, *p)]:
    [if b.startswith('/'): path = b
     elif not path or path.endswith('/'): path += b
     else: path += '/' + b]. *)
Definition join2 (path b : string) : string :=
  if starts_slash b then b
  else if bool_decide (path = ""%string) || ends_slash path then (path ++ b)%string
  else (path ++ String.String (Ascii.ascii_of_nat 47) b)%string.

Definition join (a : string) (p : list string) : string := fold_left join2 p a.

(** [os.path.basename]: [p[p.rfind('/') + 1:]]. *)
Definition basename (p : string) : string :=
  let cs := String.list_ascii_of_string p in
  let head := rev (drop_while (fun c => negb (is_slash c)) (rev cs)) in
  String.string_of_list_ascii (drop (length head) cs).

(** ** [glob.glob(os.path.join(d, '*.h'))]

    [glob] splits the pattern back into [d] and ['*.h'] ([d] holds no
    wildcard), lists [d] with [os.scandir] (nothing when [d] is not a
    directory), drops hidden names (the pattern does not start with a
    dot), keeps the names that [fnmatch] matches with ['*.h'] (any name
    ending in [.h], case-sensitive on POSIX), and joins [d] to each.
    The order of [os.scandir] is the filesystem's: the listing is a
    parameter [listdir] of the stager. *)

Definition is_dot (c : Ascii.ascii) : bool := bool_decide (c = Ascii.ascii_of_nat 46).

Definition hidden (n : string) : bool :=
  match String.list_ascii_of_string n with c :: _ => is_dot c | [] => false end.

Definition match_star_h (n : string) : bool :=
  match rev (String.list_ascii_of_string n) with
  | h :: d :: _ => bool_decide (h = Ascii.ascii_of_nat 104) && is_dot d
  | _ => false
  end.

Definition glob_h (names : list string) (d : string) : list string :=
  map (join2 d) (filter (fun n => negb (hidden n) && match_star_h n) names).

(** ** [os.mkdir(p)]

    The parent is resolved first ([ENOTDIR] when it is a file, [ENOENT]
    when it is missing), then an existing entry gives [EEXIST]. *)
Definition mkdir (p : string) : PyM World unit :=
  fun w =>
    if bool_decide (p = ""%string) then (inl (OSError ENOENT p), w)
    else if bool_decide (dirname p ∈ dom (files w)) then (inl (OSError ENOTDIR p), w)
    else if negb (parent_ok w p) then (inl (OSError ENOENT p), w)
    else if bool_decide (p ∈ dirs w) || bool_decide (p ∈ dom (files w)) then (inl (OSError EEXIST p), w)
    else if bool_decide (p ∈ denied w) then (inl (OSError EACCES p), w)
    else (inr tt, set_dirs (union {[p]}) w).

(** ** [shutil.copy2(src, dst)]

    [if os.path.isdir(dst): dst = os.path.join(dst, os.path.basename(src))],
    then [copyfile]: [SameFileError] when [os.path.samefile(src, dst)]
    (both exist and are the same file, here the same path), [open(src,
    'rb')], [open(dst, 'wb')], the bytes copied; [copystat] copies
    metadata, which the [World] does not hold. *)
Definition exists_path (w : World) (p : string) : bool :=
  bool_decide (p ∈ dom (files w)) || bool_decide (p ∈ dirs w).

Definition copy_target (w : World) (src dst : string) : string :=
  if bool_decide (dst ∈ dirs w) then join2 dst (basename src) else dst.

Definition copy2 (src dst : string) : PyM World string :=
  w <- get_st ;;
  let dst := copy_target w src dst in
  if bool_decide (src = dst) && exists_path w src then raise (SameFileError src dst)
  else
    fsrc <- open_existing src ;;
    fdst <- open_trunc dst ;;
    r <- read_all fsrc ;;
    _ <- write fdst (fst r) ;;
    ret dst.

(** ** Text files: [open(p, 'r')] and [f.read()]

    The locale's encoding is UTF-8 and [newline=None]: [read()] raises
    [UnicodeDecodeError] on bytes that are not well-formed UTF-8 (the
    table of well-formed sequences of the Unicode standard, which
    CPython's strict decoder follows) and translates ["\r\n"] and a lone
    ["\r"] to ["\n"]. *)
Definition in_range (b : Byte.byte) (lo hi : Z) : bool :=
  ((lo <=? byte_val b) && (byte_val b <=? hi))%Z.

Definition cont (b : Byte.byte) : bool := in_range b 0x80 0xBF.

Fixpoint utf8_valid (bs : bytes) : bool :=
  match bs with
  | [] => true
  | b :: r =>
      if in_range b 0x00 0x7F then utf8_valid r
      else if in_range b 0xC2 0xDF then
        match r with c :: r => cont c && utf8_valid r | [] => false end
      else if in_range b 0xE0 0xEF then
        match r with
        | c1 :: c2 :: r =>
            in_range c1 (if (byte_val b =? 0xE0)%Z then 0xA0 else 0x80)
                        (if (byte_val b =? 0xED)%Z then 0x9F else 0xBF)
            && cont c2 && utf8_valid r
        | _ => false
        end
      else if in_range b 0xF0 0xF4 then
        match r with
        | c1 :: c2 :: c3 :: r =>
            in_range c1 (if (byte_val b =? 0xF0)%Z then 0x90 else 0x80)
                        (if (byte_val b =? 0xF4)%Z then 0x8F else 0xBF)
            && cont c2 && cont c3 && utf8_valid r
        | _ => false
        end
      else false
  end.

Fixpoint universal_newlines (bs : bytes) : bytes :=
  match bs with
  | [] => []
  | b :: r =>
      if Byte.eqb b Byte.x0d then
        match r with
        | c :: r' => if Byte.eqb c Byte.x0a then Byte.x0a :: universal_newlines r'
                     else Byte.x0a :: universal_newlines r
        | [] => [Byte.x0a]
        end
      else b :: universal_newlines r
  end.

(** [f.read()] on a text file. *)
Definition read_text (h : handle) : PyM World (bytes * handle) :=
  fun w =>
    let c := drop (h_pos h) (contents w (h_path h)) in
    if utf8_valid c then (inr (universal_newlines c, mkHandle (h_path h) (length (contents w (h_path h)))), w)
    else (inl (UnicodeDecodeError (h_path h)), w).

(** ** [utf8_valid] accepts exactly the UTF-8 encodings

    The Unicode standard (Table 3-6) encodes a scalar value (a code
    point that is not a surrogate) in one to four bytes; [utf8_valid],
    written after Table 3-7 of well-formed byte sequences, holds
    exactly of the encodings of sequences of scalar values. *)
Definition is_scalar (c : Z) : bool :=
  ((0 <=? c) && (c <=? 0x10FFFF) && negb ((0xD800 <=? c) && (c <=? 0xDFFF)))%Z.

Definition utf8_encode_cp (c : Z) : bytes :=
  if (c <? 0x80)%Z then [byte_of_Z c]
  else if (c <? 0x800)%Z then [byte_of_Z (0xC0 + c / 64); byte_of_Z (0x80 + c mod 64)]
  else if (c <? 0x10000)%Z then
    [byte_of_Z (0xE0 + c / 4096); byte_of_Z (0x80 + (c / 64) mod 64); byte_of_Z (0x80 + c mod 64)]
  else [byte_of_Z (0xF0 + c / 262144); byte_of_Z (0x80 + (c / 4096) mod 64);
        byte_of_Z (0x80 + (c / 64) mod 64); byte_of_Z (0x80 + c mod 64)].

Definition utf8_encode (cps : list Z) : bytes := concat (map utf8_encode_cp cps).

(** ** Effects of the calls *)

(** A path [os.mkdir] creates, or a directory that already exists. *)
Definition dir_ready (w : World) (p : string) : Prop :=
  p <> ""%string /\ (dirname p ∉ dom (files w)) /\ parent_ok w p = true /\
  (p ∉ dom (files w)) /\ (p ∈ dirs w \/ p ∉ denied w).

#[export] Instance dir_ready_dec w p : Decision (dir_ready w p).
Proof. unfold dir_ready. apply _. Defined.

Lemma mkdir_ok w p :
  dir_ready w p -> p ∉ dirs w -> mkdir p w = (inr tt, set_dirs (union {[p]}) w).
Proof.
  intros (He & Hf & Hp & Hn & [Hd|Hd]) Hd'; [done|]. unfold mkdir.
  rewrite !bool_decide_eq_false_2 by done. by rewrite Hp.
Qed.

Lemma mkdir_exists w p :
  dir_ready w p -> p ∈ dirs w -> mkdir p w = (inl (OSError EEXIST p), w).
Proof.
  intros (He & Hf & Hp & Hn & _) Hd. unfold mkdir.
  rewrite !(bool_decide_eq_false_2 (_ = _)), (bool_decide_eq_false_2 (_ ∈ dom _)) by done.
  rewrite Hp, bool_decide_eq_true_2 by done. reflexivity.
Qed.

Lemma set_dirs_union_id w p : p ∈ dirs w -> set_dirs (union {[p]}) w = w.
Proof.
  intros Hp. destruct w as [f d n o]; unfold set_dirs; simpl in *. f_equal. set_solver.
Qed.

Lemma dir_ready_set_dirs w p q : dir_ready w p -> dir_ready (set_dirs (union {[q]}) w) p.
Proof.
  intros (He & Hf & Hp & Hn & Hd). unfold dir_ready, parent_ok in *; cbn [files dirs set_dirs].
  repeat split; try done.
  - apply orb_true_iff in Hp as [Hp|Hp]; apply orb_true_iff; [by left|right].
    apply bool_decide_eq_true in Hp. apply bool_decide_eq_true. set_solver.
  - destruct Hd; [left; set_solver|by right].
Qed.

(** A source that can be opened, and a target that can be created and
    is another path: [copy2] returns the target and gives it the
    source's bytes. *)
Lemma copy2_ok w src dst c :
  files w !! src = Some c -> src ∉ dirs w -> src ∉ denied w ->
  creatable w (copy_target w src dst) -> src <> copy_target w src dst ->
  copy2 src dst w = (inr (copy_target w src dst), set_files (insert (copy_target w src dst) c) w).
Proof.
  intros Hc Hd Hn Ht Hne. unfold copy2, get_st, bind. cbn beta iota.
  rewrite bool_decide_eq_false_2 by done. simpl.
  rewrite (open_existing_ok w src c), (open_trunc_ok _ _ Ht) by done. cbn -[overwrite].
  rewrite !contents_set_files_insert, decide_True, decide_False, (contents_lookup w src c Hc) by done.
  unfold overwrite. simpl. by rewrite drop_nil, app_nil_r, set_files_insert_insert.
Qed.

(** The copy is made in the world before the copy: the targets of
    [copy2] do not depend on the files. *)
Lemma copy_target_set_files w f src dst :
  copy_target (set_files f w) src dst = copy_target w src dst.
Proof. reflexivity. Qed.

Lemma read_text_ok w p c :
  files w !! p = Some c -> utf8_valid c = true ->
  read_text (mkHandle p 0) w = (inr (universal_newlines c, mkHandle p (length c)), w).
Proof. intros Hc Hv. unfold read_text; simpl. by rewrite (contents_lookup w p c Hc), drop_0, Hv. Qed.

Lemma read_text_fail w p c :
  files w !! p = Some c -> utf8_valid c = false ->
  read_text (mkHandle p 0) w = (inl (UnicodeDecodeError p), w).
Proof. intros Hc Hv. unfold read_text; simpl. by rewrite (contents_lookup w p c Hc), drop_0, Hv. Qed.

(** What the calls may change: [read()] nothing, [copy2] its target. *)
Lemma frame_read_text P h : frame P (fun _ => True) (read_text h).
Proof. apply frame_read_only. intros w. unfold read_text. by destruct (utf8_valid _). Qed.

Lemma frame_copy2 P src dst :
  (forall w, ~ P (copy_target w src dst)) -> frame P (fun _ => True) (copy2 src dst).
Proof.
  intros Ht. unfold copy2. apply frame_get_bind. intros w0. apply frame_if; [apply frame_raise|].
  eapply frame_bind; [apply frame_open_existing|]. intros h1 _.
  eapply frame_bind; [by apply frame_open_trunc|]. intros h2 E2.
  eapply frame_bind; [apply frame_read_all|]. intros r _.
  eapply frame_bind; [apply frame_write; rewrite E2; apply Ht|]. intros. by apply frame_ret.
Qed.

(** ** Texts that read back as written

    A byte below 128 other than ["\r"] is a character of its own that
    [read()] leaves alone. *)
Definition plain_byte (b : Byte.byte) : bool := in_range b 0x00 0x7F && negb (Byte.eqb b Byte.x0d).

Lemma plain_text bs :
  forallb plain_byte bs = true -> utf8_valid bs = true /\ universal_newlines bs = bs.
Proof.
  induction bs as [|b bs IH]; simpl; [done|].
  unfold plain_byte. intros [[Hr Hc]%andb_true_iff Hbs]%andb_true_iff.
  apply negb_true_iff in Hc. rewrite Hr, Hc. destruct (IH Hbs) as [-> ->]. done.
Qed.

Lemma plain_text_app a b :
  forallb plain_byte (a ++ b) = forallb plain_byte a && forallb plain_byte b.
Proof. apply forallb_app. Qed.

(** The lower-case hexadecimal digits are plain. *)
Lemma hex_digit_plain (c : Ascii.ascii) :
  bool_decide (c = Ascii.ascii_of_nat 10) || is_hex_digit c = true ->
  plain_byte (Ascii.byte_of_ascii c) = true.
Proof. destruct c as [[] [] [] [] [] [] [] []]; vm_compute; congruence. Qed.

(** ** Line endings: LF and CRLF files read the same *)

(** The file with every ["\n"] written as ["\r\n"]. *)
Definition crlf (bs : bytes) : bytes :=
  concat (map (fun b => if Byte.eqb b Byte.x0a then [Byte.x0d; Byte.x0a] else [b]) bs).

Lemma crlf_cons b r : Byte.eqb b Byte.x0a = false -> crlf (b :: r) = b :: crlf r.
Proof. unfold crlf. simpl. by intros ->. Qed.

Lemma crlf_nl r : crlf (Byte.x0a :: r) = Byte.x0d :: Byte.x0a :: crlf r.
Proof. reflexivity. Qed.

Lemma in_range_not_nl b lo hi : in_range b lo hi = true -> (10 < lo)%Z -> Byte.eqb b Byte.x0a = false.
Proof.
  intros Hr Hlo. destruct (Byte.eqb b Byte.x0a) eqn:E; [|done].
  apply Byte.byte_dec_bl in E as ->. unfold in_range in Hr. simpl in Hr.
  apply andb_true_iff in Hr as [Hr _]. apply Z.leb_le in Hr.
  change (byte_val Byte.x0a) with 10%Z in Hr. lia.
Qed.

Lemma universal_newlines_id bs :
  forallb (fun b => negb (Byte.eqb b Byte.x0d)) bs = true -> universal_newlines bs = bs.
Proof.
  induction bs as [|b bs IH]; simpl; [done|]. intros [Hb Hbs]%andb_true_iff.
  apply negb_true_iff in Hb. by rewrite Hb, IH.
Qed.

Lemma universal_newlines_crlf bs :
  forallb (fun b => negb (Byte.eqb b Byte.x0d)) bs = true -> universal_newlines (crlf bs) = bs.
Proof.
  induction bs as [|b bs IH]; simpl; [done|]. intros [Hb Hbs]%andb_true_iff.
  apply negb_true_iff in Hb. destruct (Byte.eqb b Byte.x0a) eqn:E.
  - apply Byte.byte_dec_bl in E as ->. rewrite crlf_nl. simpl. by rewrite IH.
  - rewrite crlf_cons by done. simpl. by rewrite Hb, IH.
Qed.

Lemma utf8_valid_ascii b r : in_range b 0x00 0x7F = true -> utf8_valid (b :: r) = utf8_valid r.
Proof. intros H. simpl. by rewrite H. Qed.

(** A byte of a multi-byte sequence is not ["\n"]. *)
Ltac not_nl H := eapply in_range_not_nl; [exact H|repeat case_match; lia].

Lemma utf8_valid_crlf_aux n bs :
  (length bs < n)%nat -> utf8_valid bs = true -> utf8_valid (crlf bs) = true.
Proof.
  revert bs. induction n as [|n IH]; intros bs Hl Hv; [lia|].
  destruct bs as [|b r]; [done|]. simpl in Hl.
  destruct (in_range b 0x00 0x7F) eqn:A.
  { rewrite utf8_valid_ascii in Hv by done.
    destruct (Byte.eqb b Byte.x0a) eqn:E.
    - apply Byte.byte_dec_bl in E as ->. rewrite crlf_nl, !utf8_valid_ascii by reflexivity.
      apply IH; [lia|done].
    - rewrite crlf_cons, utf8_valid_ascii by done. apply IH; [lia|done]. }
  simpl in Hv. rewrite A in Hv. rewrite crlf_cons by (destruct (Byte.eqb b Byte.x0a) eqn:E;
    [apply Byte.byte_dec_bl in E as ->; discriminate|done]).
  destruct (in_range b 0xC2 0xDF) eqn:B.
  { destruct r as [|c r]; [done|]. apply andb_true_iff in Hv as [Hc Hr].
    rewrite crlf_cons by not_nl Hc. simpl. rewrite A, B, Hc. apply IH; [simpl in *; lia|done]. }
  destruct (in_range b 0xE0 0xEF) eqn:C.
  { destruct r as [|c1 [|c2 r]]; try done. apply andb_true_iff in Hv as [[H1 H2]%andb_true_iff Hr].
    rewrite crlf_cons by not_nl H1. rewrite crlf_cons by not_nl H2.
    simpl. rewrite A, B, C, H1, H2. apply IH; [simpl in *; lia|done]. }
  destruct (in_range b 0xF0 0xF4) eqn:D; [|done].
  destruct r as [|c1 [|c2 [|c3 r]]]; try done.
  apply andb_true_iff in Hv as [[[H1 H2]%andb_true_iff H3]%andb_true_iff Hr].
  rewrite crlf_cons by not_nl H1. rewrite crlf_cons by not_nl H2. rewrite crlf_cons by not_nl H3.
  simpl. rewrite A, B, C, D, H1, H2, H3. apply IH; [simpl in *; lia|done].
Qed.

(** Writing the line endings as CRLF keeps a file well-formed UTF-8. *)
Lemma utf8_valid_crlf bs : utf8_valid bs = true -> utf8_valid (crlf bs) = true.
Proof. apply (utf8_valid_crlf_aux (S (length bs))). lia. Qed.

(** ** Paths *)

Lemma list_ascii_of_string_app s1 s2 :
  String.list_ascii_of_string (s1 ++ s2)%string =
  String.list_ascii_of_string s1 ++ String.list_ascii_of_string s2.
Proof. induction s1 as [|a s1 IH]; simpl; [done|]. by rewrite IH. Qed.

Lemma drop_while_app_all {A} (f : A -> bool) l1 l2 :
  forallb f l1 = true -> drop_while f (l1 ++ l2) = drop_while f l2.
Proof. induction l1 as [|x l1 IH]; simpl; [done|]. intros [-> ?]%andb_true_iff. by apply IH. Qed.

(** A name without a slash. *)
Definition plain_name (n : string) : bool :=
  forallb (fun c => negb (is_slash c)) (String.list_ascii_of_string n).

Lemma forallb_rev {A} (f : A -> bool) l : forallb f (rev l) = forallb f l.
Proof.
  induction l as [|x l IH]; simpl; [done|].
  rewrite forallb_app, IH. simpl. by rewrite andb_true_r, andb_comm.
Qed.

Lemma basename_plain cs :
  forallb (fun c => negb (is_slash c)) cs = true ->
  basename (String.string_of_list_ascii cs) = String.string_of_list_ascii cs.
Proof.
  intros Hn. unfold basename. rewrite String.list_ascii_of_string_of_list_ascii.
  rewrite <- (app_nil_r (rev cs)), drop_while_app_all by (by rewrite forallb_rev). done.
Qed.

Lemma basename_slash ds s cs :
  is_slash s = true -> forallb (fun c => negb (is_slash c)) cs = true ->
  basename (String.string_of_list_ascii (ds ++ s :: cs)) = String.string_of_list_ascii cs.
Proof.
  intros Hs Hn. unfold basename. rewrite String.list_ascii_of_string_of_list_ascii.
  rewrite rev_app_distr. simpl. rewrite <- app_assoc, drop_while_app_all by (by rewrite forallb_rev).
  simpl. rewrite Hs. simpl. rewrite rev_involutive, length_app. simpl.
  rewrite drop_app, drop_ge, Nat.add_sub_swap, Nat.sub_diag by lia. done.
Qed.

Lemma dirname_slash ds e s cs :
  is_slash e = false -> is_slash s = true -> forallb (fun c => negb (is_slash c)) cs = true ->
  dirname (String.string_of_list_ascii ((ds ++ [e]) ++ s :: cs)) = String.string_of_list_ascii (ds ++ [e]).
Proof.
  intros He Hs Hn. unfold dirname. rewrite String.list_ascii_of_string_of_list_ascii.
  rewrite rev_app_distr. simpl. rewrite <- app_assoc, drop_while_app_all by (by rewrite forallb_rev).
  simpl. rewrite Hs. simpl. rewrite rev_involutive, forallb_app, forallb_app. simpl.
  rewrite He, Hs, !andb_false_r. simpl.
  rewrite rev_app_distr. simpl. rewrite Hs. simpl. rewrite rev_app_distr. simpl. rewrite He. simpl.
  by rewrite rev_involutive.
Qed.

Lemma starts_slash_plain n : plain_name n = true -> starts_slash n = false.
Proof.
  unfold plain_name, starts_slash. destruct (String.list_ascii_of_string n) as [|c cs]; [done|].
  simpl. by destruct (is_slash c).
Qed.

Lemma drop_while_split {A} (f : A -> bool) l : exists t, l = t ++ drop_while f l /\ forallb f t = true.
Proof.
  induction l as [|x l (t & Ht & Hf)]; [by exists []|]. simpl. destruct (f x) eqn:Fx.
  - exists (x :: t). simpl. by rewrite Fx, Hf, <- Ht.
  - by exists [].
Qed.

(** [os.path.basename] returns a name without slash. *)
Lemma plain_basename p : plain_name (basename p) = true.
Proof.
  unfold plain_name, basename. rewrite String.list_ascii_of_string_of_list_ascii.
  set (cs := String.list_ascii_of_string p).
  destruct (drop_while_split (fun c => negb (is_slash c)) (rev cs)) as (t & Ht & Hf).
  assert (Hcs : cs = rev (drop_while (fun c => negb (is_slash c)) (rev cs)) ++ rev t).
  { rewrite <- rev_app_distr, <- Ht. by rewrite rev_involutive. }
  rewrite Hcs at 2. rewrite drop_app_length. by rewrite forallb_rev.
Qed.

Lemma ends_slash_app a n : n <> ""%string -> ends_slash (a ++ n) = ends_slash n.
Proof.
  intros Hn. unfold ends_slash. rewrite list_ascii_of_string_app, rev_app_distr.
  destruct (rev (String.list_ascii_of_string n)) eqn:E; [|done].
  exfalso. apply Hn. destruct n; [done|]. simpl in E. by apply app_eq_nil in E as [_ ?].
Qed.

(** [os.path.join(d, n)] for a name [n] ends like [n] and is not empty. *)
Lemma join2_name d n :
  n <> ""%string -> plain_name n = true -> join2 d n <> ""%string /\ ends_slash (join2 d n) = ends_slash n.
Proof.
  intros Hn Hp. unfold join2. rewrite starts_slash_plain by done.
  destruct (bool_decide (d = ""%string) || ends_slash d).
  - split; [|by apply ends_slash_app]. intros E. apply (f_equal String.list_ascii_of_string) in E.
    rewrite list_ascii_of_string_app in E. destruct n; [done|]. simpl in E.
    by apply app_eq_nil in E as [_ ?].
  - split; [by destruct d|]. rewrite (ends_slash_app d (String.String _ n)) by done.
    unfold ends_slash. cbn [String.list_ascii_of_string rev].
    destruct (rev (String.list_ascii_of_string n)) eqn:E; [|done].
    exfalso. apply Hn. destruct n; [done|]. simpl in E. by apply app_eq_nil in E as [_ ?].
Qed.

(** Joining a name to a directory that does not end in a slash puts a
    slash between them. *)
Lemma join2_plain d n :
  d <> ""%string -> ends_slash d = false -> plain_name n = true ->
  join2 d n = (d ++ String.String (Ascii.ascii_of_nat 47) n)%string.
Proof.
  intros Hd He Hn. unfold join2. rewrite starts_slash_plain, He by done.
  by rewrite bool_decide_eq_false_2.
Qed.

(** [os.path.basename(os.path.join(d, n))] is [n] for a name [n]. *)
Lemma basename_join2 d n : n <> ""%string -> plain_name n = true -> basename (join2 d n) = n.
Proof.
  intros Hne Hn. unfold join2. rewrite starts_slash_plain by done. unfold plain_name in Hn. transitivity (String.string_of_list_ascii (String.list_ascii_of_string n));
    [|apply String.string_of_list_ascii_of_string].
  destruct (bool_decide (d = ""%string)) eqn:Ed; simpl.
  - apply bool_decide_eq_true in Ed as ->. change ((""%string ++ n)%string) with n.
    rewrite <- (String.string_of_list_ascii_of_string n) at 1. by apply basename_plain.
  - unfold ends_slash. destruct (rev (String.list_ascii_of_string d)) as [|e ds] eqn:Erd; simpl.
    + exfalso. destruct d; [done|]. simpl in Erd. by apply app_eq_nil in Erd as [_ ?].
    + assert (Hd : String.list_ascii_of_string d = rev ds ++ [e])
        by (apply (f_equal (@rev _)) in Erd; by rewrite rev_involutive in Erd).
      destruct (is_slash e) eqn:Ee.
      * rewrite <- (String.string_of_list_ascii_of_string (d ++ _)), list_ascii_of_string_app, Hd.
        rewrite <- app_assoc. by apply basename_slash.
      * rewrite <- (String.string_of_list_ascii_of_string (d ++ _)), list_ascii_of_string_app.
        by apply (basename_slash _ (Ascii.ascii_of_nat 47)).
Qed.

(** C32: [os.path.split(os.path.join(d, n))] gives back [(d, n)] for a
    directory [d] that is not empty and does not end in a slash and a
    name [n] without slash: this is how [glob.glob] recovers the
    directory [d] from the pattern [os.path.join(d, '*.h')]. *)
Theorem split_join2 d n :
  d <> ""%string -> ends_slash d = false -> n <> ""%string -> plain_name n = true ->
  dirname (join2 d n) = d /\ basename (join2 d n) = n.
Proof.
  intros Hd He Hne Hn. split; [|by apply basename_join2].
  unfold join2. rewrite starts_slash_plain, bool_decide_eq_false_2, He by done. simpl.
  rewrite <- (String.string_of_list_ascii_of_string (d ++ _)), list_ascii_of_string_app. simpl.
  unfold ends_slash in He. destruct (rev (String.list_ascii_of_string d)) as [|e ds] eqn:Erd.
  { destruct d; [done|]. simpl in Erd. by apply app_eq_nil in Erd as [_ ?]. }
  assert (Hl : String.list_ascii_of_string d = rev ds ++ [e])
    by (apply (f_equal (@rev _)) in Erd; by rewrite rev_involutive in Erd).
  rewrite Hl, dirname_slash by done. by rewrite <- Hl, String.string_of_list_ascii_of_string.
Qed.

(** Witness of [split_join2]: the pattern of line 22. *)
Lemma split_join2_witness : dirname (join2 "app/hw" "*.h") = "app/hw"%string /\ basename (join2 "app/hw" "*.h") = "*.h"%string.
Proof. apply split_join2; try reflexivity; discriminate. Defined.

Lemma byte_val_of_Z_small z : (0 <= z < 256)%Z -> byte_val (byte_of_Z z) = z.
Proof. intros. rewrite byte_val_of_Z. by apply Z.mod_small. Qed.

Lemma byte_of_Z_eq b z : z = byte_val b -> byte_of_Z z = b.
Proof. intros ->. apply byte_of_Z_val. Qed.

Lemma in_range_spec b lo hi : in_range b lo hi = true <-> (lo <= byte_val b <= hi)%Z.
Proof. unfold in_range. rewrite andb_true_iff, !Z.leb_le. done. Qed.

Lemma in_range_false b lo hi : (byte_val b < lo \/ hi < byte_val b)%Z -> in_range b lo hi = false.
Proof. intros H. destruct (in_range b lo hi) eqn:E; [|done]. apply in_range_spec in E. lia. Qed.

Lemma utf8_valid_2 b c r :
  (0xC2 <= byte_val b <= 0xDF)%Z -> (0x80 <= byte_val c <= 0xBF)%Z ->
  utf8_valid (b :: c :: r) = utf8_valid r.
Proof.
  intros Hb Hc. cbn [utf8_valid]. rewrite (in_range_false b 0 0x7F) by lia.
  rewrite (proj2 (in_range_spec b _ _)) by lia. unfold cont. by rewrite (proj2 (in_range_spec c _ _)) by lia.
Qed.

Lemma utf8_valid_3 b c1 c2 r :
  (0xE0 <= byte_val b <= 0xEF)%Z ->
  ((if (byte_val b =? 0xE0)%Z then 0xA0 else 0x80) <= byte_val c1 <=
   (if (byte_val b =? 0xED)%Z then 0x9F else 0xBF))%Z ->
  (0x80 <= byte_val c2 <= 0xBF)%Z ->
  utf8_valid (b :: c1 :: c2 :: r) = utf8_valid r.
Proof.
  intros Hb H1 H2. cbn [utf8_valid]. rewrite (in_range_false b 0 0x7F), (in_range_false b 0xC2 0xDF) by lia.
  rewrite (proj2 (in_range_spec b _ _)) by lia. unfold cont.
  rewrite (proj2 (in_range_spec c1 _ _)), (proj2 (in_range_spec c2 _ _)) by lia. done.
Qed.

Lemma utf8_valid_1 b r : (byte_val b <= 0x7F)%Z -> utf8_valid (b :: r) = utf8_valid r.
Proof.
  intros Hb. pose proof (byte_val_range b). cbn [utf8_valid].
  by rewrite (proj2 (in_range_spec b _ _)) by lia.
Qed.

Lemma utf8_valid_4 b c1 c2 c3 r :
  (0xF0 <= byte_val b <= 0xF4)%Z ->
  ((if (byte_val b =? 0xF0)%Z then 0x90 else 0x80) <= byte_val c1 <=
   (if (byte_val b =? 0xF4)%Z then 0x8F else 0xBF))%Z ->
  (0x80 <= byte_val c2 <= 0xBF)%Z -> (0x80 <= byte_val c3 <= 0xBF)%Z ->
  utf8_valid (b :: c1 :: c2 :: c3 :: r) = utf8_valid r.
Proof.
  intros Hb H1 H2 H3. cbn [utf8_valid].
  rewrite (in_range_false b 0 0x7F), (in_range_false b 0xC2 0xDF), (in_range_false b 0xE0 0xEF) by lia.
  rewrite (proj2 (in_range_spec b _ _)) by lia. unfold cont.
  rewrite (proj2 (in_range_spec c1 _ _)), (proj2 (in_range_spec c2 _ _)), (proj2 (in_range_spec c3 _ _)) by lia.
  done.
Qed.

Lemma is_scalar_spec c : is_scalar c = true <-> (0 <= c <= 0x10FFFF /\ ~ (0xD800 <= c <= 0xDFFF))%Z.
Proof.
  unfold is_scalar. rewrite !andb_true_iff, negb_true_iff, andb_false_iff, !Z.leb_le, !Z.leb_gt. lia.
Qed.

(** [lia] after unfolding division and remainder by constants. *)
Ltac zlia := Z.div_mod_to_equations; lia.

Lemma utf8_valid_encode_cp c r :
  is_scalar c = true -> utf8_valid (utf8_encode_cp c ++ r) = utf8_valid r.
Proof.
  intros Hc%is_scalar_spec. unfold utf8_encode_cp.
  destruct (Z.ltb_spec c 0x80); [|destruct (Z.ltb_spec c 0x800); [|destruct (Z.ltb_spec c 0x10000)]];
    simpl.
  - apply utf8_valid_1. rewrite byte_val_of_Z_small; zlia.
  - apply utf8_valid_2; rewrite byte_val_of_Z_small; zlia.
  - apply utf8_valid_3; rewrite ?byte_val_of_Z_small by zlia; [zlia| |zlia].
    destruct (Z.eqb_spec (0xE0 + c / 4096) 0xE0); destruct (Z.eqb_spec (0xE0 + c / 4096) 0xED); zlia.
  - apply utf8_valid_4; rewrite ?byte_val_of_Z_small by zlia; [zlia| |zlia|zlia].
    destruct (Z.eqb_spec (0xF0 + c / 262144) 0xF0); destruct (Z.eqb_spec (0xF0 + c / 262144) 0xF4); zlia.
Qed.

(** An encoding computed from its bytes' ranges. *)
Ltac solve_cp :=
  unfold utf8_encode_cp;
  repeat (match goal with |- context [(?a <? ?b)%Z] => destruct (Z.ltb_spec a b) end; try (exfalso; zlia));
  repeat f_equal; apply byte_of_Z_eq; zlia.

Lemma utf8_encode_cons c cps : utf8_encode (c :: cps) = utf8_encode_cp c ++ utf8_encode cps.
Proof. reflexivity. Qed.

Ltac enc_cons l :=
  rewrite utf8_encode_cons;
  match goal with |- _ = utf8_encode_cp ?x ++ _ =>
    replace (utf8_encode_cp x) with l by (symmetry; solve_cp); reflexivity end.

Lemma utf8_valid_decode_aux n bs :
  (length bs < n)%nat -> utf8_valid bs = true ->
  exists cps, Forall (fun c => is_scalar c = true) cps /\ bs = utf8_encode cps.
Proof.
  revert bs. induction n as [|n IH]; intros bs Hl Hv; [lia|].
  destruct bs as [|b r]; [by exists []|]. simpl in Hl.
  pose proof (byte_val_range b) as Rb.
  simpl in Hv. destruct (in_range b 0x00 0x7F) eqn:A.
  { apply in_range_spec in A. destruct (IH r ltac:(lia) Hv) as (cps & Hs & ->).
    exists (byte_val b :: cps). split; [constructor; [apply is_scalar_spec; lia|done]|].
    enc_cons [b]. }
  destruct (in_range b 0xC2 0xDF) eqn:B.
  { apply in_range_spec in B. destruct r as [|c1 r]; [done|].
    apply andb_true_iff in Hv as [H1 Hv]. unfold cont in H1. apply in_range_spec in H1.
    simpl in Hl. destruct (IH r ltac:(lia) Hv) as (cps & Hs & ->).
    pose proof (byte_val_range c1).
    exists ((byte_val b - 0xC0) * 64 + (byte_val c1 - 0x80) :: cps)%Z.
    split; [constructor; [apply is_scalar_spec; lia|done]|].
    enc_cons [b; c1]. }
  destruct (in_range b 0xE0 0xEF) eqn:C.
  { apply in_range_spec in C. destruct r as [|c1 [|c2 r]]; try done.
    apply andb_true_iff in Hv as [[H1 H2]%andb_true_iff Hv]. unfold cont in H2.
    apply in_range_spec in H1, H2. simpl in Hl. destruct (IH r ltac:(lia) Hv) as (cps & Hs & ->).
    pose proof (byte_val_range c1). pose proof (byte_val_range c2).
    exists ((byte_val b - 0xE0) * 4096 + (byte_val c1 - 0x80) * 64 + (byte_val c2 - 0x80) :: cps)%Z.
    destruct (Z.eqb_spec (byte_val b) 0xE0), (Z.eqb_spec (byte_val b) 0xED).
    all: split; [constructor; [apply is_scalar_spec; lia|done]|].
    all: enc_cons [b; c1; c2]. }
  destruct (in_range b 0xF0 0xF4) eqn:D; [|done].
  apply in_range_spec in D. destruct r as [|c1 [|c2 [|c3 r]]]; try done.
  apply andb_true_iff in Hv as [[[H1 H2]%andb_true_iff H3]%andb_true_iff Hv]. unfold cont in H2, H3.
  apply in_range_spec in H1, H2, H3. simpl in Hl. destruct (IH r ltac:(lia) Hv) as (cps & Hs & ->).
  pose proof (byte_val_range c1). pose proof (byte_val_range c2). pose proof (byte_val_range c3).
  exists ((byte_val b - 0xF0) * 262144 + (byte_val c1 - 0x80) * 4096 + (byte_val c2 - 0x80) * 64
          + (byte_val c3 - 0x80) :: cps)%Z.
  destruct (Z.eqb_spec (byte_val b) 0xF0), (Z.eqb_spec (byte_val b) 0xF4).
  all: split; [constructor; [apply is_scalar_spec; lia|done]|].
  all: enc_cons [b; c1; c2; c3].
Qed.

(** C13: the strict decoder of [read()] accepts a byte string exactly
    when it is the UTF-8 encoding (Unicode Table 3-6) of a sequence of
    scalar values: [utf8_valid], written after the table of well-formed
    sequences, rejects overlong forms, surrogates and values past
    U+10FFFF and nothing else. *)
Theorem utf8_valid_encodings bs :
  utf8_valid bs = true <-> exists cps, Forall (fun c => is_scalar c = true) cps /\ bs = utf8_encode cps.
Proof.
  split; [apply (utf8_valid_decode_aux (S (length bs))); lia|].
  intros (cps & Hs & ->). induction Hs as [|c cps Hc _ IH]; [done|].
  unfold utf8_encode in *. simpl. by rewrite utf8_valid_encode_cp.
Qed.
