(* ===== verification/CpCfg.v ===== *)
(** * The configuration stager, [src/bertos/cpcfg.py]

    [cpcfg.py app_dir outname] copies the headers [app_dir/hw/*.h] and
    [app_dir/cfg/*.h] into [hw/] and [cfg/] beside [outname], hashes
    their text with SHA-256 in copy order, and keeps in [outname] the
    one-line sentinel [/* cfg+hw SHA256=<hex> */], rewriting it only when
    the digest changed.  The Section [Stager] models the script over any
    [hexdigest] meeting [Sha256Lib] and any directory order [listdir]
    ([os.scandir]'s order is the filesystem's); the theorems are proved
    for all of them and applied to [Sha256.hexdigest] and a concrete
    order in [Module Example].  [staged_path] bounds what any run may
    change, whatever the filesystem: [outname], [hw], [cfg] and the
    entries [hw/n], [cfg/n] for slash-free names [n]. *)

From stdpp Require Import base list strings gmap.
From Stdlib Require Import ZArith Lia.
From S2P Require Import Prelude PyFs Sha256 Py3Lib.

Local Open Scope py_scope.

(** The sentinel and the printed lines. *)
Definition sentinel (hex : string) : string :=
  ("/* cfg+hw SHA256=" ++ hex ++ " */" ++ String.String (Ascii.ascii_of_nat 10) "")%string.

Definition checking_line (app_dir : string) : string :=
  ("Checking hw+cfg from " ++ app_dir ++ "...")%string.

Definition copying_line (hex : string) : string :=
  ("Copying files, saving new SHA256: " ++ hex)%string.

Definition no_need_line (app_dir : string) : string :=
  ("No need to copy hw+cfg from " ++ app_dir)%string.

(** [try: os.mkdir(p) except FileExistsError: pass] (lines 33-41). *)
Definition mkdir_exist_ok (p : string) : PyM World unit :=
  try_except (mkdir p) (fun e => match e with OSError EEXIST _ => Some (ret tt) | _ => None end).

(** [try: open(p, 'r+') except FileNotFoundError: open(p, 'w+')]
    (lines 47-50). *)
Definition open_rw (p : string) : PyM World handle :=
  try_except (open_existing p)
    (fun e => match e with OSError ENOENT _ => Some (open_trunc p) | _ => None end).

Section Stager.
Context (hexdigest : bytes -> string) `{!Sha256Lib hexdigest}.
Context (listdir : World -> string -> list string).

(** [glob.glob(os.path.join(d, '*.h'))] (lines 25-26). *)
Definition glob (d : string) : PyM World (list string) :=
  fun w => (inr (glob_h (listdir w d) d), w).

(** The body of [copyfiles] (lines 12-16): copy, then read the source
    as text and feed it to the hash object.  [_f.close] names the method
    without calling it. *)
Definition copy_one (dest : string) (sha : bytes) (f : string) : PyM World bytes :=
  _ <- copy2 f dest ;;
  _f <- open_existing f ;;
  r <- read_text _f ;;
  ret (sha ++ fst r).

(** [copyfiles(files, dest, sha)] (lines 10-16); the hash object is
    the message fed to it so far. *)
Definition copyfiles (fs : list string) (dest : string) (sha : bytes) : PyM World bytes :=
  py_for (copy_one dest) fs sha.

(** Lines 52-62: compare the file's text with the new sentinel. *)
Definition update_sentinel (outfile : handle) (app_dir hex : string) : PyM World unit :=
  let new_sha := sentinel hex in
  old_sha <- read_text outfile ;;
  print (checking_line app_dir) ;;
  if bool_decide (fst old_sha = bytes_of_string new_sha) then print (no_need_line app_dir)
  else (print (copying_line hex) ;;
        truncate outfile 0 ;;
        outfile <- seek outfile 0 ;;
        _ <- write outfile (bytes_of_string new_sha) ;;
        ret tt).

(** The script (lines 18-62). *)
Definition cpcfg (argv : list string) : PyM World unit :=
  app_dir <- py_index argv 1 ;;
  outname <- py_index argv 2 ;;
  let build_dir := dirname outname in
  hw_files <- glob (join app_dir ["hw"]) ;;
  cfg_files <- glob (join app_dir ["cfg"]) ;;
  let sha256 := [] in
  let hw_dir := join build_dir ["hw"] in
  let cfg_dir := join build_dir ["cfg"] in
  mkdir_exist_ok hw_dir ;;
  mkdir_exist_ok cfg_dir ;;
  sha256 <- copyfiles hw_files hw_dir sha256 ;;
  sha256 <- copyfiles cfg_files cfg_dir sha256 ;;
  outfile <- open_rw outname ;;
  update_sentinel outfile app_dir (hexdigest sha256).

(** ** The stages of a run

    The directories of the globs and of the copies, the headers found,
    the worlds after the [mkdir]s, after the [hw] copies and after the
    [cfg] copies, and the message fed to the hash. *)
Definition hw_glob (app_dir : string) : string := join app_dir ["hw"].
Definition cfg_glob (app_dir : string) : string := join app_dir ["cfg"].
Definition hw_dir (outname : string) : string := join (dirname outname) ["hw"].
Definition cfg_dir (outname : string) : string := join (dirname outname) ["cfg"].

Definition hw_files (w : World) (app_dir : string) : list string :=
  glob_h (listdir w (hw_glob app_dir)) (hw_glob app_dir).
Definition cfg_files (w : World) (app_dir : string) : list string :=
  glob_h (listdir w (cfg_glob app_dir)) (cfg_glob app_dir).

(** The files after copying [fs] into [dest], one after the other. *)
Definition copy_all (w : World) (dest : string) (fs : list string) (m : gmap string bytes) :=
  fold_left (fun m f => <[copy_target w f dest := contents w f]> m) fs m.

(** The text of [fs], in order. *)
Definition texts (w : World) (fs : list string) : bytes :=
  concat (map (fun f => universal_newlines (contents w f)) fs).

Definition after_mkdir (w : World) (outname : string) : World :=
  set_dirs (union {[cfg_dir outname]}) (set_dirs (union {[hw_dir outname]}) w).
Definition after_hw (w : World) (app_dir outname : string) : World :=
  let w1 := after_mkdir w outname in set_files (copy_all w1 (hw_dir outname) (hw_files w app_dir)) w1.
Definition after_cfg (w : World) (app_dir outname : string) : World :=
  let w2 := after_hw w app_dir outname in set_files (copy_all w2 (cfg_dir outname) (cfg_files w app_dir)) w2.
Definition message (w : World) (app_dir outname : string) : bytes :=
  texts (after_mkdir w outname) (hw_files w app_dir) ++ texts (after_hw w app_dir outname) (cfg_files w app_dir).

Definition add_stdout (w : World) (l : list string) : World :=
  mkWorld (files w) (dirs w) (denied w) (stdout w ++ l).

(** The world a successful run leaves: the copies, and the sentinel
    rewritten unless the file's text already is the new sentinel. *)
Definition final_world (w : World) (app_dir outname : string) : World :=
  let w3 := after_cfg w app_dir outname in
  let hex := hexdigest (message w app_dir outname) in
  let new_sha := bytes_of_string (sentinel hex) in
  if bool_decide (universal_newlines (contents w3 outname) = new_sha)
  then add_stdout w3 [checking_line app_dir; no_need_line app_dir]
  else add_stdout (set_files (insert outname new_sha) w3) [checking_line app_dir; copying_line hex].

(** ** Conditions of a successful run *)

(** [f] can be copied into [dest] and read as text. *)
Definition copy_ok (w : World) (dest f : string) : Prop :=
  (f ∉ dirs w) /\ (f ∉ denied w) /\ creatable w (copy_target w f dest) /\
  match files w !! f with Some c => utf8_valid c = true | None => False end.

(** No copy overwrites a file of the list or the parent of a later
    target. *)
Definition separate (w : World) (dest : string) (fs : list string) : Prop :=
  Forall (fun g => Forall (fun f => f <> copy_target w g dest /\
                                    dirname (copy_target w f dest) <> copy_target w g dest) fs) fs.

(** [outname] opens with [r+] or [w+] and reads as text. *)
Definition out_ok (w : World) (p : string) : Prop :=
  (p ∉ dirs w) /\ (p ∉ denied w) /\
  match files w !! p with Some c => utf8_valid c = true | None => creatable w p end.

Definition stage_ok (w : World) (app_dir outname : string) : Prop :=
  dir_ready w (hw_dir outname) /\ dir_ready w (cfg_dir outname) /\
  Forall (copy_ok (after_mkdir w outname) (hw_dir outname)) (hw_files w app_dir) /\
  separate (after_mkdir w outname) (hw_dir outname) (hw_files w app_dir) /\
  Forall (copy_ok (after_hw w app_dir outname) (cfg_dir outname)) (cfg_files w app_dir) /\
  separate (after_hw w app_dir outname) (cfg_dir outname) (cfg_files w app_dir) /\
  out_ok (after_cfg w app_dir outname) outname.


#[export] Instance copy_ok_dec w dest f : Decision (copy_ok w dest f).
Proof. unfold copy_ok. destruct (files w !! f); apply _. Defined.
#[export] Instance separate_dec w dest fs : Decision (separate w dest fs).
Proof. unfold separate. apply _. Defined.
#[export] Instance out_ok_dec w p : Decision (out_ok w p).
Proof. unfold out_ok. destruct (files w !! p); apply _. Defined.
#[export] Instance stage_ok_dec w app_dir outname : Decision (stage_ok w app_dir outname).
Proof. unfold stage_ok. apply _. Defined.

(** ** Effects of the steps *)

Lemma mkdir_exist_ok_ok w p :
  dir_ready w p -> mkdir_exist_ok p w = (inr tt, set_dirs (union {[p]}) w).
Proof.
  intros Hr. unfold mkdir_exist_ok. destruct (decide (p ∈ dirs w)) as [Hd|Hd].
  - erewrite try_except_caught; [|by apply mkdir_exists|done]. by rewrite set_dirs_union_id.
  - by apply try_except_inr, mkdir_ok.
Qed.

(** C17: [os.mkdir] raises [FileExistsError] also when a plain file
    stands at the path, and lines 33-41 ignore it as if the directory
    existed; [copy2] then finds no directory there and copies onto the
    file itself.  So when a file [p] exists where [hw] (or [cfg]) should
    be created, the [mkdir] step succeeds without change and the next
    copy into [p] overwrites that file with the header's bytes; no
    directory is created. *)
Theorem mkdir_then_copy_onto_file p f c d w :
  creatable w p -> files w !! p = Some c ->
  files w !! f = Some d -> f ∉ dirs w -> f ∉ denied w -> f <> p ->
  (mkdir_exist_ok p ;; copy2 f p) w = (inr p, set_files (insert p d) w).
Proof.
  intros Hc Hp Hf Hfd Hfn Hne. pose proof Hc as (He & Hd & Hpf & Hpo & Hn).
  assert (Hm : mkdir_exist_ok p w = (inr tt, w)).
  { unfold mkdir_exist_ok, try_except, mkdir.
    rewrite !(bool_decide_eq_false_2 (_ = _)), (bool_decide_eq_false_2 (dirname p ∈ _)),
      Hpo, (bool_decide_eq_true_2 (p ∈ dom (files w))) by (done || by apply elem_of_dom).
    by rewrite orb_true_r. }
  rewrite (bind_inr _ _ _ _ _ Hm).
  assert (Ht : copy_target w f p = p) by (unfold copy_target; by rewrite bool_decide_eq_false_2).
  rewrite (copy2_ok w f p d), Ht; [done|done|done|done|by rewrite Ht|by rewrite Ht].
Qed.

Lemma open_rw_ok w p :
  out_ok w p ->
  open_rw p w = (inr (mkHandle p 0),
                 match files w !! p with Some _ => w | None => set_files (insert p []) w end).
Proof.
  intros (Hd & Hn & Hc). unfold open_rw. destruct (files w !! p) as [c|] eqn:E.
  - by apply try_except_inr, (open_existing_ok w p c).
  - rewrite (try_except_caught _ _ (open_trunc p) w (OSError ENOENT p) w);
      [by apply open_trunc_ok| |done].
    unfold open_existing. rewrite !bool_decide_eq_false_2 by done. by rewrite E.
Qed.

Lemma copy_one_ok dest sha f w c :
  files w !! f = Some c -> utf8_valid c = true -> f ∉ dirs w -> f ∉ denied w ->
  creatable w (copy_target w f dest) -> f <> copy_target w f dest ->
  copy_one dest sha f w =
    (inr (sha ++ universal_newlines c), set_files (insert (copy_target w f dest) c) w).
Proof.
  intros Hc Hv Hd Hn Ht Hne. unfold copy_one.
  set (w1 := set_files (insert (copy_target w f dest) c) w).
  assert (Hc1 : files w1 !! f = Some c) by (cbn [files set_files w1]; by rewrite lookup_insert_ne).
  rewrite (bind_inr _ _ _ _ _ (copy2_ok w f dest c Hc Hd Hn Ht Hne)). cbv beta.
  rewrite (bind_inr _ _ _ _ _ (open_existing_ok w1 f c Hd Hn Hc1)). cbv beta.
  by rewrite (bind_inr _ _ _ _ _ (read_text_ok w1 f c Hc1 Hv)).
Qed.

(** [copy2] refuses to copy a file onto itself. *)
Lemma copy_one_same dest sha f w :
  copy_target w f dest = f -> exists_path w f = true ->
  copy_one dest sha f w = (inl (SameFileError f f), w).
Proof.
  intros Ht He. unfold copy_one, copy2, bind, get_st. simpl.
  rewrite Ht, bool_decide_eq_true_2, He by done. reflexivity.
Qed.

(** A header that is not UTF-8 is copied, then [read()] raises. *)
Lemma copy_one_decode dest sha f w c :
  files w !! f = Some c -> utf8_valid c = false -> f ∉ dirs w -> f ∉ denied w ->
  creatable w (copy_target w f dest) -> f <> copy_target w f dest ->
  copy_one dest sha f w =
    (inl (UnicodeDecodeError f), set_files (insert (copy_target w f dest) c) w).
Proof.
  intros Hc Hv Hd Hn Ht Hne. unfold copy_one.
  set (w1 := set_files (insert (copy_target w f dest) c) w).
  assert (Hc1 : files w1 !! f = Some c) by (cbn [files set_files w1]; by rewrite lookup_insert_ne).
  rewrite (bind_inr _ _ _ _ _ (copy2_ok w f dest c Hc Hd Hn Ht Hne)). cbv beta.
  rewrite (bind_inr _ _ _ _ _ (open_existing_ok w1 f c Hd Hn Hc1)). cbv beta.
  by rewrite (bind_inl _ _ _ _ _ (read_text_fail w1 f c Hc1 Hv)).
Qed.

(** Two worlds with the same directories and the same contents on [fs]
    copy and read [fs] alike. *)
Lemma copy_all_ext w w' dest fs m :
  dirs w' = dirs w -> Forall (fun g => contents w' g = contents w g) fs ->
  copy_all w' dest fs m = copy_all w dest fs m.
Proof.
  intros Hd Hc. assert (Ht : forall f, copy_target w' f dest = copy_target w f dest)
    by (intros f; unfold copy_target; by rewrite Hd).
  revert m. induction Hc as [|g fs Hg _ IH]; intros m; [done|].
  unfold copy_all; simpl. rewrite Hg, Ht. apply IH.
Qed.

Lemma texts_ext w w' fs :
  Forall (fun g => contents w' g = contents w g) fs -> texts w' fs = texts w fs.
Proof. induction 1 as [|g fs Hg _ IH]; [done|]. unfold texts in *; simpl. by rewrite Hg, IH. Qed.

(** [copyfiles] copies the list in order and feeds the hash with the
    texts in order. *)
Lemma copyfiles_ok fs dest sha w :
  Forall (copy_ok w dest) fs -> separate w dest fs ->
  copyfiles fs dest sha w = (inr (sha ++ texts w fs), set_files (copy_all w dest fs) w).
Proof.
  revert sha w. induction fs as [|f fs IH]; intros sha w Hok Hsep.
  { unfold texts; simpl. rewrite app_nil_r. by destruct w. }
  apply Forall_cons in Hok as [(Hd & Hn & Ht & Hc) Hok].
  destruct (files w !! f) as [c|] eqn:Ec; [|done].
  unfold separate in Hsep. apply Forall_cons in Hsep as [Hf Hsep].
  apply Forall_cons in Hf as [[Hne _] Hf].
  unfold copyfiles; simpl. rewrite (bind_inr _ _ _ _ _ (copy_one_ok dest sha f w c Ec Hc Hd Hn Ht Hne)).
  set (w1 := set_files (insert (copy_target w f dest) c) w).
  assert (Hsame : Forall (fun g => contents w1 g = contents w g) fs).
  { apply Forall_forall. intros g Hg. apply Forall_forall with (x := g) in Hf as [Hg' _]; [|done].
    unfold w1. rewrite contents_set_files_insert. by case_decide. }
  assert (Hsep' : separate w1 dest fs).
  { eapply Forall_impl; [exact Hsep|]. intros g Hg. by apply Forall_cons in Hg as [_ Hg]. }
  assert (Hok' : Forall (copy_ok w1 dest) fs).
  { apply Forall_forall. intros g Hg.
    destruct (proj1 (Forall_forall _ _) Hok g Hg) as (Hd' & Hn' & Ht' & Hc').
    destruct (proj1 (Forall_forall _ _) Hf g Hg) as [Hgt Hdt].
    refine (conj Hd' (conj Hn' (conj _ _))); [by apply creatable_set_files|].
    cbn [files set_files w1]. by rewrite lookup_insert_ne. }
  unfold copyfiles in IH. rewrite (IH _ w1 Hok' Hsep').
  rewrite (texts_ext w w1 fs Hsame). f_equal.
  - unfold texts; simpl. by rewrite (contents_lookup w f c Ec), app_assoc.
  - unfold set_files at 1. rewrite (copy_all_ext w w1 dest fs _ eq_refl Hsame).
    unfold w1, copy_all; simpl. by rewrite (contents_lookup w f c Ec).
Qed.

Lemma update_sentinel_ok w p c app_dir hex :
  files w !! p = Some c -> utf8_valid c = true ->
  update_sentinel (mkHandle p 0) app_dir hex w =
    (inr tt, let new_sha := bytes_of_string (sentinel hex) in
             if bool_decide (universal_newlines c = new_sha)
             then add_stdout w [checking_line app_dir; no_need_line app_dir]
             else add_stdout (set_files (insert p new_sha) w) [checking_line app_dir; copying_line hex]).
Proof.
  intros Hc Hv. unfold update_sentinel.
  py_step (read_text_ok w p c Hc Hv). cbn [fst].
  py_step print_ok. cbv zeta. case_bool_decide as E.
  - rewrite print_ok. unfold add_stdout. simpl. by rewrite <- app_assoc.
  - unfold bind, print, truncate, seek, write, ret, add_stdout, set_files, contents; simpl.
    rewrite lookup_insert_eq. unfold overwrite. simpl.
    by rewrite insert_insert_eq, ?drop_nil, ?app_nil_r, <- app_assoc.
Qed.

(** The run up to the copies: the globs, then the [mkdir]s. *)
Lemma cpcfg_prefix prog app_dir outname rest w :
  dir_ready w (hw_dir outname) -> dir_ready w (cfg_dir outname) ->
  cpcfg (prog :: app_dir :: outname :: rest) w =
    (sha256 <- copyfiles (hw_files w app_dir) (hw_dir outname) [] ;;
     sha256 <- copyfiles (cfg_files w app_dir) (cfg_dir outname) sha256 ;;
     outfile <- open_rw outname ;;
     update_sentinel outfile app_dir (hexdigest sha256)) (after_mkdir w outname).
Proof.
  intros Hhw Hcfg. unfold cpcfg. cbn [py_index lookup list_lookup]. rewrite !bind_ret_l.
  py_step (eq_refl : glob (join app_dir ["hw"]) w = _).
  py_step (eq_refl : glob (join app_dir ["cfg"]) w = _).
  py_step (mkdir_exist_ok_ok w _ Hhw).
  py_step mkdir_exist_ok_ok; [done|by apply dir_ready_set_dirs].
Qed.

(** A run under [stage_ok] ends in [final_world]. *)
Lemma cpcfg_run prog app_dir outname rest w :
  stage_ok w app_dir outname ->
  cpcfg (prog :: app_dir :: outname :: rest) w = (inr tt, final_world w app_dir outname).
Proof.
  intros (Hhw & Hcfg & Hok1 & Hsep1 & Hok2 & Hsep2 & Hout).
  rewrite (cpcfg_prefix _ _ _ _ _ Hhw Hcfg).
  py_step (copyfiles_ok _ _ [] _ Hok1 Hsep1).
  py_step (copyfiles_ok _ _ ([] ++ texts (after_mkdir w outname) (hw_files w app_dir)) _ Hok2 Hsep2).
  py_step (open_rw_ok _ _ Hout).
  fold (after_mkdir w outname) (after_hw w app_dir outname) (after_cfg w app_dir outname).
  fold (message w app_dir outname). unfold final_world.
  destruct Hout as (_ & _ & Hc). destruct (files (after_cfg w app_dir outname) !! outname) as [c|] eqn:E.
  - rewrite (update_sentinel_ok _ _ c _ _ E Hc). by rewrite (contents_lookup _ _ _ E).
  - rewrite (update_sentinel_ok _ _ [] _ _ (lookup_set_files_insert _ _ _) eq_refl).
    unfold contents. rewrite E. simpl. by rewrite set_files_insert_insert.
Qed.

Lemma bytes_of_string_app a b : bytes_of_string (a ++ b)%string = bytes_of_string a ++ bytes_of_string b.
Proof. unfold bytes_of_string. by rewrite list_ascii_of_string_app, map_app. Qed.

(** The sentinel is plain ASCII: it reads back as written. *)
Lemma sentinel_plain m : forallb plain_byte (bytes_of_string (sentinel (hexdigest m))) = true.
Proof.
  assert (Hh : forallb plain_byte (bytes_of_string (hexdigest m)) = true).
  { unfold bytes_of_string. apply forallb_forall. intros b (c & <- & Hc)%in_map_iff.
    apply hex_digit_plain, orb_true_iff. right.
    pose proof (hexdigest_hex m) as Hx. rewrite Forall_forall in Hx. by apply Hx, list_elem_of_In. }
  unfold sentinel. rewrite !bytes_of_string_app, !forallb_app, Hh. reflexivity.
Qed.

Lemma files_add_stdout w l : files (add_stdout w l) = files w.
Proof. reflexivity. Qed.

(** After a successful run, [outname] holds well-formed UTF-8 whose
    text is the sentinel of the message. *)
Lemma final_world_text w app_dir outname :
  out_ok (after_cfg w app_dir outname) outname ->
  exists c, files (final_world w app_dir outname) !! outname = Some c /\ utf8_valid c = true /\
            universal_newlines c = bytes_of_string (sentinel (hexdigest (message w app_dir outname))).
Proof.
  intros (_ & _ & Hc).
  destruct (plain_text _ (sentinel_plain (message w app_dir outname))) as [Hv Hu].
  unfold final_world. case_bool_decide as E.
  - destruct (files (after_cfg w app_dir outname) !! outname) as [c|] eqn:Ec;
      [|by unfold contents in E; rewrite Ec in E].
    rewrite (contents_lookup _ _ _ Ec) in E. by exists c.
  - eexists. split; [apply lookup_insert_eq|done].
Qed.

(** C6: a run under [stage_ok] succeeds with the world [final_world]:
    the headers of [app_dir/hw] then [app_dir/cfg] copied in glob
    order, the two lines printed, and [outname] holding a text that
    reads back as the sentinel [/* cfg+hw SHA256=<hex> */] of the
    concatenated texts of the headers, whether it was rewritten or
    already held it. *)
Theorem cpcfg_ok prog app_dir outname rest w :
  stage_ok w app_dir outname ->
  cpcfg (prog :: app_dir :: outname :: rest) w = (inr tt, final_world w app_dir outname) /\
  exists h, read_text (mkHandle outname 0) (final_world w app_dir outname) =
    (inr (bytes_of_string (sentinel (hexdigest (message w app_dir outname))), h),
     final_world w app_dir outname).
Proof.
  intros Hst. split; [by apply cpcfg_run|].
  destruct Hst as (_ & _ & _ & _ & _ & _ & Hout).
  destruct (final_world_text _ _ _ Hout) as (c & Hc & Hv & Hu).
  eexists. by rewrite (read_text_ok _ _ c Hc Hv), Hu.
Qed.

(** C28: with fewer than two arguments, [sys.argv[1]] or [sys.argv[2]]
    raises [IndexError] before anything is touched. *)
Theorem cpcfg_args argv w :
  (length argv < 3)%nat -> cpcfg argv w = (inl IndexError, w).
Proof. intros H. destruct argv as [|a [|b [|c argv]]]; simpl in H; try lia; reflexivity. Qed.

(** C27: [os.mkdir] is not recursive: when the directory of [outname]
    does not exist, creating [hw] raises [FileNotFoundError] and the run
    stops before any copy. *)
Theorem cpcfg_missing_build_dir prog app_dir outname rest w :
  hw_dir outname <> ""%string -> (dirname (hw_dir outname) ∉ dom (files w)) ->
  parent_ok w (hw_dir outname) = false ->
  cpcfg (prog :: app_dir :: outname :: rest) w = (inl (OSError ENOENT (hw_dir outname)), w).
Proof.
  intros He Hf Hp. unfold cpcfg. cbn [py_index lookup list_lookup]. rewrite !bind_ret_l.
  py_step (eq_refl : glob (join app_dir ["hw"]) w = _).
  py_step (eq_refl : glob (join app_dir ["cfg"]) w = _).
  apply bind_inl. unfold mkdir_exist_ok, try_except, mkdir.
  fold (hw_dir outname). rewrite !bool_decide_eq_false_2 by done. by rewrite Hp.
Qed.

Lemma hw_dir_after_mkdir w outname : hw_dir outname ∈ dirs (after_mkdir w outname).
Proof. unfold after_mkdir, set_dirs; simpl. set_solver. Qed.

(** C9: when [outname] sits in [app_dir] itself, the copy directory
    [hw] is the glob directory: the first header found is copied onto
    itself and [shutil.SameFileError] stops the run, after the
    [mkdir]s and before any copy. *)
Theorem cpcfg_same_dir prog app_dir outname rest w n ns c :
  dirname outname = app_dir ->
  dir_ready w (hw_dir outname) -> dir_ready w (cfg_dir outname) ->
  filter (fun n => negb (hidden n) && match_star_h n) (listdir w (hw_glob app_dir)) = n :: ns ->
  plain_name n = true ->
  files w !! join2 (hw_glob app_dir) n = Some c ->
  cpcfg (prog :: app_dir :: outname :: rest) w =
    (inl (SameFileError (join2 (hw_glob app_dir) n) (join2 (hw_glob app_dir) n)), after_mkdir w outname).
Proof.
  intros Hb Hhw Hcfg Hl Hn Hc. rewrite (cpcfg_prefix _ _ _ _ _ Hhw Hcfg).
  assert (Hm : match_star_h n = true).
  { assert (Hin : n ∈ filter (fun n => negb (hidden n) && match_star_h n) (listdir w (hw_glob app_dir)))
      by (rewrite Hl; left).
    apply list_elem_of_filter in Hin as [Hin _]. destruct (match_star_h n); [done|].
    by rewrite andb_false_r in Hin. }
  assert (Hne : n <> ""%string) by (intros ->; discriminate).
  unfold hw_files, glob_h. rewrite Hl. simpl.
  apply bind_inl. unfold copyfiles; simpl. apply bind_inl, copy_one_same.
  - unfold copy_target. rewrite bool_decide_eq_true_2 by apply hw_dir_after_mkdir.
    rewrite basename_join2 by done. unfold hw_dir, hw_glob. by rewrite Hb.
  - unfold exists_path. rewrite bool_decide_eq_true_2; [done|]. cbn [files after_mkdir set_dirs].
    by apply elem_of_dom.
Qed.

(** C26: the copy comes before the read: a header that is not UTF-8 is
    copied into [hw], then [read()] raises [UnicodeDecodeError] and no
    sentinel is written. *)
Theorem cpcfg_decode_error prog app_dir outname rest w f fs c :
  dir_ready w (hw_dir outname) -> dir_ready w (cfg_dir outname) ->
  hw_files w app_dir = f :: fs ->
  files w !! f = Some c -> utf8_valid c = false -> f ∉ dirs (after_mkdir w outname) -> f ∉ denied w ->
  creatable (after_mkdir w outname) (copy_target (after_mkdir w outname) f (hw_dir outname)) ->
  f <> copy_target (after_mkdir w outname) f (hw_dir outname) ->
  cpcfg (prog :: app_dir :: outname :: rest) w =
    (inl (UnicodeDecodeError f),
     set_files (insert (copy_target (after_mkdir w outname) f (hw_dir outname)) c) (after_mkdir w outname)).
Proof.
  intros Hhw Hcfg Hl Hc Hv Hd Hn Ht Hne. rewrite (cpcfg_prefix _ _ _ _ _ Hhw Hcfg), Hl.
  apply bind_inl. unfold copyfiles; simpl. apply bind_inl. by apply copy_one_decode.
Qed.

Lemma contents_fmap w g p : contents (set_files (fmap g) w) p = default [] (g <$> files w !! p).
Proof. unfold contents. cbn [files set_files]. by rewrite lookup_fmap. Qed.

(** C10: the digest ignores the line-ending style: on headers without
    ["\r"], writing every line ending as CRLF leaves the text fed to
    the hash unchanged, since [read()] translates it back (the copies,
    which are byte-exact, do change). *)
Theorem copyfiles_crlf fs dest sha w :
  Forall (copy_ok w dest) fs -> separate w dest fs ->
  Forall (fun f => forallb (fun b => negb (Byte.eqb b Byte.x0d)) (contents w f) = true) fs ->
  fst (copyfiles fs dest sha (set_files (fmap crlf) w)) = fst (copyfiles fs dest sha w).
Proof.
  intros Hok Hsep Hcr. set (w' := set_files (fmap crlf) w).
  assert (Hok' : Forall (copy_ok w' dest) fs).
  { eapply Forall_impl; [exact Hok|]. intros f (Hd & Hn & Ht & Hc).
    refine (conj Hd (conj Hn (conj _ _))).
    - unfold creatable in *. cbn [files set_files w']. by rewrite dom_fmap_L.
    - cbn [files set_files w']. rewrite lookup_fmap.
      destruct (files w !! f); [|done]. by apply utf8_valid_crlf. }
  rewrite (copyfiles_ok _ _ _ w' Hok' Hsep), (copyfiles_ok _ _ _ w Hok Hsep). simpl.
  unfold texts. do 3 f_equal. apply map_ext_Forall. eapply Forall_impl; [exact Hcr|].
  intros f Hf. unfold w'. rewrite contents_fmap, (universal_newlines_id (contents w f) Hf).
  unfold contents in *. destruct (files w !! f); simpl in *; [by apply universal_newlines_crlf|done].
Qed.

(** ** Running again *)

(** The paths a run writes: the copy targets of both [copyfiles]. *)
Definition targets (w : World) (app_dir outname : string) : list string :=
  map (fun f => copy_target (after_mkdir w outname) f (hw_dir outname)) (hw_files w app_dir) ++
  map (fun f => copy_target (after_hw w app_dir outname) f (cfg_dir outname)) (cfg_files w app_dir).

Lemma copy_all_union w d fs m : copy_all w d fs m = copy_all w d fs ∅ ∪ m.
Proof.
  revert m. induction fs as [|f fs IH]; intros m.
  { unfold copy_all; simpl. by rewrite (left_id_L ∅ union). }
  unfold copy_all in *; simpl. rewrite IH, (IH (<[_:=_]> ∅)), <- map_union_assoc.
  by rewrite insert_empty, insert_union_singleton_l.
Qed.

Lemma copy_all_lookup_ne w d fs m g :
  g ∉ map (fun f => copy_target w f d) fs -> copy_all w d fs m !! g = m !! g.
Proof.
  revert m. induction fs as [|f fs IH]; intros m Hg; [done|].
  simpl in Hg. rewrite not_elem_of_cons in Hg. destruct Hg as [Hg Hgs].
  unfold copy_all in *; simpl. rewrite IH by done. by rewrite lookup_insert_ne.
Qed.

Lemma contents_after_cfg w app_dir outname g :
  g ∉ targets w app_dir outname -> contents (after_cfg w app_dir outname) g = contents w g.
Proof.
  unfold targets. rewrite elem_of_app. intros Hg. unfold contents, after_cfg, after_hw.
  cbn [files set_files after_mkdir set_dirs]. rewrite !copy_all_lookup_ne; [done| |].
  - intros ?. apply Hg. by left.
  - intros ?. apply Hg. by right.
Qed.

Definition hw_copies (w : World) (app_dir outname : string) : gmap string bytes :=
  copy_all (after_mkdir w outname) (hw_dir outname) (hw_files w app_dir) ∅.
Definition cfg_copies (w : World) (app_dir outname : string) : gmap string bytes :=
  copy_all (after_hw w app_dir outname) (cfg_dir outname) (cfg_files w app_dir) ∅.

Lemma files_after_hw w app_dir outname :
  files (after_hw w app_dir outname) = hw_copies w app_dir outname ∪ files w.
Proof. unfold after_hw. cbn [files set_files]. by rewrite copy_all_union. Qed.

Lemma files_after_cfg w app_dir outname :
  files (after_cfg w app_dir outname) = cfg_copies w app_dir outname ∪ (hw_copies w app_dir outname ∪ files w).
Proof. unfold after_cfg. cbn [files set_files]. by rewrite copy_all_union, files_after_hw. Qed.

Lemma copies_target w app_dir outname g x :
  (cfg_copies w app_dir outname ∪ hw_copies w app_dir outname) !! g = Some x ->
  g ∈ targets w app_dir outname.
Proof.
  intros Hg. destruct (decide (g ∈ targets w app_dir outname)) as [|Hn]; [done|].
  unfold targets in Hn. rewrite elem_of_app in Hn. exfalso.
  rewrite lookup_union_None_2 in Hg; [done| |].
  - unfold cfg_copies. rewrite copy_all_lookup_ne; [done|]. intros ?. apply Hn. by right.
  - unfold hw_copies. rewrite copy_all_lookup_ne; [done|]. intros ?. apply Hn. by left.
Qed.

Lemma world_eq (x y : World) :
  files x = files y -> dirs x = dirs y -> denied x = denied y -> stdout x = stdout y -> x = y.
Proof. destruct x, y; simpl. congruence. Qed.

(** A world [W] that agrees with the world after the copies of a run
    from [w] everywhere but at [outname], with the same directories and
    the same listings, makes the same copies and hashes the same text:
    the stages of a run from [W] change nothing. *)
Section Rerun.
Context (w W : World) (app_dir outname : string).
Hypothesis Hdirs : dirs W = dirs (after_mkdir w outname).
Hypothesis Hhw : hw_files W app_dir = hw_files w app_dir.
Hypothesis Hcfg : cfg_files W app_dir = cfg_files w app_dir.
Hypothesis Hfiles : forall g, g <> outname -> files W !! g = files (after_cfg w app_dir outname) !! g.
Hypothesis Hsrc : Forall (fun f => (f ∉ targets w app_dir outname) /\ f <> outname)
                         (hw_files w app_dir ++ cfg_files w app_dir).

Lemma rerun_contents f :
  f ∈ hw_files w app_dir ++ cfg_files w app_dir -> contents W f = contents w f.
Proof.
  intros Hf. rewrite Forall_forall in Hsrc. destruct (Hsrc f Hf) as [Ht Ho].
  unfold contents at 1. rewrite Hfiles by done. fold (contents (after_cfg w app_dir outname) f).
  by apply contents_after_cfg.
Qed.

Lemma rerun_dirs : dirs (after_mkdir W outname) = dirs (after_mkdir w outname).
Proof. cbn [after_mkdir set_dirs dirs]. rewrite Hdirs. cbn [after_mkdir set_dirs dirs]. set_solver. Qed.

Lemma rerun_hw_copies : hw_copies W app_dir outname = hw_copies w app_dir outname.
Proof.
  unfold hw_copies. rewrite Hhw. apply copy_all_ext; [apply rerun_dirs|].
  apply Forall_forall. intros f Hf. apply rerun_contents, elem_of_app. by left.
Qed.

Lemma rerun_contents_hw f :
  f ∈ cfg_files w app_dir -> contents (after_hw W app_dir outname) f = contents (after_hw w app_dir outname) f.
Proof.
  intros Hf. assert (Hf' : f ∈ hw_files w app_dir ++ cfg_files w app_dir) by (apply elem_of_app; by right).
  pose proof Hsrc as Hs. rewrite Forall_forall in Hs. destruct (Hs f Hf') as [Ht _].
  unfold targets in Ht. rewrite elem_of_app in Ht.
  assert (Hn : hw_copies w app_dir outname !! f = None).
  { unfold hw_copies. rewrite copy_all_lookup_ne; [done|]. intros ?. apply Ht. by left. }
  unfold contents. rewrite !files_after_hw, rerun_hw_copies, !lookup_union_r by done.
  by apply rerun_contents.
Qed.

Lemma rerun_cfg_copies : cfg_copies W app_dir outname = cfg_copies w app_dir outname.
Proof.
  unfold cfg_copies. rewrite Hcfg. apply copy_all_ext; [apply rerun_dirs|].
  apply Forall_forall. intros f Hf. by apply rerun_contents_hw.
Qed.

Lemma rerun_message : message W app_dir outname = message w app_dir outname.
Proof.
  unfold message. rewrite Hhw, Hcfg. f_equal; apply texts_ext, Forall_forall; intros f Hf.
  - apply rerun_contents, elem_of_app. by left.
  - by apply rerun_contents_hw.
Qed.

Hypothesis Hout : outname ∉ targets w app_dir outname.

Lemma rerun_files : files (after_cfg W app_dir outname) = files W.
Proof.
  apply map_eq. intros g. rewrite files_after_cfg, rerun_hw_copies, rerun_cfg_copies, map_union_assoc.
  rewrite lookup_union. destruct ((cfg_copies w app_dir outname ∪ hw_copies w app_dir outname) !! g) as [x|] eqn:E.
  - assert (Hg : g <> outname) by (intros ->; by apply Hout, (copies_target _ _ _ _ x)).
    rewrite Hfiles, files_after_cfg, map_union_assoc, lookup_union, E by done.
    by destruct (files w !! g).
  - by rewrite (left_id_L None union).
Qed.

Lemma rerun_after_cfg : after_cfg W app_dir outname = W.
Proof.
  apply world_eq; [apply rerun_files| |done|done].
  cbn [after_cfg after_hw after_mkdir set_files set_dirs dirs]. rewrite Hdirs.
  cbn [after_mkdir set_dirs dirs]. set_solver.
Qed.

End Rerun.

(** C7: running the stager again on the world a successful run left,
    with the same directory listings and no header among the paths the
    run writes, prints "No need to copy" and changes no file: the
    sentinel does its job.  The second run's own conditions are
    [stage_ok] of the new world. *)
Theorem cpcfg_idempotent prog app_dir outname rest w :
  stage_ok w app_dir outname ->
  stage_ok (final_world w app_dir outname) app_dir outname ->
  listdir (final_world w app_dir outname) (hw_glob app_dir) = listdir w (hw_glob app_dir) ->
  listdir (final_world w app_dir outname) (cfg_glob app_dir) = listdir w (cfg_glob app_dir) ->
  Forall (fun f => (f ∉ targets w app_dir outname) /\ f <> outname) (hw_files w app_dir ++ cfg_files w app_dir) ->
  outname ∉ targets w app_dir outname ->
  cpcfg (prog :: app_dir :: outname :: rest) (final_world w app_dir outname) =
    (inr tt, add_stdout (final_world w app_dir outname) [checking_line app_dir; no_need_line app_dir]).
Proof.
  intros Hst Hst' Hl1 Hl2 Hsrc Hout.
  destruct Hst as (_ & _ & _ & _ & _ & _ & Hok).
  destruct (final_world_text _ _ _ Hok) as (c & Hc & _ & Hu).
  set (W := final_world w app_dir outname) in *.
  assert (Hdirs : dirs W = dirs (after_mkdir w outname)) by (unfold W, final_world; by case_bool_decide).
  assert (Hhw : hw_files W app_dir = hw_files w app_dir) by (unfold hw_files; by rewrite Hl1).
  assert (Hcfg : cfg_files W app_dir = cfg_files w app_dir) by (unfold cfg_files; by rewrite Hl2).
  assert (Hfiles : forall g, g <> outname -> files W !! g = files (after_cfg w app_dir outname) !! g).
  { intros g Hg. unfold W, final_world. case_bool_decide; [done|]. by apply lookup_insert_ne. }
  rewrite (cpcfg_run _ _ _ _ _ Hst'). unfold final_world at 1.
  rewrite (rerun_after_cfg w W app_dir outname Hdirs Hhw Hcfg Hfiles Hsrc Hout),
    (rerun_message w W app_dir outname Hdirs Hhw Hcfg Hfiles Hsrc).
  rewrite bool_decide_eq_true_2; [done|]. by rewrite (contents_lookup _ _ _ Hc).
Qed.

(** ** What a run may change

    Whatever the arguments and the filesystem, a run only creates the
    directories [hw] and [cfg] beside [outname], writes copies into them
    (or onto them, when one of them is a plain file, see
    [cpcfg_hw_file_clobbered]) and writes [outname].  A copy lands on
    [hw/n] for the base name [n] of its source, which holds no slash,
    so absolute names cannot escape the directory. *)
(** [p] is an entry of the directory [d]: [d/n] for a name [n] without
    slash. *)
Definition entry_of (d p : string) : Prop :=
  exists n, plain_name n = true /\ p = (d ++ String.String (Ascii.ascii_of_nat 47) n)%string.

Definition staged_path (outname p : string) : Prop :=
  p = outname \/ p = hw_dir outname \/ p = cfg_dir outname \/
  entry_of (hw_dir outname) p \/ entry_of (cfg_dir outname) p.

Definition staged_world (outname : string) (w w' : World) : Prop :=
  denied w' = denied w /\ dirs w ⊆ dirs w' ⊆ dirs w ∪ {[hw_dir outname; cfg_dir outname]} /\
  forall p, ~ staged_path outname p -> files w' !! p = files w !! p.

Section StagerFrame.
Context (o : string).

(** [hw] and [cfg] beside [outname] end in a name, not in a slash. *)
Lemma stage_dir_shape dest :
  dest = hw_dir o \/ dest = cfg_dir o -> dest <> ""%string /\ ends_slash dest = false.
Proof. intros [-> | ->]; by apply join2_name. Qed.

(** [copy2] into [hw] or [cfg] writes the directory's entry for the
    source, or the path itself when it is no directory. *)
Lemma copy_target_staged w f dest :
  dest = hw_dir o \/ dest = cfg_dir o -> staged_path o (copy_target w f dest).
Proof.
  intros Hd. destruct (stage_dir_shape dest Hd) as [Hne He]. unfold copy_target, staged_path.
  case_bool_decide; [|destruct Hd as [-> | ->]; tauto].
  rewrite join2_plain by (done || apply plain_basename).
  assert (Hn : entry_of dest (dest ++ String.String (Ascii.ascii_of_nat 47) (basename f))%string)
    by (exists (basename f); split; [apply plain_basename|done]).
  destruct Hd as [<- | <-]; tauto.
Qed.

Lemma staged_world_keeps w w1 w2 :
  staged_world o w w1 -> keeps (fun p => ~ staged_path o p) w1 w2 -> staged_world o w w2.
Proof.
  intros (N1 & D1 & F1) (D2 & N2 & F2). unfold staged_world. rewrite D2, N2. split; [done|split; [done|]].
  intros p Hp. by rewrite F2, F1.
Qed.

(** [os.mkdir] with [FileExistsError] ignored creates its directory or
    changes nothing. *)
Lemma staged_world_mkdir w w1 p :
  staged_world o w w1 -> p = hw_dir o \/ p = cfg_dir o ->
  staged_world o w (snd (mkdir_exist_ok p w1)).
Proof.
  intros Hw Hp.
  assert (E : snd (mkdir_exist_ok p w1) = w1 \/ snd (mkdir_exist_ok p w1) = set_dirs (union {[p]}) w1).
  { unfold mkdir_exist_ok, try_except, mkdir.
    repeat (case_bool_decide || case_match); simplify_eq/=; auto. }
  destruct E as [-> | ->]; [done|]. destruct Hw as (N1 & D1 & F1).
  split; [done|split; [|done]]. simpl. destruct Hp as [-> | ->]; set_solver.
Qed.

Lemma frame_copyfiles fs dest sha :
  dest = hw_dir o \/ dest = cfg_dir o ->
  frame (fun p => ~ staged_path o p) (fun _ => True) (copyfiles fs dest sha).
Proof.
  intros Hd. unfold copyfiles. apply frame_py_for; [|done]. intros s f _. unfold copy_one.
  eapply frame_bind; [apply frame_copy2; intros w Hp; by apply Hp, copy_target_staged|].
  intros _ _. eapply frame_bind; [apply frame_open_existing|]. intros h _.
  eapply frame_bind; [apply frame_read_text|]. intros. by apply frame_ret.
Qed.

Lemma frame_open_rw : frame (fun p => ~ staged_path o p) (fun h => h_path h = o) (open_rw o).
Proof.
  unfold open_rw. apply frame_try_except; [apply frame_open_existing|].
  intros [] h; try discriminate. case_match; intros [= <-]; try discriminate.
  apply frame_open_trunc. intros Hp. apply Hp. by left.
Qed.

Lemma frame_update_sentinel h app_dir hex :
  h_path h = o -> frame (fun p => ~ staged_path o p) (fun _ => True) (update_sentinel h app_dir hex).
Proof.
  intros Hh. assert (Hs : ~ ~ staged_path o (h_path h)) by (rewrite Hh; intros Hp; apply Hp; by left).
  unfold update_sentinel. eapply frame_bind; [apply frame_read_text|]. intros r _.
  eapply frame_bind; [apply frame_print|]. intros _ _. apply frame_if; [apply frame_print|].
  eapply frame_bind; [apply frame_print|]. intros _ _.
  eapply frame_bind; [by apply frame_truncate|]. intros _ _.
  eapply frame_bind; [apply frame_seek|]. intros h' E'.
  eapply frame_bind; [apply frame_write; by rewrite E'|]. intros. by apply frame_ret.
Qed.
End StagerFrame.

(** C14: on any arguments with an [outname] and any filesystem, the
    stager changes no permission, only adds the directories [hw] and
    [cfg] beside [outname], and changes no file but [outname], [hw],
    [cfg] and the entries [hw/n] and [cfg/n] ([n] without slash): a
    header of the app, which lies in [app_dir/hw] or [app_dir/cfg], is
    never written unless that directory is [hw] or [cfg] itself or the
    header is [outname]. *)
Theorem cpcfg_frame argv o w :
  argv !! 2 = Some o -> staged_world o w (snd (cpcfg argv w)).
Proof.
  intros Ho. assert (H0 : staged_world o w w) by (split; [done|split; [set_solver|done]]).
  unfold cpcfg, py_index. rewrite Ho. destruct (argv !! 1) as [a|]; [|done].
  rewrite !bind_ret_l. do 2 (erewrite bind_inr; [|reflexivity]). cbv beta zeta.
  unfold bind at 1. pose proof (staged_world_mkdir o w w _ H0 (or_introl eq_refl)) as H1.
  destruct (mkdir_exist_ok _ w) as [[e|[]] w1]; [done|]. simpl in H1.
  unfold bind at 1. pose proof (staged_world_mkdir o w w1 _ H1 (or_intror eq_refl)) as H2.
  destruct (mkdir_exist_ok _ w1) as [[e|[]] w2]; [done|]. simpl in H2.
  eapply staged_world_keeps; [exact H2|].
  enough (Hf : frame (fun p => ~ staged_path o p) (fun _ : unit => True)
                 (sha <- copyfiles (hw_files w a) (hw_dir o) [] ;;
                  sha <- copyfiles (cfg_files w a) (cfg_dir o) sha ;;
                  outfile <- open_rw o ;; update_sentinel outfile a (hexdigest sha))) by apply (Hf w2).
  eapply frame_bind; [apply frame_copyfiles; by left|]. intros sha _.
  eapply frame_bind; [apply frame_copyfiles; by right|]. intros sha' _.
  eapply frame_bind; [apply frame_open_rw|]. intros h Eh. by apply frame_update_sentinel.
Qed.

End Stager.

Module Example.

(** A directory order: the entries whose [dirname] is [d], files
    first, in the order of the finite maps. *)
Definition listdir_of (w : World) (d : string) : list string :=
  map basename (filter (fun p => bool_decide (dirname p = d))
                  (elements (dom (files w)) ++ elements (dirs w))).

(** The same entries in the opposite order. *)
Definition listdir_rev (w : World) (d : string) : list string := rev (listdir_of w d).

Definition H := Sha256.hexdigest.

Definition world0 : World :=
  mkWorld (<["app/hw/a.h" := bytes_of_string "int a;"]>
           (<["app/cfg/b.h" := bytes_of_string "int b;"]> ∅))
          {[ "app"; "app/hw"; "app/cfg"; "build" ]} ∅ [].

Definition argv0 : list string := ["cpcfg.py"; "app"; "build/cfg.h"].

Definition world1 : World := final_world H listdir_of world0 "app" "build/cfg.h".

(** Witness of [cpcfg_ok]. *)
Lemma cpcfg_ok_witness :
  cpcfg H listdir_of argv0 world0 = (inr tt, world1) /\
  exists h, read_text (mkHandle "build/cfg.h" 0) world1 =
    (inr (bytes_of_string (sentinel (H (message listdir_of world0 "app" "build/cfg.h"))), h), world1).
Proof.
  apply (cpcfg_ok H listdir_of "cpcfg.py" "app" "build/cfg.h" [] world0).
  apply (bool_decide_unpack _). vm_compute. exact I.
Defined.

(** Witness of [cpcfg_idempotent]. *)
Lemma cpcfg_idempotent_witness :
  cpcfg H listdir_of argv0 world1 = (inr tt, add_stdout world1 [checking_line "app"; no_need_line "app"]).
Proof.
  apply (cpcfg_idempotent H listdir_of "cpcfg.py" "app" "build/cfg.h" [] world0);
    try (apply (bool_decide_unpack _); vm_compute; exact I); vm_compute; reflexivity.
Defined.

(** Witness of [cpcfg_args]. *)
Lemma cpcfg_args_witness : cpcfg H listdir_of ["cpcfg.py"; "app"] world0 = (inl IndexError, world0).
Proof. apply cpcfg_args. simpl. lia. Defined.

(** Witness of [cpcfg_missing_build_dir]: [nobuild] does not exist. *)
Lemma cpcfg_missing_build_dir_witness :
  cpcfg H listdir_of ["cpcfg.py"; "app"; "nobuild/cfg.h"] world0 =
    (inl (OSError ENOENT (hw_dir "nobuild/cfg.h")), world0).
Proof.
  apply cpcfg_missing_build_dir; [vm_compute; discriminate|apply (bool_decide_unpack _); vm_compute; exact I|].
  vm_compute. reflexivity.
Defined.

(** Witness of [cpcfg_same_dir]: [outname] in [app] itself. *)
Lemma cpcfg_same_dir_witness :
  cpcfg H listdir_of ["cpcfg.py"; "app"; "app/cfg.h"] world0 =
    (inl (SameFileError (join2 (hw_glob "app") "a.h") (join2 (hw_glob "app") "a.h")),
     after_mkdir world0 "app/cfg.h").
Proof.
  apply (cpcfg_same_dir H listdir_of "cpcfg.py" "app" "app/cfg.h" [] world0 "a.h" [] (bytes_of_string "int a;"));
    try (apply (bool_decide_unpack _); vm_compute; exact I); vm_compute; reflexivity.
Defined.

Definition world_latin1 : World :=
  mkWorld (<["app/hw/a.h" := [Byte.x63; Byte.xe9]]> ∅) {[ "app"; "app/hw"; "build" ]} ∅ [].

(** Witness of [cpcfg_decode_error]: a Latin-1 header. *)
Lemma cpcfg_decode_error_witness :
  cpcfg H listdir_of argv0 world_latin1 =
    (inl (UnicodeDecodeError "app/hw/a.h"),
     set_files (insert "build/hw/a.h" [Byte.x63; Byte.xe9]) (after_mkdir world_latin1 "build/cfg.h")).
Proof.
  apply (cpcfg_decode_error H listdir_of "cpcfg.py" "app" "build/cfg.h" [] world_latin1 "app/hw/a.h" []);
    try (apply (bool_decide_unpack _); vm_compute; exact I); vm_compute; try reflexivity; discriminate.
Defined.

Definition world_lf : World :=
  mkWorld (<["app/hw/a.h" := bytes_of_string ("int a;" ++ String.String (Ascii.ascii_of_nat 10) "")]> ∅)
          {[ "app"; "app/hw"; "build"; "build/hw" ]} ∅ [].

(** Witness of [copyfiles_crlf]. *)
Lemma copyfiles_crlf_witness :
  fst (copyfiles ["app/hw/a.h"] "build/hw" [] (set_files (fmap crlf) world_lf)) =
  fst (copyfiles ["app/hw/a.h"] "build/hw" [] world_lf).
Proof.
  apply copyfiles_crlf; apply (bool_decide_unpack _); vm_compute; exact I.
Defined.

(** A check run: the digest depends on the order in which the filesystem lists
    the directory: the same two headers listed in the opposite order
    give another sentinel. *)
Example cpcfg_order_dependent :
  let w := mkWorld (<["app/hw/a.h" := bytes_of_string "int a;"]>
                    (<["app/hw/b.h" := bytes_of_string "int b;"]> ∅))
                   {[ "app"; "app/hw"; "build" ]} ∅ [] in
  fst (cpcfg H listdir_of argv0 w) = inr tt /\ fst (cpcfg H listdir_rev argv0 w) = inr tt /\
  files (snd (cpcfg H listdir_of argv0 w)) !! "build/cfg.h" <>
  files (snd (cpcfg H listdir_rev argv0 w)) !! "build/cfg.h".
Proof. vm_compute. split; [done|]. split; [done|]. congruence. Qed.

(** [build/hw] is a plain file. *)
Definition world_hw_file : World :=
  set_files (insert "build/hw" (bytes_of_string "notes")) world0.

Lemma mkdir_then_copy_onto_file_witness :
  (mkdir_exist_ok "build/hw" ;; copy2 "app/hw/a.h" "build/hw") world_hw_file =
  (inr "build/hw"%string, set_files (insert "build/hw" (bytes_of_string "int a;")) world_hw_file).
Proof.
  apply (mkdir_then_copy_onto_file "build/hw" "app/hw/a.h" (bytes_of_string "notes"));
    [apply (bool_decide_unpack _); vm_compute; exact I|reflexivity|reflexivity|set_solver|set_solver|done].
Defined.

(** Witness of [cpcfg_frame]. *)
Lemma cpcfg_frame_witness :
  staged_world "build/cfg.h" world0 (snd (cpcfg H listdir_of argv0 world0)).
Proof. exact (cpcfg_frame H listdir_of argv0 "build/cfg.h" world0 eq_refl). Defined.

End Example.
